(** * Terminal RPG: weapons, characters, combat and save files

    A shallow embedding of [weapons.py], [rpg_game.py] and
    [save_profiles.py].

    - Python objects that are shared and mutated ([Weapon] instances) live in
      a store [heap]; an inventory slot, the equipped weapon and the
      catalogue ([WeaponManager.weapons]) all hold references into it.
    - Python [int] is [Z]; Python [float] is IEEE binary64, taken from the
      standard library's [SpecFloat]; a number that may be either is a [num].
    - Exceptions are values of [exn]; a call that may raise returns a
      [result].
    - Random draws and keyboard input are explicit arguments. *)

From Stdlib Require Import ZArith QArith String Ascii List Lia.
From Stdlib Require Import SpecFloat.
From stdpp Require Import gmap strings list.
From Equations Require Import Equations.

Local Open Scope string_scope.
Local Open Scope list_scope.
Local Open Scope Z_scope.

(** ** Exceptions and fallible calls *)

Inductive exn : Type :=
| OverflowError        (* int too large for a float; int(inf) *)
| ValueError           (* int(nan); randint on an empty range *)
| KeyError (k : string)(* d[k] with k absent *)
| TypeError            (* subscript or iteration of a value of the wrong kind *)
| OSError              (* open() failed *)
| JSONDecodeError      (* json.load on text that is not JSON *)
| DanglingRef.         (* a reference outside the store: no Python run has one *)

Inductive result (A : Type) : Type :=
| Ok (a : A)
| Raise (e : exn).
Arguments Ok {A} a.
Arguments Raise {A} e.

#[global] Instance result_ret : MRet result := @Ok.
#[global] Instance result_bind : MBind result := λ A B k m,
  match m with
  | Ok a => k a
  | Raise e => Raise e
  end.

(** ** Python numbers *)

Definition prec : Z := 53.
Definition emax : Z := 1024.

Inductive num : Type :=
| PyInt (z : Z)
| PyFloat (f : spec_float).

(** [float(z)]: nearest binary64, ties to even; CPython raises
    [OverflowError] when the rounded value does not fit. *)
Definition float_of_int (z : Z) : result spec_float :=
  match binary_normalize prec emax z 0 false with
  | S754_infinity _ => Raise OverflowError
  | f => Ok f
  end.

Definition as_float (a : num) : result spec_float :=
  match a with
  | PyInt z => float_of_int z
  | PyFloat f => Ok f
  end.

(** [a + b] and [a - b]: exact on two ints, otherwise both operands are
    converted to float. *)
Definition py_add (a b : num) : result num :=
  match a, b with
  | PyInt x, PyInt y => Ok (PyInt (x + y))
  | _, _ =>
      f ← as_float a; g ← as_float b; Ok (PyFloat (SFadd prec emax f g))
  end.

Definition py_sub (a b : num) : result num :=
  match a, b with
  | PyInt x, PyInt y => Ok (PyInt (x - y))
  | _, _ =>
      f ← as_float a; g ← as_float b; Ok (PyFloat (SFsub prec emax f g))
  end.

(** [int(a)]: truncation towards zero. *)
Definition py_int (a : num) : result Z :=
  match a with
  | PyInt z => Ok z
  | PyFloat S754_nan => Raise ValueError
  | PyFloat (S754_infinity _) => Raise OverflowError
  | PyFloat (S754_zero _) => Ok 0
  | PyFloat (S754_finite s m e) =>
      let mag := Z.shiftl (Z.pos m) e in
      Ok (if s then - mag else mag)
  end.

(** [random.randint(a, b)]: [a + k] for a draw [k] below [b - a + 1];
    the draw is [n mod (b - a + 1)] for the raw random integer [n].
    An empty range raises. *)
Definition randint (a b n : Z) : result Z :=
  if b <? a then Raise ValueError else Ok (a + n mod (b - a + 1)).

(** ** weapons.py: class Weapon *)

Module Weapon.

Record t : Type := mk {
  name : string;
  attack : spec_float;
  rarity : string;
  durability : Z;
  max_durability : Z;
  cost : Z;
  weapon_type : string;
  special_effect : string;
  description : string
}.

Definition set_durability (d : Z) (w : t) : t :=
  mk (name w) (attack w) (rarity w) d (max_durability w) (cost w)
     (weapon_type w) (special_effect w) (description w).

(** [Weapon.__init__], on the parsed values [float(attack)],
    [int(durability)] and [int(cost)]. *)
Definition init (name : string) (attack : spec_float) (rarity : string)
  (durability cost : Z) (weapon_type special_effect description : string) : t :=
  mk name attack rarity durability durability cost weapon_type special_effect
     description.

(** [Weapon.use]: the weapon after the call and the returned flag. *)
Definition use (self : t) : t * bool :=
  if 0 <? max_durability self then
    let self := set_durability (durability self - 1) self in
    if durability self <=? 0 then (self, true) else (self, false)
  else (self, false).

(** [Weapon.repair]. *)
Definition repair (self : t) (amount : option Z) : t :=
  match amount with
  | None => set_durability (max_durability self) self
  | Some a =>
      set_durability (Z.min (max_durability self) (durability self + a)) self
  end.

End Weapon.

(** ** The object store *)

Abbreviation loc := positive.
Abbreviation heap := (gmap loc Weapon.t).

Definition deref (h : heap) (r : loc) : result Weapon.t :=
  match h !! r with
  | Some w => Ok w
  | None => Raise DanglingRef
  end.

(** An inventory slot holds a [Weapon] object or a plain string. *)
Inductive item : Type :=
| WeaponItem (r : loc)
| PlainItem (s : string).

(** ** rpg_game.py: class Character *)

Module Character.

Record t : Type := mk {
  name : string;
  max_health : Z;
  health : Z;
  base_attack : Z;
  attack : num;
  defense : Z;
  position : list Z;
  inventory : list item;
  level : Z;
  experience : Z;
  equipped_weapon : option loc;
  gold : Z
}.

Definition set_name v (c : t) : t :=
  mk v (max_health c) (health c) (base_attack c) (attack c) (defense c)
     (position c) (inventory c) (level c) (experience c)
     (equipped_weapon c) (gold c).
Definition set_max_health v (c : t) : t :=
  mk (name c) v (health c) (base_attack c) (attack c) (defense c)
     (position c) (inventory c) (level c) (experience c)
     (equipped_weapon c) (gold c).
Definition set_health v (c : t) : t :=
  mk (name c) (max_health c) v (base_attack c) (attack c) (defense c)
     (position c) (inventory c) (level c) (experience c)
     (equipped_weapon c) (gold c).
Definition set_base_attack v (c : t) : t :=
  mk (name c) (max_health c) (health c) v (attack c) (defense c)
     (position c) (inventory c) (level c) (experience c)
     (equipped_weapon c) (gold c).
Definition set_attack v (c : t) : t :=
  mk (name c) (max_health c) (health c) (base_attack c) v (defense c)
     (position c) (inventory c) (level c) (experience c)
     (equipped_weapon c) (gold c).
Definition set_defense v (c : t) : t :=
  mk (name c) (max_health c) (health c) (base_attack c) (attack c) v
     (position c) (inventory c) (level c) (experience c)
     (equipped_weapon c) (gold c).
Definition set_position v (c : t) : t :=
  mk (name c) (max_health c) (health c) (base_attack c) (attack c)
     (defense c) v (inventory c) (level c) (experience c)
     (equipped_weapon c) (gold c).
Definition set_inventory v (c : t) : t :=
  mk (name c) (max_health c) (health c) (base_attack c) (attack c)
     (defense c) (position c) v (level c) (experience c)
     (equipped_weapon c) (gold c).
Definition set_level v (c : t) : t :=
  mk (name c) (max_health c) (health c) (base_attack c) (attack c)
     (defense c) (position c) (inventory c) v (experience c)
     (equipped_weapon c) (gold c).
Definition set_experience v (c : t) : t :=
  mk (name c) (max_health c) (health c) (base_attack c) (attack c)
     (defense c) (position c) (inventory c) (level c) v
     (equipped_weapon c) (gold c).
Definition set_equipped_weapon v (c : t) : t :=
  mk (name c) (max_health c) (health c) (base_attack c) (attack c)
     (defense c) (position c) (inventory c) (level c) (experience c)
     v (gold c).
Definition set_gold v (c : t) : t :=
  mk (name c) (max_health c) (health c) (base_attack c) (attack c)
     (defense c) (position c) (inventory c) (level c) (experience c)
     (equipped_weapon c) v.

(** [Character.__init__(name, health, attack, defense)]. *)
Definition init (name : string) (health attack defense : Z) : t :=
  mk name health health attack (PyInt attack) defense [0; 0] [] 1 0 None 100.

(** [equip_weapon]: [self.attack = self.base_attack + weapon.attack]. *)
Definition equip_weapon (h : heap) (self : t) (weapon : loc) : result t :=
  w ← deref h weapon;
  let self := set_equipped_weapon (Some weapon) self in
  a ← py_add (PyInt (base_attack self)) (PyFloat (Weapon.attack w));
  Ok (set_attack a self).

(** [unequip_weapon]: the character after the call and the returned
    weapon. *)
Definition unequip_weapon (self : t) : t * option loc :=
  match equipped_weapon self with
  | Some weapon =>
      let self := set_equipped_weapon None self in
      let self := set_attack (PyInt (base_attack self)) self in
      (self, Some weapon)
  | None => (self, None)
  end.

Definition is_alive (self : t) : bool := 0 <? health self.

(** [take_damage]: the character after the call and [actual_damage]. *)
Definition take_damage (self : t) (damage : Z) : t * Z :=
  let actual_damage := Z.max 0 (damage - defense self) in
  let self := set_health (health self - actual_damage) self in
  let self := set_health (Z.max 0 (health self)) self in
  (self, actual_damage).

Definition heal (self : t) (amount : Z) : t :=
  set_health (Z.min (max_health self) (health self + amount)) self.

(** The bounds handed to [random.randint] in [attack_target]. *)
Definition damage_bounds (attack : num) : result (Z * Z) :=
  lo ← (x ← py_sub attack (PyInt 2); py_int x);
  hi ← (x ← py_add attack (PyInt 5); py_int x);
  Ok (lo, hi).

(** The durability check of [attack_target]: the attacker and the store
    after it. *)
Definition wear_weapon (h : heap) (self : t) : result (t * heap) :=
  match equipped_weapon self with
  | Some r =>
      w ← deref h r;
      let '(w, broke) := Weapon.use w in
      let h := <[r := w]> h in
      if broke then
        let self := set_equipped_weapon None self in
        let self := set_attack (PyInt (base_attack self)) self in
        Ok (self, h)
      else Ok (self, h)
  | None => Ok (self, h)
  end.

(** [attack_target]: [n] is the raw random integer behind [randint].
    Returns the attacker, the target, the store and the damage dealt.
    The attacker and the target are two objects at every call site. *)
Definition attack_target (h : heap) (self target : t) (n : Z)
  : result (t * t * heap * Z) :=
  '(lo, hi) ← damage_bounds (attack self);
  damage ← randint lo hi n;
  '(self, h) ← wear_weapon h self;
  let '(target, dealt) := take_damage target damage in
  Ok (self, target, h, dealt).

(** [level_up]. *)
Definition level_up (h : heap) (self : t) : result t :=
  let self := set_level (level self + 1) self in
  let self := set_experience (experience self - 100) self in
  let self := set_max_health (max_health self + 20) self in
  let self := set_health (max_health self) self in
  let self := set_base_attack (base_attack self + 3) self in
  let self := set_attack (PyInt (base_attack self)) self in
  self ← match equipped_weapon self with
         | Some r =>
             w ← deref h r;
             a ← py_add (attack self) (PyFloat (Weapon.attack w));
             Ok (set_attack a self)
         | None => Ok self
         end;
  Ok (set_defense (defense self + 2) self).

Definition add_gold (self : t) (amount : Z) : t :=
  set_gold (gold self + amount) self.

(** *** [gain_experience]: the [while self.experience >= 100] loop *)

Definition inspect {A : Type} (a : A) : {b : A | a = b} := exist _ a eq_refl.

Equations? level_up_loop (h : heap) (self : t) : result t
  by wf (Z.to_nat (experience self)) lt :=
  level_up_loop h self with inspect (100 <=? experience self) := {
    | exist _ true _ with inspect (level_up h self) := {
        | exist _ (Ok self') _ => level_up_loop h self'
        | exist _ (Raise e) _ => Raise e };
    | exist _ false _ => Ok self }.
Proof.
  assert (experience self' = experience self - 100) as E.
  { unfold level_up in e0. cbn in e0.
    destruct (equipped_weapon self) as [r|]; cbn in e0;
      [destruct (deref h r); cbn in e0;
        [destruct (float_of_int _); cbn in e0|]|];
      first [discriminate e0 | by injection e0 as <-]. }
  apply Z.leb_le in e. lia.
Qed.

Definition gain_experience (h : heap) (self : t) (xp : Z)
  : result t :=
  let self := set_experience (experience self + xp) self in
  level_up_loop h self.

End Character.

(** ** rpg_game.py: class Enemy(Character) *)

Module Enemy.

Record t : Type := mk {
  char : Character.t;
  xp_reward : Z;
  gold_reward : Z
}.

Definition set_char (c : Character.t) (e : t) : t :=
  mk c (xp_reward e) (gold_reward e).

(** [Enemy.__init__]. *)
Definition init (name : string) (health attack defense xp_reward gold_reward : Z)
  : t :=
  mk (Character.init name health attack defense) xp_reward gold_reward.

End Enemy.

(** ** The random module *)

(** [itertools.accumulate(weights)]. *)
Fixpoint accumulate (acc : Z) (weights : list Z) : list Z :=
  match weights with
  | [] => []
  | w :: weights => (acc + w) :: accumulate (acc + w) weights
  end.

(** [bisect(cum_weights, x, 0, hi)] on an ascending list: the number of
    entries among the first [hi] that are at most [x]. *)
Fixpoint bisect (cum_weights : list Z) (x : Q) (hi : nat) : nat :=
  match hi, cum_weights with
  | S hi, c :: cum_weights =>
      if Qle_bool (inject_Z c) x then S (bisect cum_weights x hi) else 0%nat
  | _, _ => 0%nat
  end.

(** [random.choices(population, weights=weights)[0]], where [x] is the
    value of [random() * total], a point of [[0, total)]. *)
Definition choices {A : Type} (population : list A) (weights : list Z) (x : Q)
  : result A :=
  let cum_weights := accumulate 0 weights in
  if negb (length cum_weights =? length population)%nat then Raise ValueError
  else if List.last cum_weights 0 <=? 0 then Raise ValueError
  else
    match population !! bisect cum_weights x (length population - 1) with
    | Some a => Ok a
    | None => Raise ValueError
    end.

(** [random.choice(seq)] on a non-empty list: [seq[k]] for a draw [k] below
    [len(seq)]; the draw is [n mod len(seq)] for the raw random number
    [n]. *)
Definition choice {A : Type} (seq : list A) (n : nat) : option A :=
  seq !! (n mod length seq)%nat.

(** ** weapons.py: class WeaponManager *)

(** [str.lower] on text of ASCII characters: the letters A to Z are folded
    and every other character is left as it is.  Python also folds letters
    outside ASCII, so what is proved of a comparison of names is stated for
    ASCII names (see [is_ascii]). *)
Definition lower_ascii (c : ascii) : ascii :=
  let n := nat_of_ascii c in
  if ((65 <=? n) && (n <=? 90))%nat then ascii_of_nat (n + 32) else c.

Fixpoint lower (s : string) : string :=
  match s with
  | EmptyString => EmptyString
  | String c s => String (lower_ascii c) (lower s)
  end.

Module WeaponManager.

(** [self.weapons]: the references of the loaded weapons, in file order. *)
Abbreviation t := (list loc).

Fixpoint get_weapon_by_name (h : heap) (self : t) (name : string)
  : result (option loc) :=
  match self with
  | [] => Ok None
  | weapon :: self =>
      w ← deref h weapon;
      if String.eqb (lower (Weapon.name w)) (lower name) then Ok (Some weapon)
      else get_weapon_by_name h self name
  end.

(** The list comprehension [[w for w in self.weapons if p(w)]]. *)
Fixpoint select (p : Weapon.t → bool) (h : heap) (self : t) : result (list loc) :=
  match self with
  | [] => Ok []
  | weapon :: self =>
      w ← deref h weapon;
      rest ← select p h self;
      Ok (if p w then weapon :: rest else rest)
  end.

Definition get_weapons_by_rarity (h : heap) (self : t) (rarity : string) :=
  select (λ w, String.eqb (Weapon.rarity w) rarity) h self.

Definition get_weapons_by_type (h : heap) (self : t) (weapon_type : string) :=
  select (λ w, String.eqb (Weapon.weapon_type w) weapon_type) h self.

Definition get_affordable_weapons (h : heap) (self : t) (gold : Z) :=
  select (λ w, Weapon.cost w <=? gold) h self.

(** [get_random_weapon(rarity)]; [None] and the empty string are falsy. *)
Definition get_random_weapon (h : heap) (self : t) (rarity : option string)
  (n : nat) : result (option loc) :=
  available ← match rarity with
              | Some (String c s) => get_weapons_by_rarity h self (String c s)
              | Some EmptyString | None => Ok self
              end;
  match available with
  | [] => Ok None
  | _ :: _ => Ok (choice available n)
  end.

Definition rarity_weights : list (string * Z) :=
  [("Common", 50); ("Uncommon", 25); ("Rare", 15); ("Epic", 8);
   ("Legendary", 2)].

(** [get_weighted_random_weapon]: [x] is the draw behind [random.choices],
    [n] the one behind [random.choice]. *)
Definition get_weighted_random_weapon (h : heap) (self : t) (x : Q) (n : nat)
  : result (option loc) :=
  let rarities := rarity_weights.*1 in
  let weights := rarity_weights.*2 in
  chosen_rarity ← choices rarities weights x;
  get_random_weapon h self (Some chosen_rarity) n.

End WeaponManager.

(** ** rpg_game.py: battle *)

Module Battle.

(** What [battle] prints, in order.  [EnemyAttacks] carries the enemy whose
    name the message shows, as it is when the message is printed. *)
Inductive event : Type :=
| PlayerStrikes (damage : Z)
| PlayerDefends
| FleeSucceeds
| FleeFails
| VictoryMsg
| EnemyAttacks (enemy : Character.t) (damage : Z)
| DefeatMsg.

(** The [return] statement that ends the battle. *)
Inductive exit : Type :=
| PlayerFled              (* return False, after a successful flee *)
| PlayerVictory           (* return True, enemy defeated *)
| PlayerDefeat            (* return False, player defeated *)
| LoopEnd (alive : bool). (* return player.is_alive(), loop condition false *)

Definition returned (e : exit) : bool :=
  match e with
  | PlayerFled => false
  | PlayerVictory => true
  | PlayerDefeat => false
  | LoopEnd alive => alive
  end.

Record state : Type := mk {
  player : Character.t;
  enemy : Enemy.t;
  store : heap;
  turn : Z;
  log : list event
}.

(** What one round reads: the line typed at the prompt (stripped), the value
    of [random.random()] if the player runs, and the raw random integers
    behind the two damage rolls. *)
Record input : Type := mk_input {
  choice : string;
  flee_draw : Q;
  player_roll : Z;
  enemy_roll : Z
}.

Definition Qltb (x y : Q) : bool := negb (Qle_bool y x).

(** The player's turn: the state after it, and whether [return False] of a
    successful flee was taken. *)
Definition player_turn (s : state) (i : input) : result (state * bool) :=
  if String.eqb (choice i) "1" then
    '(p, e, h, damage) ←
      Character.attack_target (store s) (player s) (Enemy.char (enemy s))
        (player_roll i);
    Ok (mk p (Enemy.set_char e (enemy s)) h (turn s)
           (log s ++ [PlayerStrikes damage]), false)
  else if String.eqb (choice i) "2" then
    Ok (mk (Character.heal (player s) 15) (enemy s) (store s) (turn s)
           (log s ++ [PlayerDefends]), false)
  else if String.eqb (choice i) "3" then
    if Qltb (flee_draw i) (1 # 4) then
      Ok (mk (player s) (enemy s) (store s) (turn s) (log s ++ [FleeSucceeds]),
          true)
    else
      Ok (mk (player s) (enemy s) (store s) (turn s) (log s ++ [FleeFails]),
          false)
  else Ok (s, false).

(** The enemy's turn and the defeat check that follows it. *)
Definition enemy_turn (s : state) (i : input) : result (state * option exit) :=
  '(e, p, h, damage) ←
    Character.attack_target (store s) (Enemy.char (enemy s)) (player s)
      (enemy_roll i);
  let s := mk p (Enemy.set_char e (enemy s)) h (turn s)
              (log s ++ [EnemyAttacks e damage]) in
  if negb (Character.is_alive (player s)) then
    Ok (mk (player s) (enemy s) (store s) (turn s) (log s ++ [DefeatMsg]),
        Some PlayerDefeat)
  else
    Ok (mk (player s) (enemy s) (store s) (turn s + 1) (log s), None).

(** The victory branch. *)
Definition victory (s : state) : result (state * option exit) :=
  p ← Character.gain_experience (store s) (player s)
        (Enemy.xp_reward (enemy s));
  let p := Character.add_gold p (Enemy.gold_reward (enemy s)) in
  Ok (mk p (enemy s) (store s) (turn s) (log s ++ [VictoryMsg]),
      Some PlayerVictory).

(** One pass through the body of the [while] loop. *)
Definition round (s : state) (i : input) : result (state * option exit) :=
  '(s, fled) ← player_turn s i;
  if (fled : bool) then Ok (s, Some PlayerFled)
  else if negb (Character.is_alive (Enemy.char (enemy s))) then victory s
  else enemy_turn s i.

Definition guard (s : state) : bool :=
  Character.is_alive (player s) && Character.is_alive (Enemy.char (enemy s)).

(** The [while] loop on the rounds typed so far.  [None] as exit: the loop
    is waiting at the prompt for the next line. *)
Fixpoint loop (inputs : list input) (s : state) : result (state * option exit) :=
  if guard s then
    match inputs with
    | [] => Ok (s, None)
    | i :: inputs =>
        '(s, e) ← round s i;
        match e with
        | Some e => Ok (s, Some e)
        | None => loop inputs s
        end
    end
  else Ok (s, Some (LoopEnd (Character.is_alive (player s)))).

Definition battle (h : heap) (player : Character.t) (enemy : Enemy.t)
  (inputs : list input) : result (state * option exit) :=
  loop inputs (mk player enemy h 1 []).

End Battle.

(** ** save_profiles.py *)

(** What [json.dump] writes and [json.load] returns.  The keys of an object
    are distinct, as those of a Python [dict]. *)
#[warnings="-register-all"]
Inductive json : Type :=
| JNull
| JBool (b : bool)
| JInt (z : Z)
| JFloat (f : spec_float)
| JStr (s : string)
| JList (l : list json)
| JObj (fields : list (string * json)).

Fixpoint lookup_key (k : string) (fields : list (string * json)) : option json :=
  match fields with
  | [] => None
  | (k', v) :: fields => if String.eqb k' k then Some v else lookup_key k fields
  end.

(** [d[k]] for a string [k]. *)
Definition subscript (d : json) (k : string) : result json :=
  match d with
  | JObj fields =>
      match lookup_key k fields with
      | Some v => Ok v
      | None => Raise (KeyError k)
      end
  | _ => Raise TypeError
  end.

(** [d.get(k, default)] on a dict. *)
Definition get_default (d : json) (k : string) (v : json) : result json :=
  match d with
  | JObj fields => Ok (default v (lookup_key k fields))
  | _ => Raise TypeError
  end.

(** Truth value of [j] in an [if]. *)
Definition truthy (j : json) : bool :=
  match j with
  | JNull => false
  | JBool b => b
  | JInt z => negb (z =? 0)
  | JFloat (S754_zero _) => false
  | JFloat _ => true
  | JStr s => negb (String.eqb s "")
  | JList l => match l with [] => false | _ => true end
  | JObj fields => match fields with [] => false | _ => true end
  end.

Fixpoint occurs_in (k s : string) : bool :=
  String.prefix k s ||
  match s with
  | EmptyString => false
  | String _ s => occurs_in k s
  end.

Definition is_str (k : string) (j : json) : bool :=
  match j with
  | JStr s => String.eqb s k
  | _ => false
  end.

(** [k in j] for a string [k]: key of a dict, element of a list, substring
    of a string. *)
Definition contains (k : string) (j : json) : result bool :=
  match j with
  | JObj fields => Ok (bool_decide (is_Some (lookup_key k fields)))
  | JList l => Ok (existsb (is_str k) l)
  | JStr s => Ok (occurs_in k s)
  | _ => Raise TypeError
  end.

(** [for x in j]. *)
Definition iterate (j : json) : result (list json) :=
  match j with
  | JList l => Ok l
  | JObj fields => Ok (JStr <$> fields.*1)
  | JStr s => Ok ((λ c, JStr (String c EmptyString)) <$> list_ascii_of_string s)
  | _ => Raise TypeError
  end.

(** The fields of [Character], [Weapon] and [GameWorld] are typed.  A save
    record is read at the type [save_game] writes for each leaf; on a leaf of
    another type the model raises [TypeError], where Python would store the
    value and fail at its first use. *)
Definition as_str (j : json) : result string :=
  match j with JStr s => Ok s | _ => Raise TypeError end.
Definition as_int (j : json) : result Z :=
  match j with JInt z => Ok z | _ => Raise TypeError end.
Definition as_num (j : json) : result num :=
  match j with
  | JInt z => Ok (PyInt z)
  | JFloat f => Ok (PyFloat f)
  | _ => Raise TypeError
  end.

Fixpoint all_ok {A : Type} (l : list (result A)) : result (list A) :=
  match l with
  | [] => Ok []
  | r :: l => a ← r; rest ← all_ok l; Ok (a :: rest)
  end.

Definition as_int_list (j : json) : result (list Z) :=
  l ← iterate j; all_ok (as_int <$> l).

Definition of_num (a : num) : json :=
  match a with
  | PyInt z => JInt z
  | PyFloat f => JFloat f
  end.

Module World.

(** [GameWorld]: the fields a save file holds. *)
Record t : Type := mk {
  width : Z;
  height : Z;
  discovered : gset (list Z)
}.

Definition set_discovered (d : gset (list Z)) (w : t) : t :=
  mk (width w) (height w) d.

End World.

Module SaveManager.

(** [self.save_file] on disk. *)
Inductive file : Type :=
| Absent                  (* os.path.exists is False *)
| Unreadable              (* open() raises *)
| Garbled                 (* json.load raises *)
| Holds (save_data : json).

Inductive message : Type :=
| SavedMsg
| SaveErrorMsg
| NoSaveFileMsg
| WeaponNotFoundMsg (name : string)
| LoadedMsg
| LoadErrorMsg (e : exn).

(** The objects [save_game] and [load_game] read and mutate. *)
Record session : Type := mk {
  player : Character.t;
  world : World.t;
  store : heap;
  disk : file;
  out : list message
}.

(** A computation that mutates the session and may raise; the session at the
    raise is kept. *)
Definition M (A : Type) : Type := session → result A * session.

#[global] Instance M_ret : MRet M := λ A a s, (Ok a, s).
#[global] Instance M_bind : MBind M := λ A B k m s,
  match m s with
  | (Ok a, s) => k a s
  | (Raise e, s) => (Raise e, s)
  end.

Definition lift {A : Type} (r : result A) : M A := λ s, (r, s).

Definition try_except {A : Type} (body : M A) (handler : exn → M A) : M A :=
  λ s, match body s with
       | (Ok a, s) => (Ok a, s)
       | (Raise e, s) => handler e s
       end.

Definition get_session : M session := λ s, (Ok s, s).
Definition update_player (f : Character.t → Character.t) : M () :=
  λ s, (Ok (), mk (f (player s)) (world s) (store s) (disk s) (out s)).
Definition update_world (f : World.t → World.t) : M () :=
  λ s, (Ok (), mk (player s) (f (world s)) (store s) (disk s) (out s)).
Definition update_store (f : heap → heap) : M () :=
  λ s, (Ok (), mk (player s) (world s) (f (store s)) (disk s) (out s)).
Definition write_file (f : file) : M () :=
  λ s, (Ok (), mk (player s) (world s) (store s) f (out s)).
Definition print (m : message) : M () :=
  λ s, (Ok (), mk (player s) (world s) (store s) (disk s) (out s ++ [m])).

(** The dict written for a weapon. *)
Definition weapon_data (w : Weapon.t) : json :=
  JObj [("name", JStr (Weapon.name w));
        ("attack", JFloat (Weapon.attack w));
        ("rarity", JStr (Weapon.rarity w));
        ("durability", JInt (Weapon.durability w));
        ("max_durability", JInt (Weapon.max_durability w));
        ("cost", JInt (Weapon.cost w));
        ("weapon_type", JStr (Weapon.weapon_type w));
        ("special_effect", JStr (Weapon.special_effect w));
        ("description", JStr (Weapon.description w))].

Definition item_data (h : heap) (i : item) : result json :=
  match i with
  | WeaponItem r => w ← deref h r; Ok (weapon_data w)
  | PlainItem s => Ok (JObj [("item_name", JStr s)])
  end.

(** [player_data], with the entries for the equipped weapon and the
    inventory given. *)
Definition player_data (player : Character.t) (moves_count : Z)
  (equipped : json) (inventory_data : list json) : json :=
  JObj [("name", JStr (Character.name player));
        ("health", JInt (Character.health player));
        ("max_health", JInt (Character.max_health player));
        ("base_attack", JInt (Character.base_attack player));
        ("attack", of_num (Character.attack player));
        ("defense", JInt (Character.defense player));
        ("position", JList (JInt <$> Character.position player));
        ("level", JInt (Character.level player));
        ("experience", JInt (Character.experience player));
        ("gold", JInt (Character.gold player));
        ("moves_count", JInt moves_count);
        ("equipped_weapon", equipped);
        ("inventory", JList inventory_data)].

Definition world_data (world : World.t) : json :=
  JObj [("width", JInt (World.width world));
        ("height", JInt (World.height world));
        ("discovered",
         JList ((λ pos, JList (JInt <$> pos))
                  <$> elements (World.discovered world)))].

(** [save_data] as [save_game] builds it. *)
Definition build_save_data (h : heap) (player : Character.t) (world : World.t)
  (moves_count : Z) : result json :=
  equipped ← match Character.equipped_weapon player with
             | Some r => w ← deref h r; Ok (weapon_data w)
             | None => Ok JNull
             end;
  inventory_data ← all_ok (item_data h <$> Character.inventory player);
  Ok (JObj [("player", player_data player moves_count equipped inventory_data);
            ("world", world_data world);
            ("version", JStr "1.0")]).

(** [save_game(player, world, moves_count)].  [failure] tells whether the
    write raises, and what it then leaves on disk. *)
Definition save_game (moves_count : Z) (failure : option file) : M bool :=
  s ← get_session;
  save_data ← lift (build_save_data (store s) (player s) (world s) moves_count);
  match failure with
  | None => write_file (Holds save_data);; print SavedMsg;; mret true
  | Some remains => write_file remains;; print SaveErrorMsg;; mret false
  end.

(** [weapon_manager.get_weapon_by_name(name)] on the current store. *)
Definition find_weapon (weapon_manager : WeaponManager.t) (name : string)
  : M (option loc) :=
  s ← get_session;
  lift (WeaponManager.get_weapon_by_name (store s) weapon_manager name).

(** [weapon.durability = d]. *)
Definition assign_durability (weapon : loc) (d : Z) : M () :=
  update_store (alter (Weapon.set_durability d) weapon).

(** The assignments [player.name = player_data['name']] to
    [player.gold = player_data['gold']].  The fields of [Character.t] are
    typed, so each value is read at the type of its field: a record that
    has a value of another JSON type there is refused with [TypeError],
    where Python stores the value as it is and goes on.  The records
    [save_game] writes have the types of the fields; what is proved of the
    load of any other record is stated so as to hold in both cases. *)
Definition load_scalars (player_data : json) : M () :=
  v ← lift (subscript player_data "name" ≫= as_str);
  update_player (Character.set_name v);;
  v ← lift (subscript player_data "health" ≫= as_int);
  update_player (Character.set_health v);;
  v ← lift (subscript player_data "max_health" ≫= as_int);
  update_player (Character.set_max_health v);;
  v ← lift (subscript player_data "base_attack" ≫= as_int);
  update_player (Character.set_base_attack v);;
  v ← lift (subscript player_data "attack" ≫= as_num);
  update_player (Character.set_attack v);;
  v ← lift (subscript player_data "defense" ≫= as_int);
  update_player (Character.set_defense v);;
  v ← lift (subscript player_data "position" ≫= as_int_list);
  update_player (Character.set_position v);;
  v ← lift (subscript player_data "level" ≫= as_int);
  update_player (Character.set_level v);;
  v ← lift (subscript player_data "experience" ≫= as_int);
  update_player (Character.set_experience v);;
  v ← lift (subscript player_data "gold" ≫= as_int);
  update_player (Character.set_gold v).

Definition load_equipped (player_data : json) (weapon_manager : WeaponManager.t)
  : M () :=
  weapon_data ← lift (subscript player_data "equipped_weapon");
  if truthy weapon_data then
    name ← lift (subscript weapon_data "name" ≫= as_str);
    equipped ← find_weapon weapon_manager name;
    match equipped with
    | Some equipped =>
        d ← lift (subscript weapon_data "durability" ≫= as_int);
        assign_durability equipped d;;
        update_player (Character.set_equipped_weapon (Some equipped))
    | None => print (WeaponNotFoundMsg name)
    end
  else update_player (Character.set_equipped_weapon None).

Definition append_item (i : item) : M () :=
  update_player (λ p, Character.set_inventory (Character.inventory p ++ [i]) p).

(** The body of [for item_data in player_data['inventory']]. *)
Definition load_item (item_data : json) (weapon_manager : WeaponManager.t)
  : M () :=
  is_weapon ← lift (contains "name" item_data);
  if (is_weapon : bool) then
    name ← lift (subscript item_data "name" ≫= as_str);
    weapon ← find_weapon weapon_manager name;
    match weapon with
    | Some weapon =>
        d ← lift (subscript item_data "durability" ≫= as_int);
        assign_durability weapon d;;
        append_item (WeaponItem weapon)
    | None => mret ()
    end
  else
    is_item ← lift (contains "item_name" item_data);
    if (is_item : bool) then
      v ← lift (subscript item_data "item_name" ≫= as_str);
      append_item (PlainItem v)
    else mret ().

Fixpoint load_items (items : list json) (weapon_manager : WeaponManager.t)
  : M () :=
  match items with
  | [] => mret ()
  | item_data :: items =>
      load_item item_data weapon_manager;; load_items items weapon_manager
  end.

Definition load_inventory (player_data : json) (weapon_manager : WeaponManager.t)
  : M () :=
  update_player (Character.set_inventory []);;
  items ← lift (subscript player_data "inventory" ≫= iterate);
  load_items items weapon_manager.

Definition load_world (save_data : json) : M () :=
  world_data ← lift (subscript save_data "world");
  positions ← lift (subscript world_data "discovered" ≫= iterate);
  tuples ← lift (all_ok (as_int_list <$> positions));
  update_world (World.set_discovered (list_to_set tuples)).

(** [open] and [json.load]. *)
Definition read_file (f : file) : result json :=
  match f with
  | Holds save_data => Ok save_data
  | Garbled => Raise JSONDecodeError
  | Unreadable | Absent => Raise OSError
  end.

(** What the caller of [load_game] receives for a value of the record:
    JSON's [null] is Python's [None], any other value is handed on as it
    is. *)
Definition returned (v : json) : option json :=
  match v with
  | JNull => None
  | _ => Some v
  end.

(** The [try] block of [load_game].  [moves_count] is read with
    [player_data.get('moves_count', 0)] and returned unchecked. *)
Definition load_body (weapon_manager : WeaponManager.t) : M (option json) :=
  s ← get_session;
  save_data ← lift (read_file (disk s));
  player_data ← lift (subscript save_data "player");
  load_scalars player_data;;
  load_equipped player_data weapon_manager;;
  load_inventory player_data weapon_manager;;
  load_world save_data;;
  moves_count ← lift (get_default player_data "moves_count" (JInt 0));
  print LoadedMsg;;
  mret (returned moves_count).

(** [load_game(player, world, weapon_manager)]: the returned [moves_count],
    or [None]. *)
Definition load_game (weapon_manager : WeaponManager.t) : M (option json) :=
  s ← get_session;
  match disk s with
  | Absent => print NoSaveFileMsg;; mret None
  | _ =>
      try_except (load_body weapon_manager)
        (λ e, print (LoadErrorMsg e);; mret None)
  end.

Definition save_exists : M bool :=
  s ← get_session;
  mret (match disk s with Absent => false | _ => true end).

(** [delete_save]: [failure] tells whether [os.remove] raises.  The
    messages it prints are left out. *)
Definition delete_save (failure : bool) : M bool :=
  s ← get_session;
  match disk s with
  | Absent => mret false
  | _ => if failure then mret false else write_file Absent;; mret true
  end.

End SaveManager.

(** ** rpg_game.py: class GameWorld *)

(** The doubles written [0.3] and [0.6] in [find_treasure]. *)
Definition double_0_3 : Q := 5404319552844595 # 18014398509481984.
Definition double_0_6 : Q := 5404319552844595 # 9007199254740992.

(** [l[:stop]]: a negative [stop] counts from the end. *)
Definition slice_to {A : Type} (l : list A) (stop : Z) : list A :=
  if stop <? 0 then take (Z.to_nat (Z.of_nat (length l) + stop)) l
  else take (Z.to_nat stop) l.

Module GameWorld.

Definition moves : list (string * (Z * Z)) :=
  [("up", (0, 1)); ("down", (0, -1)); ("left", (-1, 0)); ("right", (1, 0))].

Fixpoint lookup_move (direction : string) (moves : list (string * (Z * Z)))
  : option (Z * Z) :=
  match moves with
  | [] => None
  | (d, step) :: moves =>
      if String.eqb d direction then Some step else lookup_move direction moves
  end.

(** [move_character(character, direction)]: the character, the world and
    the returned flag; [None] when [character.position[0]] or
    [character.position[1]] raises [IndexError].  The map that a move prints
    reads [self.player], which [main] sets before the first move. *)
Definition move_character (world : World.t) (character : Character.t)
  (direction : string) : option (Character.t * World.t * bool) :=
  match lookup_move direction moves with
  | Some (dx, dy) =>
      x ← Character.position character !! 0%nat;
      let new_x := x + dx in
      y ← Character.position character !! 1%nat;
      let new_y := y + dy in
      if (0 <=? new_x) && (new_x <? World.width world)
         && (0 <=? new_y) && (new_y <? World.height world)
      then
        let character := Character.set_position [new_x; new_y] character in
        let world :=
          World.set_discovered
            ({[ Character.position character ]} ∪ World.discovered world)
            world in
        Some (character, world, true)
      else Some (character, world, false)
  | None => Some (character, world, false)
  end.

Definition enemy_types : list (string * Z * Z * Z * Z * Z) :=
  [("Goblin", 30, 8, 2, 25, 15);
   ("Skeleton", 40, 10, 3, 35, 25);
   ("Orc", 60, 15, 5, 50, 40);
   ("Dark Knight", 80, 20, 8, 75, 60);
   ("Dragon", 150, 30, 12, 150, 100)].

Definition make_enemy (enemy_data : string * Z * Z * Z * Z * Z) : Enemy.t :=
  let '(name, health, attack, defense, xp_reward, gold_reward) := enemy_data in
  Enemy.init name health attack defense xp_reward gold_reward.

(** [random_encounter()]: [n] is the raw random number behind
    [random.choice]; [None] when [random.choice] raises [IndexError] on an
    empty slice. *)
Definition random_encounter (player : Character.t) (n : nat) : option Enemy.t :=
  let max_index :=
    Z.min (Z.of_nat (length enemy_types) - 1) (Character.level player) in
  match slice_to enemy_types (max_index + 1) with
  | [] => None
  | candidates => make_enemy <$> choice candidates n
  end.

(** [find_treasure()]: [treasure_roll] is the value of [random.random()],
    [x] and [n] are the draws of the weighted weapon draw and [gold_draw] the
    raw random integer behind [random.randint(20, 100)]. *)
Definition find_treasure (h : heap) (weapon_manager : WeaponManager.t)
  (player : Character.t) (treasure_roll x : Q) (n : nat) (gold_draw : Z)
  : result Character.t :=
  if Battle.Qltb treasure_roll double_0_3 then
    weapon ← WeaponManager.get_weighted_random_weapon h weapon_manager x n;
    match weapon with
    | Some weapon =>
        Ok (Character.set_inventory
              (Character.inventory player ++ [WeaponItem weapon]) player)
    | None => Ok player
    end
  else if Battle.Qltb treasure_roll double_0_6 then
    gold_amount ← randint 20 100 gold_draw;
    Ok (Character.add_gold player gold_amount)
  else Ok (Character.heal player 30).

End GameWorld.

(** ** rpg_game.py: shop_menu and inventory_menu *)

Definition rarities : list string :=
  ["Common"; "Uncommon"; "Rare"; "Epic"; "Legendary"].

(** [shown_weapons]: for each rarity in turn, the first five affordable
    weapons of that rarity. *)
Fixpoint shown_weapons (h : heap) (affordable : list loc)
  (rarities : list string) : result (list loc) :=
  match rarities with
  | [] => Ok []
  | rarity :: rarities =>
      rarity_weapons ←
        WeaponManager.select (λ w, String.eqb (Weapon.rarity w) rarity) h
          affordable;
      rest ← shown_weapons h affordable rarities;
      Ok (take 5 rarity_weapons ++ rest)
  end.

(** [confirm.lower() in ['yes', 'y']]. *)
Definition says_yes (confirm : string) : bool :=
  String.eqb (lower confirm) "yes" || String.eqb (lower confirm) "y".

(** [shop_menu(player, weapon_manager)]: [choice] is what [int(input())]
    gives, [None] when it raises [ValueError]; [confirm] is the answer to the
    question that follows a valid choice. *)
Definition shop_menu (h : heap) (weapon_manager : WeaponManager.t)
  (player : Character.t) (choice : option Z) (confirm : string)
  : result Character.t :=
  affordable ←
    WeaponManager.get_affordable_weapons h weapon_manager
      (Character.gold player);
  match affordable with
  | [] => Ok player
  | _ :: _ =>
      shown ← shown_weapons h affordable rarities;
      match choice with
      | None => Ok player
      | Some choice =>
          if (1 <=? choice) && (choice <=? Z.of_nat (length shown)) then
            match shown !! Z.to_nat (choice - 1) with
            | Some weapon =>
                w ← deref h weapon;
                if says_yes confirm then
                  let player :=
                    Character.set_gold (Character.gold player - Weapon.cost w)
                      player in
                  Ok (Character.set_inventory
                        (Character.inventory player ++ [WeaponItem weapon])
                        player)
                else Ok player
            | None => Ok player
            end
          else Ok player
      end
  end.

(** [[item for item in player.inventory if isinstance(item, Weapon)]]. *)
Definition weapons_of (inventory : list item) : list loc :=
  omap (λ i, match i with WeaponItem r => Some r | PlainItem _ => None end)
    inventory.

(** One pass of the loop of [inventory_menu]: the player, and whether the
    loop is left. *)
Definition inventory_choice (h : heap) (player : Character.t)
  (choice : option Z) : result (Character.t * bool) :=
  let weapons := weapons_of (Character.inventory player) in
  match choice with
  | None => Ok (player, false)
  | Some choice =>
      if (1 <=? choice) && (choice <=? Z.of_nat (length weapons)) then
        match weapons !! Z.to_nat (choice - 1) with
        | Some weapon =>
            player ← Character.equip_weapon h player weapon;
            Ok (player, false)
        | None => Ok (player, false)
        end
      else if choice =? Z.of_nat (length weapons) + 1 then
        Ok ((Character.unequip_weapon player).1, false)
      else if choice =? Z.of_nat (length weapons) + 2 then Ok (player, true)
      else Ok (player, false)
  end.

(** [inventory_menu(player)] on the choices typed so far. *)
Fixpoint inventory_menu (h : heap) (player : Character.t)
  (choices : list (option Z)) : result Character.t :=
  match choices with
  | [] => Ok player
  | choice :: choices =>
      '(player, leave) ← inventory_choice h player choice;
      if (leave : bool) then Ok player else inventory_menu h player choices
  end.

(** ** weapons.py: WeaponManager.load_weapons *)

(** [str.isspace], on ASCII characters. *)
Definition is_space (c : ascii) : bool :=
  let n := nat_of_ascii c in
  ((9 <=? n) && (n <=? 13) || (28 <=? n) && (n <=? 32))%nat.

Fixpoint lstrip (s : string) : string :=
  match s with
  | EmptyString => EmptyString
  | String c s' => if is_space c then lstrip s' else s
  end.

Fixpoint rstrip (s : string) : string :=
  match s with
  | EmptyString => EmptyString
  | String c s =>
      match rstrip s with
      | EmptyString => if is_space c then EmptyString else String c EmptyString
      | s => String c s
      end
  end.

(** [s.strip()]. *)
Definition strip (s : string) : string := lstrip (rstrip s).

(** [s.split(sep)] for a separator of one character. *)
Fixpoint split (sep : ascii) (s : string) : list string :=
  match s with
  | EmptyString => [EmptyString]
  | String c s =>
      if Ascii.eqb c sep then EmptyString :: split sep s
      else
        match split sep s with
        | part :: parts => String c part :: parts
        | [] => [String c EmptyString]
        end
  end.

(** What [open(filename, 'r')] finds. *)
Inductive text_file : Type :=
| NoFile                        (* open() raises FileNotFoundError *)
| NoAccess                      (* open() raises another OSError *)
| Text (lines : list string).   (* the lines, each with its line end *)

(** The line [load_weapons] prints when it is done. *)
Inductive weapons_message : Type :=
| LoadedWeapons (n : nat)
| WeaponsNotFound
| WeaponsError (e : exn).

Section LoadWeapons.

(** [float(s)] and [int(s)] on a string: [None] when they raise
    [ValueError]. *)
Variable float_str : string → option spec_float.
Variable int_str : string → option Z.

Definition parsed {A : Type} (o : option A) : result A :=
  match o with
  | Some a => Ok a
  | None => Raise ValueError
  end.

(** [Weapon(name=parts[0].strip(), ..., description=parts[7].strip())] on
    the eight parts of a line. *)
Definition new_weapon (parts : list string) : result Weapon.t :=
  match strip <$> parts with
  | [name; attack; rarity; durability; cost; weapon_type; special_effect;
     description] =>
      attack ← parsed (float_str attack);
      durability ← parsed (int_str durability);
      cost ← parsed (int_str cost);
      Ok (Weapon.init name attack rarity durability cost weapon_type
            special_effect description)
  | _ => Raise TypeError
  end.

(** The body of [for line in file]: [self.weapons] and the store after
    it. *)
Definition read_line (line : string) (weapons : list loc) (h : heap)
  : result (list loc * heap) :=
  let line := strip line in
  if String.eqb line "" || String.prefix "#" line then Ok (weapons, h)
  else
    let parts := split "|" line in
    if (length parts =? 8)%nat then
      weapon ← new_weapon parts;
      let r := fresh (dom h) in
      Ok (weapons ++ [r], <[r := weapon]> h)
    else Ok (weapons, h).

(** The loop: [self.weapons], the store, and the exception that ended the
    loop, if any. *)
Fixpoint read_lines (lines : list string) (weapons : list loc) (h : heap)
  : list loc * heap * option exn :=
  match lines with
  | [] => (weapons, h, None)
  | line :: lines =>
      match read_line line weapons h with
      | Ok (weapons, h) => read_lines lines weapons h
      | Raise e => (weapons, h, Some e)
      end
  end.

(** [load_weapons(filename)]: no exception leaves it. *)
Definition load_weapons (file : text_file) (weapons : list loc) (h : heap)
  : list loc * heap * weapons_message :=
  match file with
  | NoFile => (weapons, h, WeaponsNotFound)
  | NoAccess => (weapons, h, WeaponsError OSError)
  | Text lines =>
      let '(weapons, h, e) := read_lines lines weapons h in
      (weapons, h,
       match e with
       | None => LoadedWeapons (length weapons)
       | Some e => WeaponsError e
       end)
  end.

(** [WeaponManager.__init__(filename)]. *)
Definition new_manager (file : text_file) (h : heap)
  : list loc * heap * weapons_message :=
  load_weapons file [] h.

End LoadWeapons.

(** ** rpg_game.py: main *)

(** The double written [0.4] in [main]. *)
Definition double_0_4 : Q := 7205759403792794 # 18014398509481984.

(** [inventory_menu(player)] on the choices typed so far, with the flag that
    tells whether [break] was reached. *)
Fixpoint inventory_loop (h : heap) (player : Character.t)
  (choices : list (option Z)) : result (Character.t * bool) :=
  match choices with
  | [] => Ok (player, false)
  | choice :: choices =>
      '(player, leave) ← inventory_choice h player choice;
      if (leave : bool) then Ok (player, true)
      else inventory_loop h player choices
  end.

Module Game.

(** How a call that reads input ends. *)
Inductive outcome (A : Type) : Type :=
| Returns (a : A)
| Waits                (* at a prompt, with the typed lines used up *)
| Escapes (e : exn)    (* an exception leaves the call *)
| IndexError.          (* the exception is an IndexError *)
Arguments Returns {A} a.
Arguments Waits {A}.
Arguments Escapes {A} e.
Arguments IndexError {A}.

Definition of_result {A : Type} (r : result A) : outcome A :=
  match r with
  | Ok a => Returns a
  | Raise e => Escapes e
  end.

(** The variables of [main] that its loop reads and changes, with the store
    of the weapons and the save file. *)
Record state : Type := mk {
  player : Character.t;
  world : World.t;
  store : heap;
  disk : SaveManager.file;
  moves_count : Z
}.

Definition set_player (p : Character.t) (s : state) : state :=
  mk p (world s) (store s) (disk s) (moves_count s).

(** The draws of one [find_treasure]. *)
Record treasure_draws : Type := mk_treasure {
  treasure_roll : Q;
  rarity_draw : Q;
  weapon_draw : nat;
  gold_draw : Z
}.

(** What one pass of the loop of [main] may read: the lines typed and the
    random draws, each in the place where the code asks for it. *)
Record input : Type := mk_input {
  choice : string;                    (* the line typed at the menu *)
  direction : string;                 (* the line typed after choice 3 *)
  encounter_chance : Q;               (* random.random() before an encounter *)
  enemy_draw : nat;                   (* random.choice in random_encounter *)
  rounds : list Battle.input;         (* the rounds of the battle *)
  treasure_chance : Q;                (* random.random() before a treasure *)
  treasure : treasure_draws;
  menu_choices : list (option Z);     (* int(input()) in inventory_menu *)
  shop_choice : option Z;             (* int(input()) in shop_menu *)
  shop_confirm : string;
  write_failure : option SaveManager.file
}.

(** [display_stats]: the position is printed by its two coordinates. *)
Definition display_stats (player : Character.t) : option () :=
  _ ← Character.position player !! 0%nat;
  _ ← Character.position player !! 1%nat;
  Some ().

Definition find_treasure (weapon_manager : WeaponManager.t) (s : state)
  (t : treasure_draws) : outcome (state * bool) :=
  of_result
    (p ← GameWorld.find_treasure (store s) weapon_manager (player s)
           (treasure_roll t) (rarity_draw t) (weapon_draw t) (gold_draw t);
     Ok (set_player p s, false)).

(** [enemy = world.random_encounter()], the battle, and what follows it:
    the state and whether [break] is reached.  [chance] is the chance of a
    treasure after a battle that was won. *)
Definition encounter (weapon_manager : WeaponManager.t) (s : state) (i : input)
  (chance : Q) : outcome (state * bool) :=
  match GameWorld.random_encounter (player s) (enemy_draw i) with
  | None => IndexError
  | Some enemy =>
      match Battle.battle (store s) (player s) enemy (rounds i) with
      | Raise e => Escapes e
      | Ok (_, None) => Waits
      | Ok (b, Some exit) =>
          let s :=
            mk (Battle.player b) (world s) (Battle.store b) (disk s)
              (moves_count s) in
          if negb (Character.is_alive (player s)) then Returns (s, true)
          else if Battle.returned exit
                  && Battle.Qltb (treasure_chance i) chance
          then find_treasure weapon_manager s (treasure i)
          else Returns (s, false)
      end
  end.

(** One pass through the body of [while player.is_alive()]: the state
    after it and whether [break] was reached. *)
Definition turn (weapon_manager : WeaponManager.t) (s : state) (i : input)
  : outcome (state * bool) :=
  let choice := strip (choice i) in
  if String.eqb choice "1" then
    match display_stats (player s) with
    | Some _ => Returns (s, false)
    | None => IndexError
    end
  else if String.eqb choice "2" then Returns (s, false)
  else if String.eqb choice "3" then
    let direction := lower (strip (direction i)) in
    match GameWorld.move_character (world s) (player s) direction with
    | None => IndexError
    | Some (p, w, moved) =>
        let s := mk p w (store s) (disk s) (moves_count s) in
        if (moved : bool) then
          let s := mk (player s) (world s) (store s) (disk s) (moves_count s + 1) in
          if Battle.Qltb (encounter_chance i) double_0_4
          then encounter weapon_manager s i double_0_3
          else Returns (s, false)
        else Returns (s, false)
    end
  else if String.eqb choice "4" then
    if Battle.Qltb (encounter_chance i) double_0_6
    then encounter weapon_manager s i double_0_4
    else if Battle.Qltb (treasure_chance i) (1 # 2)
    then find_treasure weapon_manager s (treasure i)
    else Returns (s, false)
  else if String.eqb choice "5" then
    Returns (set_player (Character.heal (player s) 25) s, false)
  else if String.eqb choice "6" then
    match inventory_loop (store s) (player s) (menu_choices i) with
    | Ok (p, true) => Returns (set_player p s, false)
    | Ok (_, false) => Waits
    | Raise e => Escapes e
    end
  else if String.eqb choice "7" then
    of_result
      (p ← shop_menu (store s) weapon_manager (player s) (shop_choice i)
             (shop_confirm i);
       Ok (set_player p s, false))
  else if String.eqb choice "8" then
    match
      SaveManager.save_game (moves_count s) (write_failure i)
        (SaveManager.mk (player s) (world s) (store s) (disk s) [])
    with
    | (Ok _, saved) =>
        Returns (mk (player s) (world s) (store s) (SaveManager.disk saved)
                   (moves_count s), false)
    | (Raise e, _) => Escapes e
    end
  else if String.eqb choice "9" then Returns (s, true)
  else Returns (s, false).

(** The loop of [main] on the passes typed so far. *)
Fixpoint loop (weapon_manager : WeaponManager.t) (s : state)
  (inputs : list input) : outcome state :=
  if Character.is_alive (player s) then
    match inputs with
    | [] => Waits
    | i :: inputs =>
        match turn weapon_manager s i with
        | Returns (s, true) => Returns s
        | Returns (s, false) => loop weapon_manager s inputs
        | Waits => Waits
        | Escapes e => Escapes e
        | IndexError => IndexError
        end
    end
  else Returns s.

(** The start of a new game: the hero, the world of 10 by 10 with the
    start discovered, and the Rusty Sword in hand if the catalogue has
    one. *)
Definition new_game (weapon_manager : WeaponManager.t) (h : heap)
  (disk : SaveManager.file) (typed_name : string) : result state :=
  let name :=
    if String.eqb (strip typed_name) "" then "Hero" else strip typed_name in
  let player := Character.init name 100 15 5 in
  let world := World.mk 10 10 {[ Character.position player ]} in
  starting_weapon ←
    WeaponManager.get_weapon_by_name h weapon_manager "Rusty Sword";
  player ←
    match starting_weapon with
    | Some weapon =>
        let player :=
          Character.set_inventory
            (Character.inventory player ++ [WeaponItem weapon]) player in
        Character.equip_weapon h player weapon
    | None => Ok player
    end;
  Ok (mk player world h disk 0).

End Game.

(** * Vocabulary of the properties *)

(** ** Runs of attacks and sample data *)

(** A run of attack calls by one character: each call has its target and
    its random integer. *)
Fixpoint attacks (h : heap) (self : Character.t) (calls : list (Character.t * Z))
  : result (Character.t * heap) :=
  match calls with
  | [] => Ok (self, h)
  | (target, n) :: calls =>
      '(self, _, h, _) ← Character.attack_target h self target n;
      attacks h self calls
  end.

(** Sample data: a hero holding a two-use sword and an unbreakable staff. *)
Definition float_5 : spec_float :=
  Eval vm_compute in binary_normalize prec emax 5 0 false.
Definition float_7_5 : spec_float :=
  Eval vm_compute in binary_normalize prec emax 15 (-1) false.
Definition rusty_sword : Weapon.t :=
  Weapon.mk "Rusty Sword" float_5 "Common" 2 2 10 "Sword" "None" "Old blade".
Definition oak_staff : Weapon.t :=
  Weapon.mk "Oak Staff" float_7_5 "Uncommon" 0 0 40 "Staff" "None" "Sturdy".
Definition iron_axe : Weapon.t :=
  Weapon.mk "Iron Axe" float_7_5 "Common" 30 30 60 "Axe" "None" "Heavy".
Definition armory : heap :=
  <[1%positive := rusty_sword]> (<[2%positive := oak_staff]>
    (<[3%positive := iron_axe]> ∅)).
Definition catalogue : WeaponManager.t := [1%positive; 2%positive; 3%positive].
Definition hero : Character.t := Character.init "Hero" 100 15 5.
Definition goblin : Enemy.t := Enemy.init "Goblin" 30 8 2 25 15.
Definition equipped_hero (r : loc) : Character.t :=
  match Character.equip_weapon armory hero r with
  | Ok c => c
  | Raise _ => hero
  end.

(** A character can attack when [randint] gets a non-empty range from its
    [attack]. *)
Definition can_attack (c : Character.t) : Prop :=
  ∃ lo hi, Character.damage_bounds (Character.attack c) = Ok (lo, hi) ∧ lo ≤ hi.

(** The equipped weapon, if any, is in the store. *)
Definition armed_ok (h : heap) (c : Character.t) : Prop :=
  ∀ r, Character.equipped_weapon c = Some r → is_Some (h !! r).

(** ** The derived attack and the calls that reach a state *)

(** [attack] is [base_attack + equipped_weapon.attack], or [base_attack]
    with no weapon equipped. *)
Definition attack_derived (h : heap) (c : Character.t) : Prop :=
  match Character.equipped_weapon c with
  | Some r =>
      ∃ w, h !! r = Some w
           ∧ py_add (PyInt (Character.base_attack c)) (PyFloat (Weapon.attack w))
             = Ok (Character.attack c)
  | None => Character.attack c = PyInt (Character.base_attack c)
  end.

(** One call of a method of [Character] on the character [c], in the store
    [h]; a call that raises is no step. *)
Inductive step : Character.t * heap → Character.t * heap → Prop :=
| step_equip c h r c' :
    Character.equip_weapon h c r = Ok c' → step (c, h) (c', h)
| step_unequip c h :
    step (c, h) ((Character.unequip_weapon c).1, h)
| step_take_damage c h d :
    step (c, h) ((Character.take_damage c d).1, h)
| step_heal c h a :
    step (c, h) (Character.heal c a, h)
| step_attack c h target n c' target' h' dealt :
    Character.attack_target h c target n = Ok (c', target', h', dealt) →
    step (c, h) (c', h')
| step_gain_experience c h xp c' :
    Character.gain_experience h c xp = Ok c' → step (c, h) (c', h)
| step_level_up c h c' :
    Character.level_up h c = Ok c' → step (c, h) (c', h).

Inductive reachable : Character.t * heap → Prop :=
| reach_init name health attack defense h :
    reachable (Character.init name health attack defense, h)
| reach_step s s' :
    reachable s → step s s' → reachable s'.

(** ** Levels *)

(** How often the [while] loop of [gain_experience(xp)] runs. *)
Definition levels_gained (c : Character.t) (xp : Z) : Z :=
  Z.max 0 ((Character.experience c + xp) / 100).

(** [gain_experience(xp)] can recompute [attack] at each level it gives:
    nothing is asked of an unarmed character; the weapon of an armed one is
    in the store, and [base_attack] can be converted to a float, to be added
    to the weapon's bonus. *)
Definition can_gain (h : heap) (c : Character.t) (xp : Z) : Prop :=
  match Character.equipped_weapon c with
  | None => True
  | Some r =>
      is_Some (h !! r)
      ∧ ∀ k, 1 ≤ k ≤ levels_gained c xp →
             ∃ f, float_of_int (Character.base_attack c + 3 * k) = Ok f
  end.

(** ** The log of a battle *)

(** Each logged enemy attack was made by a living enemy. *)
Definition made_alive (ev : Battle.event) : Prop :=
  match ev with
  | Battle.EnemyAttacks enemy _ => 0 < Character.health enemy
  | _ => True
  end.

Definition no_enemy_attack (ev : Battle.event) : Prop :=
  match ev with
  | Battle.EnemyAttacks _ _ => False
  | _ => True
  end.

(** ** Rarity tiers *)

(** The weapons of the catalogue with the given rarity, in catalogue order. *)
Definition tier (h : heap) (weapons : WeaponManager.t) (rarity : string)
  : list loc :=
  List.filter
    (λ r, match h !! r with
          | Some w => String.eqb (Weapon.rarity w) rarity
          | None => false
          end) weapons.

Definition live (h : heap) (weapons : WeaponManager.t) : Prop :=
  ∀ r, r ∈ weapons → is_Some (h !! r).

(** ** Save files *)



(** No load changes the current durability of a weapon of the catalogue. *)
Definition catalogue_untouched (weapon_manager : WeaponManager.t) : Prop :=
  ∀ s r,
    r ∈ weapon_manager →
    Weapon.durability
      <$> SaveManager.store (SaveManager.load_game weapon_manager s).2 !! r
    = Weapon.durability <$> SaveManager.store s !! r.

Definition empty_world : World.t := World.mk 10 10 ∅.





(** ** Durability assignments *)

(** [weapon.durability = d], as an update of the store. *)
Definition assign (h : heap) (a : loc * Z) : heap :=
  alter (Weapon.set_durability a.2) a.1 h.
Arguments assign : simpl never.

(** From [s] to [s'] the store has only seen durability assignments to
    weapons of the catalogue. *)
Definition assigned (weapon_manager : WeaponManager.t)
  (s s' : SaveManager.session) : Prop :=
  ∃ assigns,
    SaveManager.store s' = foldl assign (SaveManager.store s) assigns
    ∧ Forall (λ a, a.1 ∈ weapon_manager) assigns.

Definition frames (weapon_manager : WeaponManager.t) {A : Type}
  (m : SaveManager.M A) : Prop :=
  ∀ s, assigned weapon_manager s (m s).2.

(** ** Catalogue weapons and saved records *)

(** The names of the catalogue are distinct, ignoring case, and its
    references are live. *)
Definition catalogue_ok (h : heap) (weapons : WeaponManager.t) : Prop :=
  live h weapons
  ∧ ∀ r1 r2 w1 w2,
      r1 ∈ weapons → r2 ∈ weapons → h !! r1 = Some w1 → h !! r2 = Some w2 →
      lower (Weapon.name w1) = lower (Weapon.name w2) → r1 = r2.

(** Text of ASCII characters only, on which [lower] is [str.lower]. *)
Definition is_ascii (s : string) : bool :=
  forallb (λ c, (nat_of_ascii c <? 128)%nat) (list_ascii_of_string s).

(** The weapons of the catalogue have ASCII names. *)
Definition ascii_names (h : heap) (weapons : WeaponManager.t) : Prop :=
  ∀ r w, r ∈ weapons → h !! r = Some w → is_ascii (Weapon.name w) = true.

(** The weapons a character holds: equipped or in the inventory. *)
Definition carried (p : Character.t) (r : loc) : Prop :=
  Character.equipped_weapon p = Some r ∨ WeaponItem r ∈ Character.inventory p.

(** Two stores with the same weapons, up to their current durability: the
    store when the game was saved and the store when it is loaded, which may
    be that of a later run where the catalogue was read again. *)
Definition same_definitions (h h0 : heap) : Prop :=
  ∀ r, Weapon.set_durability 0 <$> h0 !! r = Weapon.set_durability 0 <$> h !! r.



(** [r] is the weapon the catalogue returns for the name of [r]. *)
Definition own_entry (h : heap) (weapons : WeaponManager.t) (r : loc) : Prop :=
  ∃ w, h !! r = Some w
       ∧ WeaponManager.get_weapon_by_name h weapons (Weapon.name w)
         = Ok (Some r).

(** The durability assignments that restore the weapons of an inventory. *)
Definition restores (h : heap) (inventory : list item) : list (loc * Z) :=
  omap (λ i, match i with
             | WeaponItem r => (λ w, (r, Weapon.durability w)) <$> h !! r
             | PlainItem _ => None
             end) inventory.

(** The entries [save_game] writes for the weapons a character holds. *)
Definition item_json (h : heap) (i : item) : json :=
  match i with
  | WeaponItem r =>
      match h !! r with
      | Some w => SaveManager.weapon_data w
      | None => JNull
      end
  | PlainItem s => JObj [("item_name", JStr s)]
  end.

Definition equipped_json (h : heap) (p : Character.t) : json :=
  match Character.equipped_weapon p with
  | Some r =>
      match h !! r with
      | Some w => SaveManager.weapon_data w
      | None => JNull
      end
  | None => JNull
  end.

Definition saved_record (h : heap) (p : Character.t) (w : World.t) (moves : Z)
  : json :=
  JObj [("player",
         SaveManager.player_data p moves (equipped_json h p)
           (item_json h <$> Character.inventory p));
        ("world", SaveManager.world_data w);
        ("version", JStr "1.0")].

(** The scalar fields of [p], with the inventory and the equipped weapon of
    [q]. *)
Definition with_scalars (p q : Character.t) : Character.t :=
  Character.mk (Character.name p) (Character.max_health p) (Character.health p)
    (Character.base_attack p) (Character.attack p) (Character.defense p)
    (Character.position p) (Character.inventory q) (Character.level p)
    (Character.experience p) (Character.equipped_weapon q) (Character.gold p).

Definition equipped_items (p : Character.t) : list item :=
  match Character.equipped_weapon p with
  | Some r => [WeaponItem r]
  | None => []
  end.

(** The session a load of [saved_record h p w moves] ends in. *)
Definition loaded (h : heap) (p : Character.t) (w : World.t)
  (s : SaveManager.session) : SaveManager.session :=
  SaveManager.mk p
    (World.set_discovered (World.discovered w) (SaveManager.world s))
    (foldl assign
       (foldl assign (SaveManager.store s) (restores h (equipped_items p)))
       (restores h (Character.inventory p)))
    (SaveManager.disk s)
    (SaveManager.out s ++ [SaveManager.LoadedMsg]).

Definition worn_armory : heap :=
  <[1%positive := Weapon.set_durability 1 rusty_sword]> armory.




(** ** Vocabulary of the further properties *)

(** The ranges of the data model: health between 0 and [max_health], level
    at least 1, experience between 0 and 99, gold not negative. *)
Definition in_range (c : Character.t) : Prop :=
  0 ≤ Character.health c ≤ Character.max_health c
  ∧ 1 ≤ Character.level c
  ∧ 0 ≤ Character.experience c < 100
  ∧ 0 ≤ Character.gold c.



(** Three strikes of the hero, each with the highest roll. *)
Definition three_strikes : list Battle.input :=
  [Battle.mk_input "1" 0 7 0; Battle.mk_input "1" 0 7 0;
   Battle.mk_input "1" 0 7 0].

(** What a battle leaves alone between the states [s] and [s']: the store
    outside the weapon the player had equipped, every weapon but for its
    durability, the player's inventory, name and position, and the enemy but
    for its health; the player holds the weapon it had, or none. *)
Definition leaves_alone (s s' : Battle.state) : Prop :=
  (∀ r, Character.equipped_weapon (Battle.player s) ≠ Some r →
        Battle.store s' !! r = Battle.store s !! r)
  ∧ same_definitions (Battle.store s) (Battle.store s')
  ∧ Character.inventory (Battle.player s') = Character.inventory (Battle.player s)
  ∧ Character.name (Battle.player s') = Character.name (Battle.player s)
  ∧ Character.position (Battle.player s') = Character.position (Battle.player s)
  ∧ (Character.equipped_weapon (Battle.player s')
       = Character.equipped_weapon (Battle.player s)
     ∨ Character.equipped_weapon (Battle.player s') = None)
  ∧ Battle.enemy s'
    = Enemy.set_char
        (Character.set_health
           (Character.health (Enemy.char (Battle.enemy s')))
           (Enemy.char (Battle.enemy s)))
        (Battle.enemy s)
  ∧ Character.health (Enemy.char (Battle.enemy s'))
    ≤ Z.max 0 (Character.health (Enemy.char (Battle.enemy s))).

(** The position is a pair of coordinates inside the world. *)
Definition inside (world : World.t) (c : Character.t) : Prop :=
  ∃ x y, Character.position c = [x; y]
         ∧ 0 ≤ x < World.width world ∧ 0 ≤ y < World.height world.

(** Moves along a list of directions, counting those that succeed as [main]
    counts them in [moves_count]; [None] when a move raises. *)
Fixpoint walk (world : World.t) (c : Character.t) (directions : list string)
  (moves_count : Z) : option (Character.t * World.t * Z) :=
  match directions with
  | [] => Some (c, world, moves_count)
  | direction :: directions =>
      '(c, world, moved) ← GameWorld.move_character world c direction;
      walk world c directions
        (if (moved : bool) then moves_count + 1 else moves_count)
  end.

(** The weapons of the catalogue that satisfy [p], in catalogue order. *)
Definition matching (p : Weapon.t → bool) (h : heap) (weapons : WeaponManager.t)
  : list loc :=
  List.filter
    (λ r, match h !! r with
          | Some w => p w
          | None => false
          end) weapons.

(** An enemy as [Enemy.__init__] builds it: alive, at full health, with an
    integer attack, no weapon, nothing in its inventory, and rewards above
    0. *)
Definition fresh_enemy (e : Enemy.t) : Prop :=
  0 < Character.health (Enemy.char e)
  ∧ Character.health (Enemy.char e) = Character.max_health (Enemy.char e)
  ∧ Character.equipped_weapon (Enemy.char e) = None
  ∧ Character.attack (Enemy.char e) = PyInt (Character.base_attack (Enemy.char e))
  ∧ Character.inventory (Enemy.char e) = []
  ∧ 0 < Enemy.xp_reward e
  ∧ 0 < Enemy.gold_reward e.

(** The player after buying the weapon [r], which is [w] in the store. *)
Definition bought (player : Character.t) (r : loc) (w : Weapon.t) : Character.t :=
  Character.set_inventory (Character.inventory player ++ [WeaponItem r])
    (Character.set_gold (Character.gold player - Weapon.cost w) player).

(** The weapons the shop lists for a player with [gold]: for each of the
    five rarities in turn, the first five affordable weapons of it. *)
Definition on_offer (h : heap) (weapons : WeaponManager.t) (gold : Z)
  : list loc :=
  let affordable := matching (λ w, Weapon.cost w <=? gold) h weapons in
  flat_map
    (λ rarity,
       take 5 (matching (λ w, String.eqb (Weapon.rarity w) rarity) h affordable))
    rarities.

(** [p'] is [p] with another weapon in hand: it differs from [p] in
    [equipped_weapon] and [attack] only; either nothing has changed, or it
    holds nothing and attacks with [base_attack], or it holds a weapon of its
    inventory and attacks with [base_attack] plus the bonus of it. *)
Definition rearmed (h : heap) (p p' : Character.t) : Prop :=
  p' = Character.set_attack (Character.attack p')
         (Character.set_equipped_weapon (Character.equipped_weapon p') p)
  ∧ (p' = p
     ∨ (Character.equipped_weapon p' = None
        ∧ Character.attack p' = PyInt (Character.base_attack p))
     ∨ ∃ r w,
         Character.equipped_weapon p' = Some r
         ∧ WeaponItem r ∈ Character.inventory p
         ∧ h !! r = Some w
         ∧ py_add (PyInt (Character.base_attack p)) (PyFloat (Weapon.attack w))
           = Ok (Character.attack p')).

(** The name of [r] in the store is [name], ignoring the case of the
    letters: on ASCII names, the comparison [get_weapon_by_name] makes. *)
Definition named (h : heap) (name : string) (r : loc) : Prop :=
  ∃ w, h !! r = Some w ∧ lower (Weapon.name w) = lower name.

(** The entries of an inventory that are not weapons. *)
Definition plain_items (inventory : list item) : list item :=
  List.filter
    (λ i, match i with
          | PlainItem _ => true
          | WeaponItem _ => false
          end) inventory.

(** The catalogue [weapons], read in the store [h_load], has no weapon of
    the name that [r] has in [h]. *)
Definition unknown (h : heap) (weapons : WeaponManager.t) (h_load : heap)
  (r : loc) : Prop :=
  ∃ w, h !! r = Some w
       ∧ WeaponManager.get_weapon_by_name h_load weapons (Weapon.name w)
         = Ok None.

(** The hero with the sword in hand, holding the sword and a potion. *)
Definition sword_owner : Character.t :=
  Character.set_inventory [WeaponItem 1%positive; PlainItem "Potion"]
    (equipped_hero 1).

(** A line that [load_weapons] passes over: blank, a comment, or not of
    eight fields. *)
Definition skipped (line : string) : Prop :=
  strip line = ""
  ∨ String.prefix "#" (strip line) = true
  ∨ length (split "|" (strip line)) ≠ 8%nat.

(** The [k]-th field of a line, stripped. *)
Definition field (line : string) (k : nat) : string :=
  default "" ((strip <$> split "|" (strip line)) !! k).

(** From the catalogue [weapons] in the store [h] to [weapons'] in [h']:
    at most [n] weapons have been appended; they are new objects, distinct
    from each other, each at full durability; the objects of [h] are as they
    were. *)
Definition grown (weapons : list loc) (h : heap) (weapons' : list loc)
  (h' : heap) (n : nat) : Prop :=
  ∃ new,
    weapons' = weapons ++ new
    ∧ NoDup new
    ∧ (length new ≤ n)%nat
    ∧ (∀ r, r ∈ new →
         h !! r = None
         ∧ ∃ w, h' !! r = Some w
                ∧ Weapon.durability w = Weapon.max_durability w)
    ∧ h ⊆ h'.

(** A parser of the numbers of the sample lines. *)
Definition sample_float (s : string) : option spec_float :=
  if String.eqb s "5.0" then Some float_5
  else if String.eqb s "7.5" then Some float_7_5
  else None.
Definition sample_int (s : string) : option Z :=
  if String.eqb s "2" then Some 2
  else if String.eqb s "0" then Some 0
  else if String.eqb s "10" then Some 10
  else if String.eqb s "40" then Some 40
  else None.

Definition line_end : string := String (ascii_of_nat 10) EmptyString.

Definition sample_lines : list string :=
  (λ line, String.append line line_end)
    <$> ["# name|attack|rarity|durability|cost|type|effect|description";
         "Rusty Sword | 5.0 | Common | 2 | 10 | Sword | None | Old blade";
         "";
         "Broken line | 5.0 | Common";
         "Oak Staff|7.5|Uncommon|0|40|Staff|None|Sturdy";
         "Glass Dagger|sharp|Rare|2|10|Dagger|None|Brittle";
         "Iron Axe|7.5|Common|2|10|Axe|None|Heavy"].

(** A battle in order: the player's ranges and derived attack hold, and the
    enemy holds no weapon and gives rewards that are not negative. *)
Definition in_order (s : Battle.state) : Prop :=
  in_range (Battle.player s)
  ∧ attack_derived (Battle.store s) (Battle.player s)
  ∧ Character.equipped_weapon (Enemy.char (Battle.enemy s)) = None
  ∧ 0 ≤ Enemy.xp_reward (Battle.enemy s)
  ∧ 0 ≤ Enemy.gold_reward (Battle.enemy s).

(** A game in order: the player's stats are in their ranges, [attack] is
    the base attack plus the bonus of the weapon in hand, the player stands
    inside the world on a discovered position, and every weapon the player
    holds is an object of the catalogue, whose objects are all in the
    store. *)
Definition sound (weapons : WeaponManager.t) (s : Game.state) : Prop :=
  in_range (Game.player s)
  ∧ attack_derived (Game.store s) (Game.player s)
  ∧ inside (Game.world s) (Game.player s)
  ∧ Character.position (Game.player s) ∈ World.discovered (Game.world s)
  ∧ (∀ r, carried (Game.player s) r → r ∈ weapons)
  ∧ live (Game.store s) weapons.

(** A pass of the loop of [main] where the player moves up, meets an enemy
    and strikes three times. *)
Definition fight_up : Game.input :=
  Game.mk_input "3" "Up" (1 # 10) 0 three_strikes (1 # 10)
    (Game.mk_treasure (7 # 10) 0 0 0) [] None "" None.

(** * Properties *)

(** ** Fallible calls and random draws *)

Lemma bind_Ok {A B : Type} (m : result A) (k : A → result B) (b : B) :
  m ≫= k = Ok b → ∃ a, m = Ok a ∧ k a = Ok b.
Proof. destruct m as [a|e]; simpl; [eauto | discriminate]. Qed.

(** Splits every hypothesis [x ← m; k = Ok b] into its two successful
    steps. *)
Ltac inv_Ok :=
  repeat match goal with
  | H : _ ≫= _ = Ok _ |- _ =>
      let a := fresh "a" in
      let Ha := fresh "Ha" in
      apply bind_Ok in H; destruct H as (a & Ha & H)
  | H : Ok _ = Ok _ |- _ => injection H as H
  | H : Raise _ = Ok _ |- _ => discriminate H
  end.

Lemma randint_range a b n r : randint a b n = Ok r → a ≤ r ≤ b.
Proof.
  unfold randint. destruct (Z.ltb_spec b a) as [|Hab]; [discriminate|].
  intros [= <-]. pose proof (Z.mod_pos_bound n (b - a + 1)). lia.
Qed.

Lemma randint_onto a b r : a ≤ r ≤ b → randint a b (r - a) = Ok r.
Proof.
  intros Hr. unfold randint. destruct (Z.ltb_spec b a); [lia|].
  rewrite Z.mod_small by lia. f_equal. lia.
Qed.

Example gain_250 :
  Character.gain_experience ∅ (Character.init "Hero" 100 15 5) 250
  = Ok (Character.mk "Hero" 140 140 21 (PyInt 21) 9 [0; 0] [] 3 50 None 100).
Proof. vm_compute. reflexivity. Qed.

Example float_15_plus_7_5 :
  py_add (PyInt 15) (PyFloat (S754_finite false 15 (-1)))
  = Ok (PyFloat (S754_finite false 6333186975989760 (-48))).
Proof. vm_compute. reflexivity. Qed.

Example int_of_22_5 :
  py_int (PyFloat (S754_finite false 6333186975989760 (-48))) = Ok 22.
Proof. vm_compute. reflexivity. Qed.

(** ** Damage *)

(** C4. [take_damage(d)] on a character with defense [f] and health [h]
    returns [max(0, d - f)] and leaves the health at
    [max(0, h - max(0, d - f))], which is never negative; nothing else
    changes. *)
Theorem take_damage_exact (self : Character.t) (d : Z) :
  let f := Character.defense self in
  let h := Character.health self in
  let dealt := Z.max 0 (d - f) in
  Character.take_damage self d
    = (Character.set_health (Z.max 0 (h - dealt)) self, dealt)
  ∧ Character.health (Character.take_damage self d).1 = Z.max 0 (h - dealt)
  ∧ 0 ≤ Character.health (Character.take_damage self d).1
  ∧ (Character.take_damage self d).2 = dealt.
Proof.
  cbv zeta. unfold Character.take_damage. cbn.
  repeat split; lia.
Qed.

(** ** Durability *)

Lemma use_unbreakable (w : Weapon.t) :
  Weapon.max_durability w = 0 → Weapon.use w = (w, false).
Proof. intros H. unfold Weapon.use. rewrite H. reflexivity. Qed.

Lemma use_breakable (w : Weapon.t) :
  0 < Weapon.max_durability w →
  Weapon.use w
    = (Weapon.set_durability (Weapon.durability w - 1) w,
       bool_decide (Weapon.durability w ≤ 1)).
Proof.
  intros H. unfold Weapon.use.
  destruct (Z.ltb_spec 0 (Weapon.max_durability w)); [|lia]. cbn.
  destruct (Z.leb_spec (Weapon.durability w - 1) 0);
    [rewrite bool_decide_eq_true_2 by lia | rewrite bool_decide_eq_false_2 by lia];
    reflexivity.
Qed.

(** [attack_target] in its four steps. *)
Lemma attack_target_Ok h self target n self' target' h' dealt :
  Character.attack_target h self target n = Ok (self', target', h', dealt) →
  ∃ lo hi damage,
    Character.damage_bounds (Character.attack self) = Ok (lo, hi)
    ∧ randint lo hi n = Ok damage
    ∧ Character.wear_weapon h self = Ok (self', h')
    ∧ Character.take_damage target damage = (target', dealt).
Proof.
  unfold Character.attack_target. intros H.
  apply bind_Ok in H as ([lo hi] & Hb & H).
  apply bind_Ok in H as (damage & Hr & H).
  apply bind_Ok in H as ([s1 h1] & Hw & H).
  destruct (Character.take_damage target damage) as [t1 d1] eqn:Ht.
  injection H as -> -> -> ->. eauto 10.
Qed.

Lemma attack_target_steps h self target n lo hi damage self' h' :
  Character.damage_bounds (Character.attack self) = Ok (lo, hi) →
  randint lo hi n = Ok damage →
  Character.wear_weapon h self = Ok (self', h') →
  Character.attack_target h self target n
    = Ok (self', (Character.take_damage target damage).1, h',
          (Character.take_damage target damage).2).
Proof.
  intros Hb Hr Hw. unfold Character.attack_target.
  rewrite Hb. cbn. rewrite Hr. cbn. rewrite Hw. cbn. reflexivity.
Qed.

Lemma wear_unbreakable h self r w :
  Character.equipped_weapon self = Some r → h !! r = Some w →
  Weapon.max_durability w = 0 →
  Character.wear_weapon h self = Ok (self, h).
Proof.
  intros He Hr Hm. unfold Character.wear_weapon, deref. rewrite He, Hr. cbn.
  rewrite use_unbreakable by done. cbn. by rewrite insert_id.
Qed.

Lemma wear_breakable h self r w :
  Character.equipped_weapon self = Some r → h !! r = Some w →
  0 < Weapon.max_durability w →
  Character.wear_weapon h self
    = Ok (if bool_decide (Weapon.durability w ≤ 1)
          then Character.set_attack (PyInt (Character.base_attack self))
                 (Character.set_equipped_weapon None self)
          else self,
          <[r := Weapon.set_durability (Weapon.durability w - 1) w]> h).
Proof.
  intros He Hr Hm. unfold Character.wear_weapon, deref. rewrite He, Hr. cbn.
  rewrite use_breakable by done.
  destruct (bool_decide (Weapon.durability w ≤ 1)); reflexivity.
Qed.

Lemma attacks_unbreakable calls : ∀ h self r w self' h',
  Character.equipped_weapon self = Some r → h !! r = Some w →
  Weapon.max_durability w = 0 →
  attacks h self calls = Ok (self', h') →
  self' = self ∧ h' = h.
Proof.
  induction calls as [|[target n] calls IH]; intros h self r w self' h' He Hr Hm H.
  - by injection H as -> ->.
  - cbn in H. apply bind_Ok in H as ([[[s1 t1] h1] d1] & Ha & H).
    apply attack_target_Ok in Ha as (lo & hi & dmg & _ & _ & Hw & _).
    rewrite (wear_unbreakable h self r w) in Hw by done.
    injection Hw as <- <-. eauto.
Qed.

Lemma attacks_before_break calls : ∀ h self r w self' h',
  Character.equipped_weapon self = Some r → h !! r = Some w →
  0 < Weapon.max_durability w →
  Z.of_nat (length calls) < Weapon.durability w →
  attacks h self calls = Ok (self', h') →
  self' = self
  ∧ h' !! r
    = Some (Weapon.set_durability
              (Weapon.durability w - Z.of_nat (length calls)) w).
Proof.
  induction calls as [|[target n] calls IH];
    intros h self r w self' h' He Hr Hm Hk H.
  - injection H as -> ->. split; [done|]. rewrite Hr.
    destruct w; unfold Weapon.set_durability; cbn. by rewrite Z.sub_0_r.
  - cbn in H. apply bind_Ok in H as ([[[s1 t1] h1] d1] & Ha & H).
    apply attack_target_Ok in Ha as (lo & hi & dmg & _ & _ & Hw & _).
    rewrite (wear_breakable h self r w) in Hw by done.
    cbn [length] in Hk.
    rewrite bool_decide_eq_false_2 in Hw by lia. injection Hw as <- <-.
    eapply IH in H as [-> ->]; [| done | apply lookup_insert_eq | done |].
    + split; [done|]. f_equal. cbn [length].
      unfold Weapon.set_durability; cbn. f_equal. lia.
    + cbn. lia.
Qed.

Lemma attacks_app calls1 calls2 h self :
  attacks h self (calls1 ++ calls2)
  = '(self, h) ← attacks h self calls1; attacks h self calls2.
Proof.
  revert h self. induction calls1 as [|[target n] calls1 IH]; intros h self.
  - reflexivity.
  - cbn. destruct (Character.attack_target h self target n)
      as [[[[s1 t1] h1] d1]|e]; cbn; [apply IH | reflexivity].
Qed.

Lemma wear_weapon_returns h c :
  armed_ok h c → can_attack c →
  ∃ c' h', Character.wear_weapon h c = Ok (c', h')
           ∧ armed_ok h' c' ∧ can_attack c'.
Proof.
  intros Ha Hc. unfold Character.wear_weapon, deref.
  destruct (Character.equipped_weapon c) as [r|] eqn:E; [|by eauto].
  destruct (Ha r E) as [w Hw]. rewrite Hw. cbn.
  destruct (Weapon.use w) as [w' [|]]; eexists _, _; (split; [done|]); split.
  - by intros r'.
  - eexists _, _. split; [reflexivity|lia].
  - intros r'. rewrite E. intros [= <-]. by rewrite lookup_insert_eq.
  - done.
Qed.

Lemma attack_target_returns h self target n :
  armed_ok h self → can_attack self →
  ∃ self' target' h' dealt,
    Character.attack_target h self target n = Ok (self', target', h', dealt)
    ∧ armed_ok h' self' ∧ can_attack self'.
Proof.
  intros Ha Hc.
  destruct (wear_weapon_returns h self Ha Hc) as (c' & h' & Hw & Ha' & Hc').
  destruct Hc as (lo & hi & Hb & Hle).
  eexists c', _, h', _. split; [|done].
  eapply attack_target_steps; [exact Hb| |exact Hw].
  rewrite <- (randint_onto lo hi (lo + n mod (hi - lo + 1))).
  - unfold randint. destruct (Z.ltb_spec hi lo); [lia|].
    do 2 f_equal. rewrite Z.add_simpl_l. by rewrite Z.mod_mod by lia.
  - pose proof (Z.mod_pos_bound n (hi - lo + 1)). lia.
Qed.

Lemma attacks_return calls : ∀ h self,
  armed_ok h self → can_attack self →
  ∃ self' h', attacks h self calls = Ok (self', h').
Proof.
  induction calls as [|[target n] calls IH]; intros h self Ha Hc; [by eauto|].
  destruct (attack_target_returns h self target n Ha Hc)
    as (c' & t' & h' & d & Hat & Ha' & Hc').
  cbn. rewrite Hat. cbn. by apply IH.
Qed.

Lemma attacks_wear (h h' : heap) (self self' : Character.t) (r : loc)
  (w : Weapon.t) (calls : list (Character.t * Z)) :
  Character.equipped_weapon self = Some r →
  h !! r = Some w →
  attacks h self calls = Ok (self', h') →
  let N := Weapon.max_durability w in
  let k := Z.of_nat (length calls) in
  (N = 0 →
     (Weapon.use w).2 = false ∧ self' = self ∧ h' !! r = Some w)
  ∧ (0 < N → Weapon.durability w = N →
       (k < N →
          self' = self
          ∧ h' !! r = Some (Weapon.set_durability (N - k) w))
       ∧ (k = N →
          Character.equipped_weapon self' = None
          ∧ Character.attack self' = PyInt (Character.base_attack self')
          ∧ Character.base_attack self' = Character.base_attack self
          ∧ h' !! r = Some (Weapon.set_durability 0 w))).
Proof.
  intros He Hr H. cbv zeta. split.
  - intros HN. rewrite use_unbreakable by done.
    destruct (attacks_unbreakable calls h self r w self' h') as [-> ->]; done.
  - intros HN Hfull. split.
    + intros Hk.
      destruct (attacks_before_break calls h self r w self' h')
        as [-> ->]; try done; [lia|]. by rewrite Hfull.
    + intros Hk.
      destruct calls as [|c calls _] using rev_ind; [cbn in Hk; lia|].
      rewrite attacks_app in H.
      apply bind_Ok in H as ([s1 h1] & H1 & H). cbn in H.
      destruct c as [target n].
      apply bind_Ok in H as ([[[s2 t2] h2] d2] & Ha & H).
      injection H as -> ->.
      rewrite length_app in Hk. cbn in Hk.
      destruct (attacks_before_break calls h self r w s1 h1)
        as [-> Hr1]; try done; [lia|].
      apply attack_target_Ok in Ha as (lo & hi & dmg & _ & _ & Hw & _).
      rewrite (wear_breakable _ _ r _ He Hr1) in Hw by done. cbn in Hw.
      rewrite bool_decide_eq_true_2 in Hw by lia. injection Hw as <- <-.
      cbn. repeat split. rewrite lookup_insert_eq.
      unfold Weapon.set_durability; cbn. do 2 f_equal. lia.
Qed.

(** C2. Attacks by a character that holds the weapon [w] equipped and can
    attack all return.  If [max_durability = 0], [use] never reports a break
    and the attacks change neither the attacker nor the weapon.  If
    [max_durability = N > 0] and the weapon is at full durability, then after
    [k < N] attacks it is still equipped, with [N - k] points left, and the
    [N]-th attack breaks it: its durability is 0, the attacker holds no
    weapon and [attack] is [base_attack] again. *)
Theorem durability_break (h : heap) (self : Character.t) (r : loc)
  (w : Weapon.t) (calls : list (Character.t * Z)) :
  Character.equipped_weapon self = Some r →
  h !! r = Some w →
  can_attack self →
  let N := Weapon.max_durability w in
  let k := Z.of_nat (length calls) in
  ∃ self' h',
    attacks h self calls = Ok (self', h')
    ∧ (N = 0 →
         (Weapon.use w).2 = false ∧ self' = self ∧ h' !! r = Some w)
    ∧ (0 < N → Weapon.durability w = N →
         (k < N →
            self' = self
            ∧ h' !! r = Some (Weapon.set_durability (N - k) w))
         ∧ (k = N →
            Character.equipped_weapon self' = None
            ∧ Character.attack self' = PyInt (Character.base_attack self')
            ∧ Character.base_attack self' = Character.base_attack self
            ∧ h' !! r = Some (Weapon.set_durability 0 w))).
Proof.
  intros He Hr Hc. cbv zeta.
  destruct (attacks_return calls h self) as (self' & h' & Hrun); [|done|].
  { intros r' Hr'. rewrite He in Hr'. injection Hr' as <-. by eexists. }
  exists self', h'. split; [done|].
  exact (attacks_wear h h' self self' r w calls He Hr Hrun).
Qed.

Lemma durability_break_witness :
  let calls := [(Enemy.char goblin, 0); (Enemy.char goblin, 3)] in
  can_attack (equipped_hero 1)
  ∧ ∃ self' h',
      attacks armory (equipped_hero 1) calls = Ok (self', h')
      ∧ Character.equipped_weapon self' = None
      ∧ Character.attack self' = PyInt 15
      ∧ h' !! 1%positive = Some (Weapon.set_durability 0 rusty_sword).
Proof.
  intros calls.
  assert (can_attack (equipped_hero 1)) as Hc.
  { exists 18, 25. split; [reflexivity|lia]. }
  split; [exact Hc|].
  destruct (durability_break armory (equipped_hero 1) 1%positive rusty_sword
              calls eq_refl eq_refl Hc) as (self' & h' & Hrun & _ & Hb).
  exists self', h'. split; [exact Hrun|].
  destruct Hb as [_ Hb]; [reflexivity | reflexivity |].
  destruct Hb as (H1 & H2 & H3 & H4); [reflexivity|].
  repeat split; [exact H1 | rewrite H2, H3; reflexivity | exact H4].
Defined.

(** ** The roll of the breaking attack *)

(** C10. On the attack that takes the last durability point, the damage is
    rolled in the range computed from [base_attack + weapon.attack], the
    value [attack] has when the call starts; the weapon then breaks and
    [attack] is [base_attack], so that the next roll is in
    [[base_attack - 2, base_attack + 5]]. *)
Theorem breaking_attack_roll (h : heap) (self target : Character.t) (n : Z)
  (r : loc) (w : Weapon.t) (lo hi : Z) :
  Character.equipped_weapon self = Some r →
  h !! r = Some w →
  0 < Weapon.max_durability w →
  Weapon.durability w = 1 →
  py_add (PyInt (Character.base_attack self)) (PyFloat (Weapon.attack w))
    = Ok (Character.attack self) →
  Character.damage_bounds (Character.attack self) = Ok (lo, hi) →
  lo ≤ hi →
  ∃ damage self' h',
    Character.attack_target h self target n
      = Ok (self', (Character.take_damage target damage).1, h',
            (Character.take_damage target damage).2)
    ∧ randint lo hi n = Ok damage
    ∧ lo ≤ damage ≤ hi
    ∧ Character.equipped_weapon self' = None
    ∧ Character.attack self' = PyInt (Character.base_attack self)
    ∧ h' !! r = Some (Weapon.set_durability 0 w)
    ∧ Character.damage_bounds (Character.attack self')
      = Ok (Character.base_attack self - 2, Character.base_attack self + 5).
Proof.
  intros He Hr Hm Hd _ Hb Hle.
  destruct (randint lo hi n) as [damage|e] eqn:Hroll;
    [|unfold randint in Hroll; destruct (Z.ltb_spec hi lo); [lia|done]].
  pose proof (wear_breakable h self r w He Hr Hm) as Hw.
  rewrite bool_decide_eq_true_2 in Hw by lia. rewrite Hd in Hw.
  eexists damage, _, _. split; [|split; [reflexivity|split]].
  - by apply attack_target_steps with lo hi.
  - by apply randint_range with n.
  - cbn. rewrite lookup_insert_eq. done.
Qed.

Lemma breaking_attack_roll_witness :
  let worn := <[1%positive := Weapon.set_durability 1 rusty_sword]> armory in
  ∃ damage self' h',
    Character.attack_target worn (equipped_hero 1) (Enemy.char goblin) 4
      = Ok (self', (Character.take_damage (Enemy.char goblin) damage).1, h',
            (Character.take_damage (Enemy.char goblin) damage).2)
    ∧ randint 18 25 4 = Ok damage
    ∧ 18 ≤ damage ≤ 25
    ∧ Character.equipped_weapon self' = None
    ∧ Character.attack self' = PyInt 15
    ∧ h' !! 1%positive
      = Some (Weapon.set_durability 0 (Weapon.set_durability 1 rusty_sword))
    ∧ Character.damage_bounds (Character.attack self') = Ok (13, 20).
Proof.
  intros worn.
  apply (breaking_attack_roll worn (equipped_hero 1) (Enemy.char goblin) 4
           1%positive (Weapon.set_durability 1 rusty_sword) 18 25);
    first [reflexivity | lia].
Defined.

(** ** The derived attack *)

Lemma equip_derived h c r c' :
  Character.equip_weapon h c r = Ok c' → attack_derived h c'.
Proof.
  unfold Character.equip_weapon, deref. intros H.
  destruct (h !! r) as [w|] eqn:Hr; [|done]. cbn in H.
  apply bind_Ok in H as (a & Ha & [= <-]).
  unfold attack_derived; cbn. eauto.
Qed.

Lemma unequip_derived h c :
  attack_derived h c → attack_derived h (Character.unequip_weapon c).1.
Proof.
  unfold Character.unequip_weapon, attack_derived.
  destruct (Character.equipped_weapon c) as [r|] eqn:E; cbn; [done|].
  by rewrite E.
Qed.

Lemma wear_derived h c c' h' :
  Character.wear_weapon h c = Ok (c', h') →
  attack_derived h c → attack_derived h' c'.
Proof.
  unfold Character.wear_weapon, attack_derived, deref.
  destruct (Character.equipped_weapon c) as [r|] eqn:E.
  - intros H (w & Hr & Ha). rewrite Hr in H. cbn in H.
    unfold Weapon.use in H.
    destruct (0 <? Weapon.max_durability w); cbn in H;
      [destruct (Weapon.durability w - 1 <=? 0)|];
      injection H as <- <-; cbn; rewrite ?E; try done;
      eexists; (split; [apply lookup_insert_eq | done]).
  - intros [= <- <-]. by rewrite E.
Qed.

Lemma level_up_derived h c c' :
  Character.level_up h c = Ok c' → attack_derived h c'.
Proof.
  unfold Character.level_up, attack_derived, deref. cbn.
  destruct (Character.equipped_weapon c) as [r|] eqn:E; cbn.
  - destruct (h !! r) as [w|] eqn:Hr; [|done]. cbn.
    intros H. apply bind_Ok in H as (c1 & H1 & [= <-]).
    apply bind_Ok in H1 as (a & Ha & [= <-]). cbn. rewrite E. eauto.
  - intros [= <-]. cbn. by rewrite E.
Qed.

Lemma level_up_experience h self self' :
  Character.level_up h self = Ok self' →
  Character.experience self' = Character.experience self - 100.
Proof.
  unfold Character.level_up. intros H.
  destruct (Character.equipped_weapon self) as [r|] eqn:E; simpl in H;
    rewrite ?E in H; simpl in H; inv_Ok; subst; reflexivity.
Qed.

(** The [while] loop, unrolled once. *)
Lemma level_up_loop_unfold h c :
  Character.level_up_loop h c
  = if 100 <=? Character.experience c
    then Character.level_up h c ≫= Character.level_up_loop h
    else Ok c.
Proof.
  funelim (Character.level_up_loop h c);
    match goal with
    | E : (100 <=? _) = _ |- _ => rewrite E
    end; try reflexivity;
    match goal with
    | E : Character.level_up _ _ = _ |- _ => rewrite E
    end; reflexivity.
Qed.

(** Induction along the iterations of the loop. *)
Lemma level_up_loop_ind' h (P : Character.t → result Character.t → Prop) :
  (∀ c, Character.experience c < 100 → P c (Ok c)) →
  (∀ c c', 100 ≤ Character.experience c → Character.level_up h c = Ok c' →
           P c' (Character.level_up_loop h c') →
           P c (Character.level_up_loop h c')) →
  (∀ c e, 100 ≤ Character.experience c → Character.level_up h c = Raise e →
          P c (Raise e)) →
  ∀ c, P c (Character.level_up_loop h c).
Proof.
  intros Hstop Hiter Hraise c.
  remember (Z.to_nat (Character.experience c)) as m eqn:Em.
  revert c Em. induction (lt_wf m) as [m _ IH]. intros c ->.
  rewrite level_up_loop_unfold.
  destruct (Z.leb_spec 100 (Character.experience c)) as [Hge|Hlt];
    [|by apply Hstop].
  destruct (Character.level_up h c) as [c'|e] eqn:El; cbn; [|by apply Hraise].
  apply Hiter; [done..|].
  apply (IH (Z.to_nat (Character.experience c'))); [|done].
  apply level_up_experience in El. lia.
Qed.

Lemma level_up_loop_derived h c c' :
  Character.level_up_loop h c = Ok c' →
  attack_derived h c → attack_derived h c'.
Proof.
  revert c'. pattern c, (Character.level_up_loop h c).
  apply level_up_loop_ind'; clear c.
  - by intros c _ c' [= <-].
  - intros c c1 _ Hl IH c' Hloop _. apply IH; [done|].
    by eapply level_up_derived.
  - done.
Qed.

Lemma step_derived s s' :
  step s s' → attack_derived s.2 s.1 → attack_derived s'.2 s'.1.
Proof.
  destruct 1 as [c h r c' H|c h|c h d|c h a|c h target n c' target' h' dealt H
                 |c h xp c' H|c h c' H]; cbn.
  - intros _. by eapply equip_derived.
  - apply unequip_derived.
  - done.
  - done.
  - apply attack_target_Ok in H as (lo & hi & dmg & _ & _ & Hw & _).
    by eapply wear_derived.
  - intros Hd. eapply level_up_loop_derived; [exact H|done].
  - intros _. by eapply level_up_derived.
Qed.

(** C3. [attack = base_attack + equipped_weapon.attack] (or [base_attack]
    with nothing equipped) holds of a new character, is kept by each call of
    equip_weapon, unequip_weapon, take_damage, heal, attack_target,
    gain_experience and level_up, and so holds in every state reached by
    such calls. *)
Theorem attack_always_derived :
  (∀ name health attack defense h,
     attack_derived h (Character.init name health attack defense))
  ∧ (∀ c h c' h',
       attack_derived h c → step (c, h) (c', h') → attack_derived h' c')
  ∧ (∀ c h, reachable (c, h) → attack_derived h c).
Proof.
  split; [done|]. split.
  - intros c h c' h' Hd Hs. by apply (step_derived _ _ Hs).
  - intros c h Hr. remember (c, h) as s eqn:Es. revert c h Es.
    induction Hr as [name health attack defense h0|[c0 h0] s' Hr IH Hs];
      intros c h E.
    + by injection E as <- <-.
    + subst s'. apply (step_derived _ _ Hs). by apply IH.
Qed.

Lemma attack_always_derived_witness :
  reachable (equipped_hero 1, armory)
  ∧ attack_derived armory (equipped_hero 1)
  ∧ Character.attack (equipped_hero 1)
    = PyFloat (S754_finite false 5629499534213120 (-48)).
Proof.
  assert (reachable (equipped_hero 1, armory)) as Hreach.
  { apply reach_step with (hero, armory); [apply reach_init|].
    by apply step_equip with 1%positive. }
  split; [exact Hreach|]. split; [|reflexivity].
  exact (proj2 (proj2 attack_always_derived) _ _ Hreach).
Defined.

(** ** Experience and levels *)

Lemma level_up_fields h c c' :
  Character.level_up h c = Ok c' →
  Character.level c' = Character.level c + 1
  ∧ Character.experience c' = Character.experience c - 100
  ∧ Character.max_health c' = Character.max_health c + 20
  ∧ Character.health c' = Character.max_health c'
  ∧ Character.base_attack c' = Character.base_attack c + 3
  ∧ Character.defense c' = Character.defense c + 2
  ∧ Character.equipped_weapon c' = Character.equipped_weapon c
  ∧ Character.gold c' = Character.gold c.
Proof.
  unfold Character.level_up. cbn.
  destruct (Character.equipped_weapon c) as [r|] eqn:E; cbn.
  - intros H. apply bind_Ok in H as (c1 & H1 & [= <-]).
    apply bind_Ok in H1 as (w & _ & H1).
    apply bind_Ok in H1 as (a & _ & [= <-]). cbn. by rewrite E.
  - intros [= <-]. cbn. by rewrite E.
Qed.

Lemma level_up_unarmed h c :
  Character.equipped_weapon c = None → ∃ c', Character.level_up h c = Ok c'.
Proof. intros E. unfold Character.level_up. cbn. rewrite E. cbn. eauto. Qed.

Lemma level_up_loop_fields h c c' :
  Character.level_up_loop h c = Ok c' →
  let n := Z.max 0 (Character.experience c / 100) in
  Character.level c' = Character.level c + n
  ∧ Character.experience c' = Character.experience c - 100 * n
  ∧ Character.max_health c' = Character.max_health c + 20 * n
  ∧ Character.base_attack c' = Character.base_attack c + 3 * n
  ∧ Character.defense c' = Character.defense c + 2 * n
  ∧ (n = 0 → Character.health c' = Character.health c)
  ∧ (0 < n → Character.health c' = Character.max_health c').
Proof.
  cbv zeta. revert c'. pattern c, (Character.level_up_loop h c).
  apply level_up_loop_ind'; clear c.
  - intros c Hlt c' [= <-].
    assert (Character.experience c / 100 ≤ 0)
      by (apply Z.lt_succ_r, Z.div_lt_upper_bound; lia).
    rewrite Z.max_l by lia. repeat split; lia.
  - intros c c1 Hge Hl IH c' Hloop.
    destruct (IH c' Hloop) as (I1 & I2 & I3 & I4 & I5 & I6 & I7).
    apply level_up_fields in Hl as (L1 & L2 & L3 & L4 & L5 & L6 & _).
    assert (Character.experience c / 100
            = Character.experience c1 / 100 + 1) as Hdiv.
    { rewrite L2. replace (Character.experience c)
        with (Character.experience c - 100 + 1 * 100) at 1 by lia.
      by rewrite Z.div_add. }
    assert (0 ≤ Character.experience c1 / 100)
      by (apply Z.div_pos; lia).
    rewrite Hdiv. rewrite Z.max_r in * by lia.
    repeat split; lia.
  - done.
Qed.

Lemma level_up_rest h c c' :
  Character.level_up h c = Ok c' →
  Character.name c' = Character.name c
  ∧ Character.position c' = Character.position c
  ∧ Character.inventory c' = Character.inventory c
  ∧ Character.equipped_weapon c' = Character.equipped_weapon c
  ∧ Character.gold c' = Character.gold c.
Proof.
  unfold Character.level_up. cbn.
  destruct (Character.equipped_weapon c) as [r|] eqn:E; cbn.
  - intros H. apply bind_Ok in H as (c1 & H1 & [= <-]).
    apply bind_Ok in H1 as (w & _ & H1).
    apply bind_Ok in H1 as (a & _ & [= <-]). cbn. by rewrite E.
  - intros [= <-]. cbn. by rewrite E.
Qed.

Lemma level_up_loop_rest h c c' :
  Character.level_up_loop h c = Ok c' →
  Character.name c' = Character.name c
  ∧ Character.position c' = Character.position c
  ∧ Character.inventory c' = Character.inventory c
  ∧ Character.equipped_weapon c' = Character.equipped_weapon c
  ∧ Character.gold c' = Character.gold c.
Proof.
  revert c'. pattern c, (Character.level_up_loop h c).
  apply level_up_loop_ind'; clear c.
  - by intros c _ c' [= <-].
  - intros c c1 _ Hl IH c' Hloop.
    destruct (IH c' Hloop) as (-> & -> & -> & -> & ->).
    by apply level_up_rest in Hl.
  - done.
Qed.

Lemma level_up_loop_unarmed h c :
  Character.equipped_weapon c = None →
  ∃ c', Character.level_up_loop h c = Ok c'.
Proof.
  pattern c, (Character.level_up_loop h c).
  apply level_up_loop_ind'; clear c.
  - eauto.
  - intros c c1 _ Hl IH E. apply IH.
    apply level_up_fields in Hl. destruct Hl as (_&_&_&_&_&_&->&_). done.
  - intros c e _ Hl E. destruct (level_up_unarmed h c E) as [c' Hc].
    congruence.
Qed.

Lemma level_up_armed h c r w f :
  Character.equipped_weapon c = Some r → h !! r = Some w →
  float_of_int (Character.base_attack c + 3) = Ok f →
  ∃ c', Character.level_up h c = Ok c'.
Proof.
  intros E Hw Hf. unfold Character.level_up, deref. cbn. rewrite E, Hw. cbn.
  rewrite Hf. cbn. eauto.
Qed.

Lemma level_up_loop_unarmed_derived h c :
  Character.equipped_weapon c = None →
  ∃ c', Character.level_up_loop h c = Ok c'
        ∧ Character.equipped_weapon c' = None
        ∧ (100 ≤ Character.experience c → attack_derived h c').
Proof.
  pattern c, (Character.level_up_loop h c).
  apply level_up_loop_ind'; clear c.
  - intros c Hlt E. exists c. split; [done|]. split; [done|lia].
  - intros c c1 Hge Hl IH E.
    pose proof (level_up_derived _ _ _ Hl) as Hd1.
    apply level_up_fields in Hl as (_ & _ & _ & _ & _ & _ & L7 & _).
    destruct IH as (c' & Hloop & E' & _); [by rewrite L7|].
    exists c'. split; [done|]. split; [done|]. intros _.
    by eapply level_up_loop_derived.
  - intros c e _ Hl E. destruct (level_up_unarmed h c E) as [c' Hc].
    congruence.
Qed.

(** The loop returns for an armed character whose [base_attack] stays
    within the floats, and the last [level_up] leaves [attack] derived. *)
Lemma level_up_loop_armed h r w c :
  h !! r = Some w →
  Character.equipped_weapon c = Some r →
  (∀ k, 1 ≤ k ≤ Z.max 0 (Character.experience c / 100) →
        ∃ f, float_of_int (Character.base_attack c + 3 * k) = Ok f) →
  ∃ c', Character.level_up_loop h c = Ok c'
        ∧ Character.equipped_weapon c' = Some r
        ∧ (100 ≤ Character.experience c → attack_derived h c').
Proof.
  intros Hw. pattern c, (Character.level_up_loop h c).
  apply level_up_loop_ind'; clear c.
  - intros c Hlt E _. exists c. split; [done|]. split; [done|lia].
  - intros c c1 Hge Hl IH E Hfloat.
    pose proof (level_up_derived _ _ _ Hl) as Hd1.
    apply level_up_fields in Hl as (_ & L2 & _ & _ & L5 & _ & L7 & _).
    assert (Character.experience c / 100
            = Character.experience c1 / 100 + 1) as Hdiv.
    { rewrite L2. replace (Character.experience c)
        with (Character.experience c - 100 + 1 * 100) at 1 by lia.
      by rewrite Z.div_add. }
    assert (0 ≤ Character.experience c1 / 100) by (apply Z.div_pos; lia).
    destruct IH as (c' & Hloop & E' & _).
    + by rewrite L7.
    + intros k Hk. rewrite L5.
      replace (Character.base_attack c + 3 + 3 * k)
        with (Character.base_attack c + 3 * (k + 1)) by lia.
      apply Hfloat. lia.
    + exists c'. split; [done|]. split; [done|]. intros _.
      by eapply level_up_loop_derived.
  - intros c e Hge Hl E Hfloat.
    assert (1 ≤ Character.experience c / 100)
      by (apply Z.div_le_lower_bound; lia).
    destruct (Hfloat 1) as [f Hf]; [lia|].
    destruct (level_up_armed h c r w f E Hw Hf) as [c' Hc']. congruence.
Qed.

(** C5. [gain_experience(xp)] adds [xp] and then runs [level_up] while
    [experience >= 100]: [levels_gained] times in all, each run adding 1 to
    [level], 20 to [max_health] (with [health] set to it), 3 to
    [base_attack], 2 to [defense], taking 100 from [experience] and
    recomputing [attack].  The call returns: for an unarmed character
    always, and for an armed one as long as [base_attack] can be converted
    to a float at each level, and then [attack] is the new [base_attack]
    plus the weapon's bonus, the weapon staying equipped.  From level 1 with
    0 experience, [gain_experience(250)] gives level 3 and 50 experience. *)
Theorem gain_experience_levels (h : heap) (c : Character.t) (xp : Z) :
  Character.gain_experience h c xp
    = Character.level_up_loop h
        (Character.set_experience (Character.experience c + xp) c)
  ∧ (∀ c0, Character.level_up_loop h c0
           = if 100 <=? Character.experience c0
             then Character.level_up h c0 ≫= Character.level_up_loop h
             else Ok c0)
  ∧ (∀ c0 c1, Character.level_up h c0 = Ok c1 →
       Character.level c1 = Character.level c0 + 1
       ∧ Character.experience c1 = Character.experience c0 - 100
       ∧ Character.max_health c1 = Character.max_health c0 + 20
       ∧ Character.health c1 = Character.max_health c1
       ∧ Character.base_attack c1 = Character.base_attack c0 + 3
       ∧ Character.defense c1 = Character.defense c0 + 2
       ∧ attack_derived h c1)
  ∧ (∀ c', Character.gain_experience h c xp = Ok c' →
       let n := levels_gained c xp in
       Character.level c' = Character.level c + n
       ∧ Character.experience c' = Character.experience c + xp - 100 * n
       ∧ Character.experience c' < 100
       ∧ Character.max_health c' = Character.max_health c + 20 * n
       ∧ Character.base_attack c' = Character.base_attack c + 3 * n
       ∧ Character.defense c' = Character.defense c + 2 * n
       ∧ (0 < n → Character.health c' = Character.max_health c'))
  ∧ (Character.equipped_weapon c = None →
       ∃ c', Character.gain_experience h c xp = Ok c'
             ∧ Character.equipped_weapon c' = None
             ∧ (0 < levels_gained c xp →
                  Character.attack c'
                  = PyInt (Character.base_attack c + 3 * levels_gained c xp)))
  ∧ (∀ r w,
       Character.equipped_weapon c = Some r → h !! r = Some w →
       (∀ k, 1 ≤ k ≤ levels_gained c xp →
             ∃ f, float_of_int (Character.base_attack c + 3 * k) = Ok f) →
       ∃ c', Character.gain_experience h c xp = Ok c'
             ∧ Character.level c' = Character.level c + levels_gained c xp
             ∧ Character.equipped_weapon c' = Some r
             ∧ (0 < levels_gained c xp →
                  py_add
                    (PyInt (Character.base_attack c + 3 * levels_gained c xp))
                    (PyFloat (Weapon.attack w))
                  = Ok (Character.attack c')))
  ∧ (Character.level c = 1 → Character.experience c = 0 → xp = 250 →
       ∀ c', Character.gain_experience h c xp = Ok c' →
         Character.level c' = 3 ∧ Character.experience c' = 50
         ∧ levels_gained c xp = 2).
Proof.
  assert (0 < levels_gained c xp →
          100 ≤ Character.experience
                  (Character.set_experience (Character.experience c + xp) c))
    as Hpos.
  { unfold levels_gained. cbn. intros Hn.
    assert (¬ (Character.experience c + xp) / 100 < 1) as Hd by lia.
    destruct (Z.le_gt_cases 100 (Character.experience c + xp)) as [|Hlt];
      [done|].
    destruct Hd. apply Z.div_lt_upper_bound; lia. }
  split; [reflexivity|]. split; [apply level_up_loop_unfold|].
  split; [|split; [|split; [|split]]].
  - intros c0 c1 Hl. pose proof (level_up_derived _ _ _ Hl).
    apply level_up_fields in Hl as (?&?&?&?&?&?&_). repeat split; done.
  - intros c' H. unfold Character.gain_experience in H.
    apply level_up_loop_fields in H. cbn in H. unfold levels_gained.
    destruct H as (H1 & H2 & H3 & H4 & H5 & _ & H7).
    repeat split; try done.
    rewrite H2.
    pose proof (Z.mod_pos_bound (Character.experience c + xp) 100 eq_refl).
    pose proof (Z.div_mod (Character.experience c + xp) 100).
    destruct (Z.max_spec 0 ((Character.experience c + xp) / 100)) as [[? ->]|[? ->]];
      lia.
  - intros E.
    destruct (level_up_loop_unarmed_derived h
                (Character.set_experience (Character.experience c + xp) c) E)
      as (c' & Hc' & E' & Hd).
    exists c'. split; [exact Hc'|]. split; [exact E'|]. intros Hn.
    pose proof (level_up_loop_fields _ _ _ Hc') as (_ & _ & _ & Hb & _).
    cbn in Hb. fold (levels_gained c xp) in Hb.
    specialize (Hd (Hpos Hn)). unfold attack_derived in Hd. rewrite E' in Hd.
    by rewrite Hd, Hb.
  - intros r w E Hw Hfloat.
    destruct (level_up_loop_armed h r w
                (Character.set_experience (Character.experience c + xp) c)
                Hw E Hfloat) as (c' & Hc' & E' & Hd).
    exists c'. split; [exact Hc'|].
    pose proof (level_up_loop_fields _ _ _ Hc') as (Hl & _ & _ & Hb & _).
    cbn in Hl, Hb. fold (levels_gained c xp) in Hl, Hb.
    split; [exact Hl|]. split; [exact E'|]. intros Hn.
    specialize (Hd (Hpos Hn)). unfold attack_derived in Hd. rewrite E' in Hd.
    destruct Hd as (w' & Hw' & Hadd). rewrite Hw in Hw'. injection Hw' as <-.
    by rewrite <- Hb.
  - intros Hlv Hexp -> c' H. unfold Character.gain_experience in H.
    apply level_up_loop_fields in H. cbn in H. unfold levels_gained.
    rewrite Hexp in *. change (Z.max 0 ((0 + 250) / 100)) with 2 in *.
    destruct H as (H1 & H2 & _). lia.
Qed.

Lemma gain_experience_levels_witness :
  (∃ c', Character.gain_experience armory hero 250 = Ok c'
         ∧ Character.level c' = 3 ∧ Character.experience c' = 50
         ∧ levels_gained hero 250 = 2)
  ∧ Character.equipped_weapon (equipped_hero 1) = Some 1%positive
  ∧ ∃ c', Character.gain_experience armory (equipped_hero 1) 250 = Ok c'
          ∧ Character.level c' = 3
          ∧ Character.equipped_weapon c' = Some 1%positive
          ∧ py_add (PyInt 21) (PyFloat float_5) = Ok (Character.attack c').
Proof.
  split; [|split; [reflexivity|]].
  - destruct (gain_experience_levels armory hero 250)
      as (_ & _ & _ & _ & Hret & _ & H250).
    destruct (Hret eq_refl) as (c' & Hc' & _). exists c'.
    split; [exact Hc'|]. exact (H250 eq_refl eq_refl eq_refl c' Hc').
  - destruct (gain_experience_levels armory (equipped_hero 1) 250)
      as (_ & _ & _ & _ & _ & Harmed & _).
    destruct (Harmed 1%positive rusty_sword eq_refl eq_refl)
      as (c' & Hc' & Hl & He & Ha).
    + change (levels_gained (equipped_hero 1) 250) with 2. intros k Hk.
      assert (k = 1 ∨ k = 2) as [-> | ->] by lia; eexists; reflexivity.
    + exists c'. split; [exact Hc'|]. split; [exact Hl|]. split; [exact He|].
      apply Ha. reflexivity.
Defined.

(** ** Combat rounds *)

Lemma Qltb_lt (x y : Q) : Battle.Qltb x y = true ↔ (x < y)%Q.
Proof.
  unfold Battle.Qltb. rewrite negb_true_iff, <- not_true_iff_false.
  rewrite Qle_bool_iff. split; [apply Qnot_le_lt | apply Qlt_not_le].
Qed.

Lemma wear_health h c c' h' :
  Character.wear_weapon h c = Ok (c', h') →
  Character.health c' = Character.health c.
Proof.
  unfold Character.wear_weapon, deref.
  destruct (Character.equipped_weapon c) as [r|]; [|by intros [= <- <-]].
  destruct (h !! r) as [w|]; [|done]. cbn.
  destruct (Weapon.use w) as [w' []]; by intros [= <- <-].
Qed.

Lemma player_turn_log s i s1 fled :
  Battle.player_turn s i = Ok (s1, fled) →
  ∃ evs, Battle.log s1 = Battle.log s ++ evs ∧ Forall no_enemy_attack evs.
Proof.
  unfold Battle.player_turn. intros H.
  destruct (String.eqb (Battle.choice i) "1").
  { apply bind_Ok in H as ([[[p e] h] d] & _ & [= <- <-]).
    eexists [_]. split; [done|]. by repeat constructor. }
  destruct (String.eqb (Battle.choice i) "2").
  { injection H as <- <-. eexists [_]. split; [done|]. by repeat constructor. }
  destruct (String.eqb (Battle.choice i) "3").
  { destruct (Battle.Qltb _ _); injection H as <- <-;
      (eexists [_]; split; [done|]; by repeat constructor). }
  injection H as <- <-. exists []. by rewrite app_nil_r.
Qed.

Lemma attack_target_unarmed h c target n a :
  Character.attack c = PyInt a → Character.equipped_weapon c = None →
  ∃ damage,
    a - 2 ≤ damage ≤ a + 5
    ∧ Character.attack_target h c target n
      = Ok (c, (Character.take_damage target damage).1, h,
            (Character.take_damage target damage).2).
Proof.
  intros Ha Hw. exists (a - 2 + n mod 8).
  pose proof (Z.mod_pos_bound n 8). split; [lia|].
  apply attack_target_steps with (a - 2) (a + 5).
  - by rewrite Ha.
  - unfold randint. destruct (Z.ltb_spec (a + 5) (a - 2)); [lia|].
    do 3 f_equal. lia.
  - unfold Character.wear_weapon. by rewrite Hw.
Qed.

Lemma enemy_turn_Ok s i e p h d :
  Character.attack_target (Battle.store s) (Enemy.char (Battle.enemy s))
    (Battle.player s) (Battle.enemy_roll i) = Ok (e, p, h, d) →
  Battle.enemy_turn s i
  = if Character.is_alive p
    then Ok (Battle.mk p (Enemy.set_char e (Battle.enemy s)) h
               (Battle.turn s + 1)
               (Battle.log s ++ [Battle.EnemyAttacks e d]), None)
    else Ok (Battle.mk p (Enemy.set_char e (Battle.enemy s)) h (Battle.turn s)
               ((Battle.log s ++ [Battle.EnemyAttacks e d])
                  ++ [Battle.DefeatMsg]),
             Some Battle.PlayerDefeat).
Proof.
  intros H. unfold Battle.enemy_turn. rewrite H. cbn.
  by destruct (Character.is_alive p).
Qed.

Lemma round_made_alive s i s' e :
  Battle.round s i = Ok (s', e) →
  Forall made_alive (Battle.log s) → Forall made_alive (Battle.log s').
Proof.
  unfold Battle.round. intros H Hlog.
  apply bind_Ok in H as ([s1 fled] & Hp & H).
  apply player_turn_log in Hp as (evs & Hevs & Hno).
  assert (Forall made_alive (Battle.log s1)) as Hlog1.
  { rewrite Hevs. apply Forall_app. split; [done|].
    eapply Forall_impl; [exact Hno|]. by intros []. }
  destruct fled; [by injection H as <- <-|].
  destruct (Character.is_alive (Enemy.char (Battle.enemy s1))) eqn:Halive; cbn in H.
  - unfold Battle.enemy_turn in H.
    apply bind_Ok in H as ([[[en p] h] d] & Ha & H).
    assert (made_alive (Battle.EnemyAttacks en d)) as Hev.
    { apply attack_target_Ok in Ha as (lo & hi & dmg & _ & _ & Hw & _).
      apply wear_health in Hw. cbn. rewrite Hw.
      by apply Z.ltb_lt. }
    cbn in H. destruct (Character.is_alive p); injection H as <- <-; cbn;
      rewrite ?Forall_app, !Forall_singleton; done.
  - unfold Battle.victory in H. apply bind_Ok in H as (p & _ & [= <- <-]).
    cbn. rewrite Forall_app, Forall_singleton. done.
Qed.

Lemma loop_made_alive inputs : ∀ s s' e,
  Battle.loop inputs s = Ok (s', e) →
  Forall made_alive (Battle.log s) → Forall made_alive (Battle.log s').
Proof.
  induction inputs as [|i inputs IH]; intros s s' e H Hlog; cbn in H.
  - by destruct (Battle.guard s); injection H as <- <-.
  - destruct (Battle.guard s); [|by injection H as <- <-].
    apply bind_Ok in H as ([s1 [e1|]] & Hr & H).
    + injection H as <- <-. by eapply round_made_alive.
    + eapply IH; [exact H|]. by eapply round_made_alive.
Qed.

Lemma gain_experience_returns h c xp :
  can_gain h c xp → ∃ c', Character.gain_experience h c xp = Ok c'.
Proof.
  unfold can_gain, Character.gain_experience.
  destruct (Character.equipped_weapon c) as [r|] eqn:E.
  - intros [[w Hw] Hfloat].
    destruct (level_up_loop_armed h r w
                (Character.set_experience (Character.experience c + xp) c)
                Hw E Hfloat) as (c' & Hc' & _).
    by exists c'.
  - intros _. by apply level_up_loop_unarmed.
Qed.

(** What [gain_experience(xp)] and [add_gold(amount)] give: the gold grows
    by [amount], and the experience, counting 100 for each level gained, by
    [xp]. *)
Lemma rewards_received h c xp c' amount :
  Character.gain_experience h c xp = Ok c' →
  Character.gold (Character.add_gold c' amount) = Character.gold c + amount
  ∧ Character.experience (Character.add_gold c' amount)
    + 100 * (Character.level (Character.add_gold c' amount)
             - Character.level c)
    = Character.experience c + xp.
Proof.
  unfold Character.gain_experience. intros H.
  pose proof (level_up_loop_rest _ _ _ H) as (_ & _ & _ & _ & Hg).
  pose proof (level_up_loop_fields _ _ _ H) as (Hl & He & _).
  cbn in *. lia.
Qed.

Lemma wear_stats h c c' h' :
  Character.wear_weapon h c = Ok (c', h') →
  Character.gold c' = Character.gold c
  ∧ Character.experience c' = Character.experience c
  ∧ Character.level c' = Character.level c.
Proof.
  unfold Character.wear_weapon, deref.
  destruct (Character.equipped_weapon c) as [r|]; [|by intros [= <- <-]].
  destruct (h !! r) as [w|]; [|done]. cbn.
  destruct (Weapon.use w) as [w' []]; by intros [= <- <-].
Qed.

(** The player's action changes neither the player's gold, experience and
    level nor the rewards of the enemy. *)
Lemma player_turn_stats s i s1 fled :
  Battle.player_turn s i = Ok (s1, fled) →
  Character.gold (Battle.player s1) = Character.gold (Battle.player s)
  ∧ Character.experience (Battle.player s1)
    = Character.experience (Battle.player s)
  ∧ Character.level (Battle.player s1) = Character.level (Battle.player s)
  ∧ Enemy.xp_reward (Battle.enemy s1) = Enemy.xp_reward (Battle.enemy s)
  ∧ Enemy.gold_reward (Battle.enemy s1) = Enemy.gold_reward (Battle.enemy s).
Proof.
  unfold Battle.player_turn. intros H.
  destruct (String.eqb (Battle.choice i) "1").
  { apply bind_Ok in H as ([[[p e] h] d] & Ha & [= <- <-]).
    apply attack_target_Ok in Ha as (lo & hi & dmg & _ & _ & Hw & _).
    apply wear_stats in Hw as (Hgold & Hexp & Hlevel). cbn.
    by rewrite Hgold, Hexp, Hlevel. }
  destruct (String.eqb (Battle.choice i) "2"); [by injection H as <- <-|].
  destruct (String.eqb (Battle.choice i) "3"); [|by injection H as <- <-].
  destruct (Battle.Qltb _ _); by injection H as <- <-.
Qed.

(** The loop on a round that returns. *)
Lemma loop_round s i rest s' e :
  Battle.guard s = true → Battle.round s i = Ok (s', e) →
  Battle.loop (i :: rest) s
  = match e with
    | Some e => Ok (s', Some e)
    | None => Battle.loop rest s'
    end.
Proof. intros Hg Hr. cbn [Battle.loop]. by rewrite Hg, Hr. Qed.

(** C6. In a round entered with both fighters alive:
    - a successful flee ends the battle with [PlayerFled], that is with
      [False] returned and the player alive; the player, the enemy and the
      store are as before, and nothing but the flee message is logged, so
      the enemy has not acted; the loop stops there, whatever input would
      follow;
    - after a failed flee the round goes on with the enemy's attack on the
      player: it ends the battle with [PlayerDefeat] if the player is dead,
      and otherwise counts the turn and the loop goes on with the next
      round; the attack of an enemy as [Enemy] builds it (an integer attack,
      no weapon) always returns;
    - if the enemy is dead after the player's action, the round ends the
      battle with [PlayerVictory], that is with [True] returned, whatever
      input would follow; the round returns when [gain_experience] can
      recompute the attack; the player's gold has grown by the enemy's
      [gold_reward] and the player's experience, counting 100 for each level
      gained, by the enemy's [xp_reward]; the enemy is as the player's
      action left it and no enemy attack is logged in that round;
    - in a whole battle, every logged enemy attack was made by an enemy with
      positive health. *)
Theorem combat_round (s : Battle.state) (i : Battle.input) :
  Battle.guard s = true →
  (Battle.choice i = "3" → (Battle.flee_draw i < 1 # 4)%Q →
     let fled :=
       Battle.mk (Battle.player s) (Battle.enemy s) (Battle.store s)
         (Battle.turn s) (Battle.log s ++ [Battle.FleeSucceeds]) in
     Battle.round s i = Ok (fled, Some Battle.PlayerFled)
     ∧ Battle.returned Battle.PlayerFled = false
     ∧ Character.is_alive (Battle.player s) = true
     ∧ ∀ rest,
         Battle.loop (i :: rest) s = Ok (fled, Some Battle.PlayerFled))
  ∧ (Battle.choice i = "3" → ¬ (Battle.flee_draw i < 1 # 4)%Q →
       Battle.round s i
       = Battle.enemy_turn
           (Battle.mk (Battle.player s) (Battle.enemy s) (Battle.store s)
              (Battle.turn s) (Battle.log s ++ [Battle.FleeFails])) i
       ∧ (∀ e p h d,
            Character.attack_target (Battle.store s)
              (Enemy.char (Battle.enemy s)) (Battle.player s)
              (Battle.enemy_roll i) = Ok (e, p, h, d) →
            let attacked :=
              Battle.mk p (Enemy.set_char e (Battle.enemy s)) h
                (Battle.turn s + 1)
                (Battle.log s ++ [Battle.FleeFails]
                   ++ [Battle.EnemyAttacks e d]) in
            let defeated :=
              Battle.mk p (Enemy.set_char e (Battle.enemy s)) h
                (Battle.turn s)
                (Battle.log s ++ [Battle.FleeFails]
                   ++ [Battle.EnemyAttacks e d]
                   ++ [Battle.DefeatMsg]) in
            Battle.round s i
            = (if Character.is_alive p then Ok (attacked, None)
               else Ok (defeated, Some Battle.PlayerDefeat))
            ∧ ∀ rest,
                Battle.loop (i :: rest) s
                = if Character.is_alive p then Battle.loop rest attacked
                  else Ok (defeated, Some Battle.PlayerDefeat))
       ∧ (∀ a,
            Character.attack (Enemy.char (Battle.enemy s)) = PyInt a →
            Character.equipped_weapon (Enemy.char (Battle.enemy s)) = None →
            ∃ damage,
              a - 2 ≤ damage ≤ a + 5
              ∧ Character.attack_target (Battle.store s)
                  (Enemy.char (Battle.enemy s)) (Battle.player s)
                  (Battle.enemy_roll i)
                = Ok (Enemy.char (Battle.enemy s),
                      (Character.take_damage (Battle.player s) damage).1,
                      Battle.store s,
                      (Character.take_damage (Battle.player s) damage).2)))
  ∧ (∀ s1,
       Battle.player_turn s i = Ok (s1, false) →
       Character.health (Enemy.char (Battle.enemy s1)) ≤ 0 →
       Battle.round s i
       = (p ← Character.gain_experience (Battle.store s1) (Battle.player s1)
                (Enemy.xp_reward (Battle.enemy s1));
          Ok (Battle.mk
                (Character.add_gold p (Enemy.gold_reward (Battle.enemy s1)))
                (Battle.enemy s1) (Battle.store s1) (Battle.turn s1)
                (Battle.log s1 ++ [Battle.VictoryMsg]),
              Some Battle.PlayerVictory))
       ∧ (can_gain (Battle.store s1) (Battle.player s1)
            (Enemy.xp_reward (Battle.enemy s1)) →
          ∃ s', Battle.round s i = Ok (s', Some Battle.PlayerVictory))
       ∧ ∀ s' e, Battle.round s i = Ok (s', e) →
           e = Some Battle.PlayerVictory
           ∧ Battle.returned Battle.PlayerVictory = true
           ∧ (∀ rest,
                Battle.loop (i :: rest) s
                = Ok (s', Some Battle.PlayerVictory))
           ∧ Character.gold (Battle.player s')
             = Character.gold (Battle.player s)
               + Enemy.gold_reward (Battle.enemy s)
           ∧ Character.experience (Battle.player s')
             + 100 * (Character.level (Battle.player s')
                      - Character.level (Battle.player s))
             = Character.experience (Battle.player s)
               + Enemy.xp_reward (Battle.enemy s)
           ∧ Battle.enemy s' = Battle.enemy s1
           ∧ ∃ evs, Battle.log s' = Battle.log s ++ evs
                    ∧ Forall no_enemy_attack evs)
  ∧ (∀ inputs s' e,
       Battle.loop inputs s = Ok (s', e) →
       Forall made_alive (Battle.log s) →
       Forall made_alive (Battle.log s')).
Proof.
  intros Hguard.
  pose proof Hguard as Hg.
  apply andb_true_iff in Hguard as [Hp He].
  split; [|split; [|split]].
  - intros Hc Hflee fled. apply Qltb_lt in Hflee.
    assert (Battle.round s i = Ok (fled, Some Battle.PlayerFled)) as Hround.
    { unfold Battle.round, Battle.player_turn. rewrite Hc. cbn.
      rewrite Hflee. reflexivity. }
    split; [exact Hround|]. split; [done|]. split; [done|].
    intros rest. by rewrite (loop_round _ _ _ _ _ Hg Hround).
  - intros Hc Hflee.
    assert (Battle.Qltb (Battle.flee_draw i) (1 # 4) = false) as Hf.
    { apply not_true_iff_false. by rewrite Qltb_lt. }
    assert (Battle.round s i
            = Battle.enemy_turn
                (Battle.mk (Battle.player s) (Battle.enemy s) (Battle.store s)
                   (Battle.turn s) (Battle.log s ++ [Battle.FleeFails])) i)
      as Hround.
    { unfold Battle.round, Battle.player_turn. rewrite Hc. cbn.
      rewrite Hf. cbn. by rewrite He. }
    split; [done|]. split.
    + intros e p h d Ha attacked defeated.
      assert (Battle.round s i
              = (if Character.is_alive p then Ok (attacked, None)
                 else Ok (defeated, Some Battle.PlayerDefeat))) as Hr.
      { rewrite Hround. rewrite (enemy_turn_Ok _ i e p h d) by exact Ha. cbn.
        unfold attacked, defeated.
        destruct (Character.is_alive p); by rewrite <- ?app_assoc. }
      split; [exact Hr|]. intros rest.
      destruct (Character.is_alive p);
        by rewrite (loop_round _ _ _ _ _ Hg Hr).
    + intros a Ha Hw. by apply attack_target_unarmed.
  - intros s1 Hturn Hdead.
    assert (Character.is_alive (Enemy.char (Battle.enemy s1)) = false) as Hd.
    { unfold Character.is_alive. by apply Z.ltb_ge. }
    assert (Battle.round s i = Battle.victory s1) as Hround.
    { unfold Battle.round. rewrite Hturn. cbn. by rewrite Hd. }
    split; [by rewrite Hround|]. split.
    { intros Hcan. apply gain_experience_returns in Hcan as [p' Hp'].
      rewrite Hround. unfold Battle.victory. rewrite Hp'. cbn. by eexists. }
    intros s' e H. pose proof H as Hr.
    rewrite Hround in H. unfold Battle.victory in H.
    apply bind_Ok in H as (p & Hgain & [= <- <-]). split; [done|].
    split; [done|]. split.
    { intros rest. by rewrite (loop_round _ _ _ _ _ Hg Hr). }
    pose proof (player_turn_stats _ _ _ _ Hturn)
      as (Hgold & Hexp & Hlevel & Hxp & Hreward).
    pose proof (rewards_received _ _ _ _
                  (Enemy.gold_reward (Battle.enemy s1)) Hgain) as [Hg1 Hg2].
    cbn [Battle.player Battle.enemy Battle.log].
    rewrite <- Hgold, <- Hexp, <- Hlevel, <- Hxp, <- Hreward.
    split; [exact Hg1|]. split; [exact Hg2|]. split; [done|].
    apply player_turn_log in Hturn as (evs & -> & Hno).
    exists (evs ++ [Battle.VictoryMsg]). rewrite app_assoc.
    split; [done|]. apply Forall_app. split; [done|]. by repeat constructor.
  - intros inputs s' e. apply loop_made_alive.
Qed.

Lemma combat_round_witness :
  let i := Battle.mk_input "3" (1 # 10) 0 0 in
  let strike := Battle.mk_input "1" 0 7 0 in
  let weak_goblin := Enemy.init "Goblin" 10 8 2 25 15 in
  Battle.guard (Battle.mk hero goblin armory 1 []) = true
  ∧ Battle.battle armory hero goblin (i :: three_strikes)
    = Ok (Battle.mk hero goblin armory 1 [Battle.FleeSucceeds],
          Some Battle.PlayerFled)
  ∧ ∃ s', Battle.battle armory hero weak_goblin (strike :: three_strikes)
          = Ok (s', Some Battle.PlayerVictory)
          ∧ Character.gold (Battle.player s') = Character.gold hero + 15
          ∧ Character.experience (Battle.player s') = 25
          ∧ Character.level (Battle.player s') = 1
          ∧ Battle.log s' = [Battle.PlayerStrikes 18; Battle.VictoryMsg].
Proof.
  intros i strike weak_goblin. split; [reflexivity|]. split.
  - destruct (proj1 (combat_round (Battle.mk hero goblin armory 1 []) i
                       eq_refl) eq_refl eq_refl) as (_ & _ & _ & Hloop).
    exact (Hloop three_strikes).
  - destruct (proj1 (proj2 (proj2
        (combat_round (Battle.mk hero weak_goblin armory 1 []) strike
           eq_refl)))
      (Battle.mk hero
         (Enemy.set_char (Character.take_damage (Enemy.char weak_goblin) 20).1
            weak_goblin)
         armory 1 [Battle.PlayerStrikes 18]) eq_refl)
      as (_ & Hret & Hwon); [done|].
    destruct (Hret I) as [s' Hs']. exists s'.
    destruct (Hwon s' _ Hs') as (_ & _ & Hloop & Hgold & Hexp & _).
    split; [apply Hloop|]. split; [exact Hgold|].
    revert Hs'. vm_compute. intros [= <-]. done.
Defined.

(** ** The weighted draw *)

Lemma live_cons h r weapons :
  live h (r :: weapons) → is_Some (h !! r) ∧ live h weapons.
Proof.
  intros H. split; [apply H; left|]. intros r' Hr'. apply H. by right.
Qed.

Lemma get_weapons_by_rarity_tier h weapons rarity :
  live h weapons →
  WeaponManager.get_weapons_by_rarity h weapons rarity
  = Ok (tier h weapons rarity).
Proof.
  unfold WeaponManager.get_weapons_by_rarity, tier.
  induction weapons as [|r weapons IH]; intros Hlive; [done|].
  apply live_cons in Hlive as [[w Hw] Hlive]. cbn. unfold deref.
  rewrite Hw. cbn. rewrite IH by done. cbn.
  by destruct (String.eqb (Weapon.rarity w) rarity).
Qed.

Lemma tier_rarity h weapons rarity r :
  r ∈ tier h weapons rarity →
  r ∈ weapons ∧ ∃ w, h !! r = Some w ∧ Weapon.rarity w = rarity.
Proof.
  unfold tier. rewrite !list_elem_of_In, filter_In. intros [Hin Hp].
  split; [done|]. destruct (h !! r) as [w|]; [|done].
  exists w. split; [done|]. by apply String.eqb_eq.
Qed.

Lemma choices_rarity (x : Q) :
  let rarities := WeaponManager.rarity_weights.*1 in
  let weights := WeaponManager.rarity_weights.*2 in
  ∃ chosen, choices rarities weights x = Ok chosen
    ∧ ((x < 50)%Q → chosen = "Common")
    ∧ ((50 <= x)%Q → (x < 50 + 25)%Q → chosen = "Uncommon")
    ∧ ((50 + 25 <= x)%Q → (x < 50 + 25 + 15)%Q → chosen = "Rare")
    ∧ ((50 + 25 + 15 <= x)%Q → (x < 50 + 25 + 15 + 8)%Q → chosen = "Epic")
    ∧ ((50 + 25 + 15 + 8 <= x)%Q → chosen = "Legendary")
    ∧ chosen ≠ "".
Proof.
  cbv zeta. unfold choices.
  change (accumulate 0 _) with [50; 75; 90; 98; 100].
  change (_.*1) with ["Common"; "Uncommon"; "Rare"; "Epic"; "Legendary"].
  cbn.
  destruct (Qle_bool (inject_Z 50) x) eqn:E1;
    [destruct (Qle_bool (inject_Z 75) x) eqn:E2;
      [destruct (Qle_bool (inject_Z 90) x) eqn:E3;
        [destruct (Qle_bool (inject_Z 98) x) eqn:E4|]|]|];
    cbn; eexists; (split; [reflexivity|]);
    repeat match goal with
    | H : Qle_bool _ _ = true |- _ => apply Qle_bool_iff in H
    | H : Qle_bool _ _ = false |- _ =>
        apply not_true_iff_false in H; rewrite Qle_bool_iff in H;
        apply Qnot_le_lt in H
    end;
    change (inject_Z 50) with (50 : Q) in *;
    change (inject_Z 75) with (50 + 25 : Q)%Q in *;
    change (inject_Z 90) with (50 + 25 + 15 : Q)%Q in *;
    change (inject_Z 98) with (50 + 25 + 15 + 8 : Q)%Q in *.
  all: repeat split; try done; intros;
    exfalso;
    repeat match goal with
    | H : (_ < _)%Q |- _ => revert H
    | H : (_ <= _)%Q |- _ => revert H
    end; unfold Qlt, Qle; cbn; lia.
Qed.

Lemma get_random_weapon_tier h weapons rarity n :
  live h weapons → rarity ≠ "" →
  WeaponManager.get_random_weapon h weapons (Some rarity) n
  = Ok (match tier h weapons rarity with
        | [] => None
        | _ :: _ => tier h weapons rarity !! (n mod length (tier h weapons rarity))%nat
        end).
Proof.
  intros Hlive Hne. unfold WeaponManager.get_random_weapon.
  destruct rarity as [|c s]; [done|].
  rewrite get_weapons_by_rarity_tier by done. cbn.
  by destruct (tier h weapons (String c s)).
Qed.

(** C9. The draw picks the rarity by the point [x] of [random() * total]:
    Common on [[0, 50)], Uncommon on the next 25, Rare on the next 15, Epic on
    the next 8, Legendary on the last 2.  It then looks only at the weapons
    of that rarity, taken in catalogue order: each of them is returned for
    exactly one value of the draw below their number, and when there is none
    the result is [None]; a weapon that is returned has the chosen rarity. *)
Theorem weighted_draw (h : heap) (weapons : WeaponManager.t) (x : Q) (n : nat) :
  live h weapons →
  ∃ chosen,
    choices WeaponManager.rarity_weights.*1 WeaponManager.rarity_weights.*2 x
      = Ok chosen
    ∧ ((x < 50)%Q → chosen = "Common")
    ∧ ((50 <= x)%Q → (x < 50 + 25)%Q → chosen = "Uncommon")
    ∧ ((50 + 25 <= x)%Q → (x < 50 + 25 + 15)%Q → chosen = "Rare")
    ∧ ((50 + 25 + 15 <= x)%Q → (x < 50 + 25 + 15 + 8)%Q → chosen = "Epic")
    ∧ ((50 + 25 + 15 + 8 <= x)%Q → chosen = "Legendary")
    ∧ WeaponManager.get_weapons_by_rarity h weapons chosen
      = Ok (tier h weapons chosen)
    ∧ (tier h weapons chosen = [] →
         WeaponManager.get_weighted_random_weapon h weapons x n = Ok None)
    ∧ (∀ k, (k < length (tier h weapons chosen))%nat →
         WeaponManager.get_weighted_random_weapon h weapons x k
         = Ok (tier h weapons chosen !! k))
    ∧ (∀ r, WeaponManager.get_weighted_random_weapon h weapons x n
            = Ok (Some r) →
         r ∈ weapons ∧ ∃ w, h !! r = Some w ∧ Weapon.rarity w = chosen).
Proof.
  intros Hlive.
  destruct (choices_rarity x) as (chosen & Hc & H1 & H2 & H3 & H4 & H5 & Hne).
  exists chosen. repeat (split; [done|]).
  split; [by apply get_weapons_by_rarity_tier|].
  assert (∀ m, WeaponManager.get_weighted_random_weapon h weapons x m
    = Ok (match tier h weapons chosen with
          | [] => None
          | _ :: _ => tier h weapons chosen
                        !! (m mod length (tier h weapons chosen))%nat
          end)) as Hdraw.
  { intros m. unfold WeaponManager.get_weighted_random_weapon.
    rewrite Hc. cbn. by apply get_random_weapon_tier. }
  split; [|split].
  - intros Hnil. by rewrite Hdraw, Hnil.
  - intros k Hk. rewrite Hdraw.
    destruct (tier h weapons chosen) as [|r t] eqn:Et; [cbn in Hk; lia|].
    by rewrite Nat.mod_small.
  - intros r Hr. rewrite Hdraw in Hr.
    destruct (tier h weapons chosen) as [|r0 t] eqn:Et; [done|].
    injection Hr as Hr. apply list_elem_of_lookup_2 in Hr.
    rewrite <- Et in Hr. by apply tier_rarity in Hr.
Qed.

Lemma weighted_draw_witness :
  live armory catalogue
  ∧ WeaponManager.get_weighted_random_weapon armory catalogue 60 7
    = Ok (Some 2%positive)
  ∧ WeaponManager.get_weighted_random_weapon armory catalogue 99 7 = Ok None.
Proof.
  assert (live armory catalogue) as Hlive.
  { intros r Hr. apply list_elem_of_In in Hr.
    destruct Hr as [<-|[<-|[<-|[]]]]; eexists; reflexivity. }
  split; [exact Hlive|]. split; [reflexivity|].
  destruct (weighted_draw armory catalogue 99 7 Hlive)
    as (c2 & _ & _ & _ & _ & _ & Hl & _ & Hnil & _).
  apply Hnil. rewrite Hl by (unfold Qle; cbn; lia). reflexivity.
Defined.

(** ** Loading a save file *)

Lemma M_bind_Ok {A B : Type} (m : SaveManager.M A) (k : A → SaveManager.M B)
  s b s' :
  (m ≫= k) s = (Ok b, s') →
  ∃ a s1, m s = (Ok a, s1) ∧ k a s1 = (Ok b, s').
Proof.
  unfold mbind, SaveManager.M_bind. destruct (m s) as [[a|e] s1]; [eauto|done].
Qed.

Lemma M_bind_step {A B : Type} (m : SaveManager.M A) (k : A → SaveManager.M B)
  s a s1 :
  m s = (Ok a, s1) → (m ≫= k) s = k a s1.
Proof. intros H. unfold mbind, SaveManager.M_bind. by rewrite H. Qed.

Lemma lift_Ok {A : Type} (r : result A) s a s' :
  SaveManager.lift r s = (Ok a, s') → r = Ok a ∧ s' = s.
Proof. by intros [= -> ->]. Qed.

(** Splits a successful run of a monadic block into its steps. *)
Ltac inv_M :=
  repeat match goal with
  | H : (_ ≫= _) _ = (Ok _, _) |- _ =>
      let a := fresh "a" in
      let s := fresh "s" in
      let Ha := fresh "Ha" in
      apply M_bind_Ok in H; destruct H as (a & s & Ha & H)
  | H : SaveManager.lift _ _ = (Ok _, _) |- _ =>
      apply lift_Ok in H; destruct H as [H ->]
  | H : SaveManager.get_session _ = (Ok _, _) |- _ =>
      injection H as <- <-
  | H : mret _ _ = (Ok _, _) |- _ => injection H as <- <-
  end.





(** ** What a load does to the catalogue *)

Lemma get_weapon_by_name_Some h weapons name r :
  WeaponManager.get_weapon_by_name h weapons name = Ok (Some r) →
  r ∈ weapons ∧ ∃ w, h !! r = Some w ∧ lower (Weapon.name w) = lower name.
Proof.
  induction weapons as [|r0 weapons IH]; cbn; [done|].
  unfold deref. destruct (h !! r0) as [w|] eqn:Hr0; [|done]. cbn.
  destruct (String.eqb_spec (lower (Weapon.name w)) (lower name)) as [E|E].
  - intros [= <-]. split; [left|]. eauto.
  - intros H. apply IH in H as [Hin Hw]. split; [by right|done].
Qed.

Lemma assign_definition h a r :
  Weapon.set_durability 0 <$> assign h a !! r
  = Weapon.set_durability 0 <$> h !! r.
Proof.
  unfold assign. destruct (decide (a.1 = r)) as [<-|Hne].
  - rewrite lookup_alter_eq. by destruct (h !! a.1).
  - by rewrite lookup_alter_ne.
Qed.

Lemma assigns_definition assigns : ∀ h r,
  Weapon.set_durability 0 <$> foldl assign h assigns !! r
  = Weapon.set_durability 0 <$> h !! r.
Proof.
  induction assigns as [|a assigns IH]; intros h r; [done|].
  cbn. by rewrite IH, assign_definition.
Qed.

Lemma assigns_elsewhere assigns : ∀ h r,
  Forall (λ a, a.1 ≠ r) assigns → foldl assign h assigns !! r = h !! r.
Proof.
  induction assigns as [|a assigns IH]; intros h r Hne; [done|].
  apply Forall_cons in Hne as [Ha Hne]. cbn. rewrite IH by done.
  unfold assign. by rewrite lookup_alter_ne.
Qed.

Create HintDb frame_rules.

Section Frame.

Variable weapon_manager : WeaponManager.t.

Lemma assigned_refl s s' :
  SaveManager.store s' = SaveManager.store s → assigned weapon_manager s s'.
Proof. intros E. by exists []. Qed.

Lemma assigned_trans s1 s2 s3 :
  assigned weapon_manager s1 s2 → assigned weapon_manager s2 s3 → assigned weapon_manager s1 s3.
Proof.
  intros (a1 & E1 & F1) (a2 & E2 & F2). exists (a1 ++ a2).
  split; [by rewrite foldl_app, <- E1|by apply Forall_app].
Qed.

Lemma frames_bind_post {A B : Type} (Q : A → Prop) (m : SaveManager.M A)
  (k : A → SaveManager.M B) :
  (∀ s a s1, m s = (Ok a, s1) → Q a) →
  frames weapon_manager m → (∀ a, Q a → frames weapon_manager (k a)) → frames weapon_manager (m ≫= k).
Proof.
  intros HQ Hm Hk s. unfold mbind, SaveManager.M_bind.
  specialize (Hm s). destruct (m s) as [[a|e] s1] eqn:E; [|done].
  eapply assigned_trans; [exact Hm|]. eapply Hk, HQ, E.
Qed.

Lemma frames_bind {A B : Type} (m : SaveManager.M A) (k : A → SaveManager.M B) :
  frames weapon_manager m → (∀ a, frames weapon_manager (k a)) → frames weapon_manager (m ≫= k).
Proof. intros Hm Hk. apply (frames_bind_post (λ _, True)); auto. Qed.

Lemma frames_lift {A : Type} (r : result A) : frames weapon_manager (SaveManager.lift r).
Proof. intros s. by apply assigned_refl. Qed.

Lemma frames_ret {A : Type} (a : A) : frames weapon_manager (mret a).
Proof. intros s. by apply assigned_refl. Qed.

Lemma frames_get : frames weapon_manager SaveManager.get_session.
Proof. intros s. by apply assigned_refl. Qed.

Lemma frames_update_player f : frames weapon_manager (SaveManager.update_player f).
Proof. intros s. by apply assigned_refl. Qed.

Lemma frames_update_world f : frames weapon_manager (SaveManager.update_world f).
Proof. intros s. by apply assigned_refl. Qed.

Lemma frames_print m : frames weapon_manager (SaveManager.print m).
Proof. intros s. by apply assigned_refl. Qed.

Lemma frames_assign r d :
  r ∈ weapon_manager → frames weapon_manager (SaveManager.assign_durability r d).
Proof. intros Hr s. exists [(r, d)]. split; [done|]. by apply Forall_singleton. Qed.

Lemma frames_try_except {A : Type} (body : SaveManager.M A) handler :
  frames weapon_manager body → (∀ e, frames weapon_manager (handler e)) →
  frames weapon_manager (SaveManager.try_except body handler).
Proof.
  intros Hb Hh s. unfold SaveManager.try_except.
  specialize (Hb s). destruct (body s) as [[a|e] s1]; [done|].
  eapply assigned_trans; [exact Hb|apply Hh].
Qed.

Lemma find_weapon_Some name s o s1 :
  SaveManager.find_weapon weapon_manager name s = (Ok o, s1) →
  ∀ r, o = Some r → r ∈ weapon_manager.
Proof.
  unfold SaveManager.find_weapon. intros H. inv_M. intros r ->.
  by apply get_weapon_by_name_Some in H as [? _].
Qed.

Lemma frames_find name : frames weapon_manager (SaveManager.find_weapon weapon_manager name).
Proof. apply frames_bind; [apply frames_get|intros; apply frames_lift]. Qed.

Hint Resolve frames_lift frames_ret frames_get frames_update_player
  frames_update_world frames_print frames_find : frame_rules.

(** Proves [frames] of a block of binds whose steps are in the hint base. *)
Ltac frames_block :=
  repeat first
    [ solve [auto with frame_rules]
    | apply frames_bind; [solve [auto with frame_rules]|intros ?] ].

Lemma frames_load_scalars player_data :
  frames weapon_manager (SaveManager.load_scalars player_data).
Proof. unfold SaveManager.load_scalars. frames_block. Qed.

Lemma frames_load_equipped player_data :
  frames weapon_manager (SaveManager.load_equipped player_data weapon_manager).
Proof.
  unfold SaveManager.load_equipped.
  apply frames_bind; [auto with frame_rules|intros weapon_data].
  destruct (truthy weapon_data); [|auto with frame_rules].
  apply frames_bind; [auto with frame_rules|intros name].
  apply (frames_bind_post (λ o, ∀ r, o = Some r → r ∈ weapon_manager));
    [apply find_weapon_Some|auto with frame_rules|].
  intros [r|] Hr; [|auto with frame_rules].
  apply frames_bind; [auto with frame_rules|intros d].
  apply frames_bind; [apply frames_assign; auto|auto with frame_rules].
Qed.

Lemma frames_load_item item_data :
  frames weapon_manager (SaveManager.load_item item_data weapon_manager).
Proof.
  unfold SaveManager.load_item.
  apply frames_bind; [auto with frame_rules|intros [|]].
  - apply frames_bind; [auto with frame_rules|intros name].
    apply (frames_bind_post (λ o, ∀ r, o = Some r → r ∈ weapon_manager));
      [apply find_weapon_Some|auto with frame_rules|].
    intros [r|] Hr; [|auto with frame_rules].
    apply frames_bind; [auto with frame_rules|intros d].
    apply frames_bind; [apply frames_assign; auto|].
    intros _. apply frames_update_player.
  - apply frames_bind; [auto with frame_rules|intros [|]]; [|auto with frame_rules].
    apply frames_bind; [auto with frame_rules|intros v].
    apply frames_update_player.
Qed.

Lemma frames_load_items items :
  frames weapon_manager (SaveManager.load_items items weapon_manager).
Proof.
  induction items as [|item_data items IH]; cbn; [auto with frame_rules|].
  apply frames_bind; [apply frames_load_item|done].
Qed.

Lemma frames_load_game : frames weapon_manager (SaveManager.load_game weapon_manager).
Proof.
  unfold SaveManager.load_game.
  apply frames_bind; [auto with frame_rules|intros s0].
  assert (frames weapon_manager (SaveManager.load_body weapon_manager)) as Hbody.
  { unfold SaveManager.load_body.
    apply frames_bind; [auto with frame_rules|intros s1].
    apply frames_bind; [auto with frame_rules|intros save_data].
    apply frames_bind; [auto with frame_rules|intros player_data].
    apply frames_bind; [apply frames_load_scalars|intros _].
    apply frames_bind; [apply frames_load_equipped|intros _].
    apply frames_bind.
    { unfold SaveManager.load_inventory.
      apply frames_bind; [auto with frame_rules|intros _].
      apply frames_bind; [auto with frame_rules|intros items].
      apply frames_load_items. }
    intros _. apply frames_bind.
    { unfold SaveManager.load_world. frames_block. }
    intros _. frames_block. }
  destruct (SaveManager.disk s0);
    try (apply frames_try_except; [done|intros e; frames_block]).
  frames_block.
Qed.

End Frame.

(** Unfolds the plumbing of a block of [M]. *)
Ltac run_M :=
  cbv beta delta [mbind mret SaveManager.M_bind SaveManager.M_ret
    SaveManager.lift SaveManager.get_session SaveManager.find_weapon
    SaveManager.update_player SaveManager.update_world
    SaveManager.update_store SaveManager.print SaveManager.assign_durability
    SaveManager.append_item];
  cbn.

(** The equipped entry of a record, when the catalogue has its name. *)
Lemma load_equipped_resolved weapon_manager player_data weapon_data name d r s :
  subscript player_data "equipped_weapon" = Ok weapon_data →
  truthy weapon_data = true →
  subscript weapon_data "name" = Ok (JStr name) →
  subscript weapon_data "durability" = Ok (JInt d) →
  WeaponManager.get_weapon_by_name (SaveManager.store s) weapon_manager name
    = Ok (Some r) →
  SaveManager.load_equipped player_data weapon_manager s
  = (Ok (),
     SaveManager.mk
       (Character.set_equipped_weapon (Some r) (SaveManager.player s))
       (SaveManager.world s) (assign (SaveManager.store s) (r, d))
       (SaveManager.disk s) (SaveManager.out s)).
Proof.
  intros Hw Ht Hn Hd Hr. unfold SaveManager.load_equipped. run_M.
  rewrite Hw. cbn. rewrite Ht, Hn. cbn. rewrite Hr, Hd. reflexivity.
Qed.

(** A weapon entry of the saved inventory, when the catalogue has its
    name. *)
Lemma load_item_resolved weapon_manager item_data name d r s :
  contains "name" item_data = Ok true →
  subscript item_data "name" = Ok (JStr name) →
  subscript item_data "durability" = Ok (JInt d) →
  WeaponManager.get_weapon_by_name (SaveManager.store s) weapon_manager name
    = Ok (Some r) →
  SaveManager.load_item item_data weapon_manager s
  = (Ok (),
     SaveManager.mk
       (Character.set_inventory
          (Character.inventory (SaveManager.player s) ++ [WeaponItem r])
          (SaveManager.player s))
       (SaveManager.world s) (assign (SaveManager.store s) (r, d))
       (SaveManager.disk s) (SaveManager.out s)).
Proof.
  intros Hc Hn Hd Hr. unfold SaveManager.load_item. run_M.
  rewrite Hc. cbn. rewrite Hn. cbn. rewrite Hr, Hd. reflexivity.
Qed.

(** C8, as stated, fails: the catalogue holds the sword with durability 2;
    loading a save that records it with durability 1 leaves the catalogue's
    own sword at durability 1. *)
Lemma load_changes_catalogue :
  let worn := <[1%positive := Weapon.set_durability 1 rusty_sword]> armory in
  let owner :=
    Character.set_inventory [WeaponItem 1%positive] (equipped_hero 1) in
  let saved :=
    (SaveManager.save_game 7 None
       (SaveManager.mk owner empty_world worn SaveManager.Absent [])).2 in
  let loaded :=
    SaveManager.load_game catalogue
      (SaveManager.mk hero empty_world armory (SaveManager.disk saved) []) in
  ¬ catalogue_untouched catalogue
  ∧ catalogue !! 0%nat = Some 1%positive
  ∧ Weapon.durability <$> armory !! 1%positive = Some 2
  ∧ loaded.1 = Ok (Some (JInt 7))
  ∧ Weapon.durability <$> SaveManager.store loaded.2 !! 1%positive = Some 1.
Proof.
  intros worn owner saved loaded. split.
  - intros H.
    specialize (H (SaveManager.mk hero empty_world armory
                     (SaveManager.disk saved) []) 1%positive).
    assert (1%positive ∈ catalogue) as Hin by left.
    apply H in Hin. vm_compute in Hin. discriminate Hin.
  - vm_compute. repeat split; reflexivity.
Qed.

(** C8, amended. A load writes each saved durability into the catalogue's
    own weapon object, the one [get_weapon_by_name] finds, and the character
    receives a reference to that object; no new weapon is made.  Whatever
    the save file holds, a load changes no field of a stored weapon but its
    durability, and changes no weapon that is not in the catalogue. *)
Theorem load_assigns_catalogue (weapon_manager : WeaponManager.t)
  (s : SaveManager.session) :
  let s' := (SaveManager.load_game weapon_manager s).2 in
  (∀ r, Weapon.set_durability 0 <$> SaveManager.store s' !! r
        = Weapon.set_durability 0 <$> SaveManager.store s !! r)
  ∧ (∀ r, r ∉ weapon_manager →
          SaveManager.store s' !! r = SaveManager.store s !! r)
  ∧ (∀ player_data weapon_data name d r s1,
       subscript player_data "equipped_weapon" = Ok weapon_data →
       truthy weapon_data = true →
       subscript weapon_data "name" = Ok (JStr name) →
       subscript weapon_data "durability" = Ok (JInt d) →
       WeaponManager.get_weapon_by_name (SaveManager.store s1) weapon_manager
         name = Ok (Some r) →
       let s2 := (SaveManager.load_equipped player_data weapon_manager s1).2 in
       r ∈ weapon_manager
       ∧ Character.equipped_weapon (SaveManager.player s2) = Some r
       ∧ SaveManager.store s2
         = alter (Weapon.set_durability d) r (SaveManager.store s1))
  ∧ (∀ item_data name d r s1,
       contains "name" item_data = Ok true →
       subscript item_data "name" = Ok (JStr name) →
       subscript item_data "durability" = Ok (JInt d) →
       WeaponManager.get_weapon_by_name (SaveManager.store s1) weapon_manager
         name = Ok (Some r) →
       let s2 := (SaveManager.load_item item_data weapon_manager s1).2 in
       r ∈ weapon_manager
       ∧ Character.inventory (SaveManager.player s2)
         = Character.inventory (SaveManager.player s1) ++ [WeaponItem r]
       ∧ SaveManager.store s2
         = alter (Weapon.set_durability d) r (SaveManager.store s1)).
Proof.
  cbv zeta.
  destruct (frames_load_game weapon_manager s) as (assigns & -> & Hin).
  split; [|split; [|split]].
  - intros r. apply assigns_definition.
  - intros r Hr. apply assigns_elsewhere.
    eapply Forall_impl; [exact Hin|]. cbn. intros a Ha E. by rewrite E in Ha.
  - intros player_data weapon_data name d r s1 Hw Ht Hn Hd Hr.
    rewrite (load_equipped_resolved _ _ _ _ _ _ _ Hw Ht Hn Hd Hr).
    apply get_weapon_by_name_Some in Hr as [Hr _]. done.
  - intros item_data name d r s1 Hc Hn Hd Hr.
    rewrite (load_item_resolved _ _ _ _ _ _ Hc Hn Hd Hr).
    apply get_weapon_by_name_Some in Hr as [Hr _]. done.
Qed.

Lemma load_assigns_catalogue_witness :
  let worn := <[1%positive := Weapon.set_durability 1 rusty_sword]> armory in
  let owner :=
    Character.set_inventory [WeaponItem 1%positive] (equipped_hero 1) in
  let saved :=
    (SaveManager.save_game 7 None
       (SaveManager.mk owner empty_world worn SaveManager.Absent [])).2 in
  let s := SaveManager.mk hero empty_world armory (SaveManager.disk saved) [] in
  Weapon.set_durability 0
    <$> SaveManager.store (SaveManager.load_game catalogue s).2 !! 1%positive
  = Some (Weapon.set_durability 0 rusty_sword).
Proof.
  intros worn owner saved s.
  rewrite (proj1 (load_assigns_catalogue catalogue s) 1%positive).
  reflexivity.
Defined.

(** ** Saving and loading back *)

Lemma set_durability_same w : Weapon.set_durability (Weapon.durability w) w = w.
Proof. by destruct w. Qed.

Lemma same_definitions_lookup h h0 r w :
  same_definitions h h0 → h !! r = Some w →
  ∃ w0, h0 !! r = Some w0
        ∧ Weapon.name w0 = Weapon.name w
        ∧ Weapon.set_durability (Weapon.durability w) w0 = w.
Proof.
  intros Hs Hr. specialize (Hs r). rewrite Hr in Hs.
  destruct (h0 !! r) as [w0|]; [|done]. injection Hs as Hs.
  exists w0. split; [done|]. destruct w, w0.
  unfold Weapon.set_durability in *; cbn in *. by subst.
Qed.

Lemma same_definitions_assign h h0 a :
  same_definitions h h0 → same_definitions h (assign h0 a).
Proof. intros Hs r. by rewrite assign_definition. Qed.

(** The catalogue finds each of its weapons under its own name. *)
Lemma get_weapon_by_name_own h h0 weapons r w :
  catalogue_ok h weapons → same_definitions h h0 →
  r ∈ weapons → h !! r = Some w →
  WeaponManager.get_weapon_by_name h0 weapons (Weapon.name w) = Ok (Some r).
Proof.
  intros [Hlive Huniq] Hs Hr Hw.
  assert (∀ l, (∀ r', r' ∈ l → r' ∈ weapons) → r ∈ l →
    WeaponManager.get_weapon_by_name h0 l (Weapon.name w) = Ok (Some r))
    as Hgen; [|by apply Hgen].
  induction l as [|r0 l IH]; intros Hsub Hin; [by apply elem_of_nil in Hin|].
  assert (r0 ∈ weapons) as Hr0 by (apply Hsub; left).
  destruct (Hlive r0 Hr0) as [w0 Hw0].
  destruct (same_definitions_lookup h h0 r0 w0 Hs Hw0) as (w0' & Hw0' & Hn & _).
  cbn. unfold deref. rewrite Hw0'. cbn. rewrite Hn.
  destruct (String.eqb_spec (lower (Weapon.name w0)) (lower (Weapon.name w)))
    as [E|E].
  - by rewrite (Huniq r0 r w0 w Hr0 Hr Hw0 Hw E).
  - apply IH; [intros r' Hr'; apply Hsub; by right|].
    apply elem_of_cons in Hin as [->|Hin]; [|done].
    rewrite Hw in Hw0. by injection Hw0 as ->.
Qed.

Lemma same_definitions_refl h : same_definitions h h.
Proof. by intros r. Qed.

Lemma catalogue_own h weapons r :
  catalogue_ok h weapons → r ∈ weapons → own_entry h weapons r.
Proof.
  intros Hok Hr. destruct (proj1 Hok r Hr) as [w Hw]. exists w.
  split; [done|]. apply (get_weapon_by_name_own h); auto.
  apply same_definitions_refl.
Qed.

(** The search by name reads nothing but names. *)
Lemma get_weapon_by_name_same h h0 weapons name :
  same_definitions h h0 →
  WeaponManager.get_weapon_by_name h0 weapons name
  = WeaponManager.get_weapon_by_name h weapons name.
Proof.
  intros Hs. induction weapons as [|r weapons IH]; [done|].
  cbn. unfold deref. specialize (Hs r).
  destruct (h !! r) as [w|], (h0 !! r) as [w0|]; try done.
  cbn. injection Hs as Hs.
  assert (Weapon.name w0 = Weapon.name w) as ->
    by (destruct w, w0; unfold Weapon.set_durability in Hs; by simplify_eq/=).
  by rewrite IH.
Qed.

Lemma assign_restores (h h0 : heap) r w :
  same_definitions h h0 → h !! r = Some w →
  assign h0 (r, Weapon.durability w) !! r = Some w.
Proof.
  intros Hs Hr.
  destruct (same_definitions_lookup h h0 r w Hs Hr) as (w0 & Hw0 & _ & E).
  unfold assign. cbn. by rewrite lookup_alter_eq, Hw0, <- E.
Qed.

Lemma assign_agrees (h h0 : heap) r r' w' :
  h0 !! r = h !! r → h !! r' = Some w' →
  assign h0 (r', Weapon.durability w') !! r = h !! r.
Proof.
  intros Hr Hr'. unfold assign. cbn.
  destruct (decide (r' = r)) as [->|Hne].
  - rewrite lookup_alter_eq, Hr, Hr'. cbn. by rewrite set_durability_same.
  - by rewrite lookup_alter_ne.
Qed.

Lemma restores_agree h inventory : ∀ h0 r,
  same_definitions h h0 →
  h0 !! r = h !! r ∨ (WeaponItem r ∈ inventory ∧ is_Some (h !! r)) →
  foldl assign h0 (restores h inventory) !! r = h !! r.
Proof.
  induction inventory as [|i inventory IH]; intros h0 r Hs Hr.
  - destruct Hr as [Hr|[Hr _]]; [done|by apply elem_of_nil in Hr].
  - unfold restores. cbn.
    destruct i as [r'|str]; cbn.
    + destruct (h !! r') as [w'|] eqn:Hr'; cbn.
      * apply IH; [by apply same_definitions_assign|].
        destruct Hr as [Hr|[Hr Hl]].
        { left. by apply assign_agrees. }
        apply elem_of_cons in Hr as [[= ->]|Hr]; [|by right].
        left. rewrite Hr'. by apply (assign_restores h).
      * apply IH; [done|]. destruct Hr as [Hr|[Hr Hl]]; [by left|].
        apply elem_of_cons in Hr as [[= ->]|Hr]; [|by right].
        rewrite Hr' in Hl. by destruct Hl.
    + apply IH; [done|]. destruct Hr as [Hr|[Hr Hl]]; [by left|].
      apply elem_of_cons in Hr as [[=]|Hr]. by right.
Qed.

Lemma all_ok_fmap {A B : Type} (f : A → result B) (g : A → B) (l : list A) :
  (∀ x, x ∈ l → f x = Ok (g x)) → all_ok (f <$> l) = Ok (g <$> l).
Proof.
  induction l as [|x l IH]; intros H; [done|].
  cbn. rewrite H by left. cbn. rewrite IH; [done|].
  intros y Hy. apply H. by right.
Qed.

Lemma as_int_list_ints (l : list Z) : as_int_list (JList (JInt <$> l)) = Ok l.
Proof.
  unfold as_int_list. cbn. rewrite (all_ok_fmap _ (λ j, match j with JInt z => z | _ => 0 end)).
  - f_equal. induction l as [|z l IH]; [done|]. cbn. by rewrite IH.
  - intros j Hj. apply list_elem_of_fmap in Hj as (z & -> & _). done.
Qed.
Arguments as_int_list : simpl never.

Lemma build_save_data_carried h p w moves :
  (∀ r, carried p r → is_Some (h !! r)) →
  SaveManager.build_save_data h p w moves = Ok (saved_record h p w moves).
Proof.
  intros Hlive. unfold SaveManager.build_save_data, saved_record, equipped_json.
  assert (match Character.equipped_weapon p with
          | Some r => w0 ← deref h r; Ok (SaveManager.weapon_data w0)
          | None => Ok JNull
          end = Ok (equipped_json h p)) as ->.
  { unfold equipped_json, deref.
    destruct (Character.equipped_weapon p) as [r|] eqn:E; [|done].
    destruct (Hlive r) as [w0 ->]; [by left|done]. }
  cbn. rewrite (all_ok_fmap _ (item_json h)); [done|].
  intros [r|s] Hi; [|done]. cbn. unfold deref.
  destruct (Hlive r) as [w0 ->]; [by right|done].
Qed.

Lemma as_num_of_num a : as_num (of_num a) = Ok a.
Proof. by destruct a. Qed.

Lemma load_scalars_saved p moves equipped inventory_data s :
  SaveManager.load_scalars
    (SaveManager.player_data p moves equipped inventory_data) s
  = (Ok (),
     SaveManager.mk (with_scalars p (SaveManager.player s))
       (SaveManager.world s) (SaveManager.store s) (SaveManager.disk s)
       (SaveManager.out s)).
Proof.
  unfold SaveManager.load_scalars. run_M.
  rewrite as_num_of_num, as_int_list_ints. reflexivity.
Qed.

Lemma load_equipped_saved h weapons p moves inventory_data s :
  same_definitions h (SaveManager.store s) →
  (∀ r, Character.equipped_weapon p = Some r → own_entry h weapons r) →
  SaveManager.load_equipped
    (SaveManager.player_data p moves (equipped_json h p) inventory_data)
    weapons s
  = (Ok (),
     SaveManager.mk
       (Character.set_equipped_weapon (Character.equipped_weapon p)
          (SaveManager.player s))
       (SaveManager.world s)
       (foldl assign (SaveManager.store s) (restores h (equipped_items p)))
       (SaveManager.disk s) (SaveManager.out s)).
Proof.
  intros Hs Hin. unfold equipped_json, equipped_items, restores.
  destruct (Character.equipped_weapon p) as [r|] eqn:E; [|done].
  destruct (Hin r eq_refl) as (w & Hw & Hfind). rewrite Hw. cbn.
  rewrite Hw. cbn.
  apply load_equipped_resolved
    with (SaveManager.weapon_data w) (Weapon.name w); try done.
  by rewrite (get_weapon_by_name_same h).
Qed.

Lemma load_items_saved h weapons inventory : ∀ s,
  same_definitions h (SaveManager.store s) →
  (∀ r, WeaponItem r ∈ inventory → own_entry h weapons r) →
  SaveManager.load_items (item_json h <$> inventory) weapons s
  = (Ok (),
     SaveManager.mk
       (Character.set_inventory
          (Character.inventory (SaveManager.player s) ++ inventory)
          (SaveManager.player s))
       (SaveManager.world s)
       (foldl assign (SaveManager.store s) (restores h inventory))
       (SaveManager.disk s) (SaveManager.out s)).
Proof.
  induction inventory as [|i inventory IH]; intros s Hs Hin.
  - cbn. rewrite app_nil_r. by destruct s as [[] ? ? ? ?].
  - assert (∀ r, WeaponItem r ∈ inventory → own_entry h weapons r) as Hin'
      by (intros r Hr; apply Hin; by right).
    cbn [fmap list_fmap SaveManager.load_items].
    destruct i as [r|str].
    + destruct (Hin r) as (w & Hw & Hfind); [left|].
      erewrite M_bind_step; cycle 1.
      { cbn. rewrite Hw.
        apply (load_item_resolved weapons _ (Weapon.name w)
                 (Weapon.durability w) r); try done.
        by rewrite (get_weapon_by_name_same h). }
      rewrite IH; [|by apply same_definitions_assign|done].
      cbn. rewrite <- app_assoc. unfold restores. cbn. rewrite Hw. done.
    + erewrite M_bind_step; cycle 1.
      { cbn. unfold SaveManager.load_item. run_M. reflexivity. }
      rewrite IH; [|done..]. cbn. by rewrite <- app_assoc.
Qed.

Lemma load_world_saved h p w moves s :
  SaveManager.load_world (saved_record h p w moves) s
  = (Ok (),
     SaveManager.mk (SaveManager.player s)
       (World.set_discovered (World.discovered w) (SaveManager.world s))
       (SaveManager.store s) (SaveManager.disk s) (SaveManager.out s)).
Proof.
  unfold SaveManager.load_world. run_M.
  rewrite (all_ok_fmap _ (λ j, match as_int_list j with Ok l => l | _ => [] end)).
  - cbn. rewrite <- list_fmap_compose.
    erewrite list_fmap_ext;
      [rewrite list_fmap_id, list_to_set_elements_L; reflexivity|].
    intros i pos _. cbn. by rewrite as_int_list_ints.
  - intros j Hj. apply list_elem_of_fmap in Hj as (pos & -> & _).
    by rewrite as_int_list_ints.
Qed.

Lemma same_definitions_assigns h h0 assigns :
  same_definitions h h0 → same_definitions h (foldl assign h0 assigns).
Proof. intros Hs r. by rewrite assigns_definition. Qed.


Lemma loaded_carried h weapons p w s r :
  same_definitions h (SaveManager.store s) →
  (∀ r, carried p r → own_entry h weapons r) →
  carried p r →
  SaveManager.store (loaded h p w s) !! r = h !! r.
Proof.
  intros Hs Hin Hr. cbn.
  assert (is_Some (h !! r)) as Hlive
    by (destruct (Hin r Hr) as (w0 & -> & _); by eexists).
  apply restores_agree; [by apply same_definitions_assigns|].
  destruct Hr as [Hr|Hr]; [left|by right].
  apply restores_agree; [done|]. right. split; [|done].
  unfold equipped_items. rewrite Hr. by left.
Qed.



Lemma catalogue_live (h : heap) :
  (∀ r, r ∈ catalogue → is_Some (h !! r)) ↔
  is_Some (h !! 1%positive) ∧ is_Some (h !! 2%positive)
  ∧ is_Some (h !! 3%positive).
Proof.
  unfold catalogue. split.
  - intros H. repeat split; apply H; repeat constructor.
  - intros (H1 & H2 & H3) r Hr. apply list_elem_of_In in Hr.
    by destruct Hr as [<-|[<-|[<-|[]]]].
Qed.

Lemma worn_armory_ok : catalogue_ok worn_armory catalogue.
Proof.
  split.
  - refine (proj2 (catalogue_live worn_armory) _).
    repeat split; eexists; reflexivity.
  - intros r1 r2 w1 w2 H1 H2. apply list_elem_of_In in H1, H2.
    destruct H1 as [<-|[<-|[<-|[]]]]; destruct H2 as [<-|[<-|[<-|[]]]];
      intros [= <-] [= <-]; try reflexivity; vm_compute; discriminate.
Qed.

Lemma worn_armory_ascii : ascii_names worn_armory catalogue.
Proof.
  intros r w Hr. apply list_elem_of_In in Hr.
  destruct Hr as [<-|[<-|[<-|[]]]]; intros [= <-]; reflexivity.
Qed.

Lemma worn_armory_definitions : same_definitions worn_armory armory.
Proof.
  intros r. unfold worn_armory. destruct (decide (r = 1%positive)) as [->|Hne].
  - reflexivity.
  - by rewrite lookup_insert_ne.
Qed.


(** * Further properties *)

(** ** Equipping *)

(** X1. Equipping a weapon and unequipping it gives back the weapon and a
    character that differs from the one before only by holding nothing and
    having [attack = base_attack]; it is the character before when that one
    was unarmed with its attack derived.  Bonuses do not add up: equipping a
    second weapon gives what equipping it at once gives.  Unequipping with
    nothing equipped returns [None] and changes nothing. *)
Theorem equip_unequip (h : heap) (c c1 : Character.t) (r : loc) :
  Character.equip_weapon h c r = Ok c1 →
  Character.equipped_weapon c1 = Some r
  ∧ Character.unequip_weapon c1
    = (Character.set_attack (PyInt (Character.base_attack c))
         (Character.set_equipped_weapon None c), Some r)
  ∧ (Character.equipped_weapon c = None → attack_derived h c →
       (Character.unequip_weapon c1).1 = c
       ∧ Character.unequip_weapon c = (c, None))
  ∧ (∀ r2, Character.equip_weapon h c1 r2 = Character.equip_weapon h c r2).
Proof.
  unfold Character.equip_weapon. intros H.
  apply bind_Ok in H as (w & Hw & H). apply bind_Ok in H as (a & Ha & [= <-]).
  split; [done|]. split; [done|]. split.
  - intros He Hd. unfold attack_derived in Hd. rewrite He in Hd.
    unfold Character.unequip_weapon. rewrite He. cbn.
    split; [|done]. destruct c; cbn in *. by subst.
  - intros r2. by destruct (deref h r2).
Qed.

Lemma equip_unequip_witness :
  Character.equip_weapon armory hero 1 = Ok (equipped_hero 1)
  ∧ (Character.unequip_weapon (equipped_hero 1)).1 = hero
  ∧ Character.equip_weapon armory (equipped_hero 1) 2
    = Character.equip_weapon armory hero 2.
Proof.
  assert (Character.equip_weapon armory hero 1 = Ok (equipped_hero 1)) as H
    by reflexivity.
  destruct (equip_unequip armory hero (equipped_hero 1) 1%positive H)
    as (_ & _ & Hback & Hstack).
  split; [exact H|]. split; [|exact (Hstack 2%positive)].
  exact (proj1 (Hback eq_refl eq_refl)).
Defined.

(** ** A broken weapon *)

(** X2. [equip_weapon] does not look at the durability, and [use] does not
    stop at 0: a broken weapon (durability 0 or less) can be equipped again;
    the next attack is rolled with its bonus, breaks it again and leaves its
    durability one lower, below 0. *)
Theorem broken_weapon_again (h : heap) (c c1 target : Character.t) (r : loc)
  (w : Weapon.t) (n lo hi : Z) :
  h !! r = Some w →
  0 < Weapon.max_durability w →
  Weapon.durability w ≤ 0 →
  Character.equip_weapon h c r = Ok c1 →
  Character.damage_bounds (Character.attack c1) = Ok (lo, hi) →
  lo ≤ hi →
  py_add (PyInt (Character.base_attack c)) (PyFloat (Weapon.attack w))
    = Ok (Character.attack c1)
  ∧ ∃ damage c2 h2,
      Character.attack_target h c1 target n
      = Ok (c2, (Character.take_damage target damage).1, h2,
            (Character.take_damage target damage).2)
      ∧ lo ≤ damage ≤ hi
      ∧ Character.equipped_weapon c2 = None
      ∧ Character.attack c2 = PyInt (Character.base_attack c)
      ∧ h2 !! r = Some (Weapon.set_durability (Weapon.durability w - 1) w)
      ∧ Weapon.durability w - 1 < 0.
Proof.
  intros Hr Hm Hd He Hb Hle.
  assert (Character.equipped_weapon c1 = Some r
          ∧ Character.base_attack c1 = Character.base_attack c
          ∧ py_add (PyInt (Character.base_attack c)) (PyFloat (Weapon.attack w))
            = Ok (Character.attack c1)) as (He1 & Hbase & Hadd).
  { unfold Character.equip_weapon, deref in He. rewrite Hr in He. cbn in He.
    apply bind_Ok in He as (a & Ha & [= <-]). done. }
  split; [done|].
  destruct (randint lo hi n) as [damage|e] eqn:Hroll;
    [|unfold randint in Hroll; destruct (Z.ltb_spec hi lo); [lia|done]].
  pose proof (wear_breakable h c1 r w He1 Hr Hm) as Hw.
  rewrite bool_decide_eq_true_2 in Hw by lia.
  eexists damage, _, _. split; [by apply attack_target_steps with lo hi|].
  split; [by apply randint_range with n|]. cbn. rewrite Hbase.
  repeat split; [by rewrite lookup_insert_eq|lia].
Qed.

Lemma broken_weapon_again_witness :
  let broken := <[1%positive := Weapon.set_durability 0 rusty_sword]> armory in
  ∃ damage c2 h2,
    Character.attack_target broken (equipped_hero 1) (Enemy.char goblin) 4
    = Ok (c2, (Character.take_damage (Enemy.char goblin) damage).1, h2,
          (Character.take_damage (Enemy.char goblin) damage).2)
    ∧ 18 ≤ damage ≤ 25
    ∧ Character.equipped_weapon c2 = None
    ∧ Weapon.durability <$> h2 !! 1%positive = Some (-1).
Proof.
  intros broken.
  destruct (broken_weapon_again broken hero (equipped_hero 1)
              (Enemy.char goblin) 1%positive
              (Weapon.set_durability 0 rusty_sword) 4 18 25)
    as (_ & damage & c2 & h2 & Ha & Hd & He & _ & Hh & _);
    try reflexivity; try lia.
  exists damage, c2, h2. repeat split; try done; try lia.
  by rewrite Hh.
Defined.

(** ** Repair *)

(** X3. [repair()] sets the durability to [max_durability]; [repair(amount)]
    never leaves it above [max_durability], and with an amount that is not
    negative never lowers a durability that was within it.  Repairing by one
    point undoes one [use] of a breakable weapon. *)
Theorem repair_restores (w : Weapon.t) :
  Weapon.durability (Weapon.repair w None) = Weapon.max_durability w
  ∧ (∀ a, Weapon.durability (Weapon.repair w (Some a)) ≤ Weapon.max_durability w)
  ∧ (∀ a, 0 ≤ a → Weapon.durability w ≤ Weapon.max_durability w →
          Weapon.durability w ≤ Weapon.durability (Weapon.repair w (Some a)))
  ∧ (∀ o, Weapon.set_durability 0 (Weapon.repair w o) = Weapon.set_durability 0 w)
  ∧ (0 < Weapon.max_durability w →
     Weapon.durability w ≤ Weapon.max_durability w →
     Weapon.repair (Weapon.use w).1 (Some 1) = w).
Proof.
  unfold Weapon.repair. cbn. split; [done|]. split; [intros; lia|].
  split; [intros; lia|]. split; [by intros [a|]|].
  intros Hm Hd. rewrite use_breakable by done. cbn.
  replace (Weapon.durability w - 1 + 1) with (Weapon.durability w) by lia.
  rewrite Z.min_r by lia. by destruct w.
Qed.

(** ** The ranges of the data model *)

Lemma wear_weapon_cases h c c' h' :
  Character.wear_weapon h c = Ok (c', h') →
  c' = c
  ∨ c' = Character.set_attack (PyInt (Character.base_attack c))
           (Character.set_equipped_weapon None c).
Proof.
  unfold Character.wear_weapon, deref.
  destruct (Character.equipped_weapon c) as [r|]; [|intros [= <- <-]; by left].
  destruct (h !! r) as [w|]; [|done]. cbn.
  destruct (Weapon.use w) as [w' []]; intros [= <- <-]; [by right|by left].
Qed.

Lemma take_damage_in_range c d :
  in_range c → in_range (Character.take_damage c d).1.
Proof. unfold in_range, Character.take_damage. cbn. lia. Qed.

Lemma heal_in_range c a :
  0 ≤ a → in_range c → in_range (Character.heal c a).
Proof. unfold in_range, Character.heal. cbn. lia. Qed.

Lemma wear_in_range h c c' h' :
  Character.wear_weapon h c = Ok (c', h') → in_range c → in_range c'.
Proof. intros H Hc. by apply wear_weapon_cases in H as [->| ->]. Qed.

Lemma gain_experience_in_range h c xp c' :
  0 ≤ xp → Character.gain_experience h c xp = Ok c' →
  in_range c → in_range c'.
Proof.
  unfold Character.gain_experience. intros Hxp H (Hh & Hl & He & Hg).
  pose proof (level_up_loop_rest _ _ _ H) as (_ & _ & _ & _ & Hgold).
  apply level_up_loop_fields in H. cbn in H.
  destruct H as (H1 & H2 & H3 & _ & _ & H6 & H7).
  pose proof (Z.mod_pos_bound (Character.experience c + xp) 100 eq_refl).
  pose proof (Z.div_mod (Character.experience c + xp) 100).
  assert (0 ≤ (Character.experience c + xp) / 100) by (apply Z.div_pos; lia).
  rewrite Z.max_r in * by lia. unfold in_range. cbn in Hgold.
  destruct (Z.eq_dec ((Character.experience c + xp) / 100) 0) as [E|E].
  - rewrite E in *. rewrite H6 by done. lia.
  - rewrite H7 by lia. lia.
Qed.

(** X4. A character whose health lies between 0 and [max_health], whose level
    is at least 1, whose experience lies between 0 and 99 and whose gold is
    not negative stays so under [take_damage] with any damage, [heal] and
    [add_gold] with an amount that is not negative, [equip_weapon],
    [unequip_weapon], [attack_target] (as attacker and as target) and
    [gain_experience] with experience that is not negative.  [heal] has no
    lower clamp: an amount below minus the health leaves the health negative. *)
Theorem ranges_kept (h : heap) (c : Character.t) :
  in_range c →
  (∀ d, in_range (Character.take_damage c d).1)
  ∧ (∀ a, 0 ≤ a → in_range (Character.heal c a))
  ∧ (∀ a, Character.health c + a < 0 →
          Character.health (Character.heal c a) < 0)
  ∧ (∀ a, 0 ≤ a → in_range (Character.add_gold c a))
  ∧ (∀ r c', Character.equip_weapon h c r = Ok c' → in_range c')
  ∧ in_range (Character.unequip_weapon c).1
  ∧ (∀ target n c' target' h' dealt,
       Character.attack_target h c target n = Ok (c', target', h', dealt) →
       in_range c' ∧ (in_range target → in_range target'))
  ∧ (∀ xp c', 0 ≤ xp → Character.gain_experience h c xp = Ok c' →
       in_range c').
Proof.
  intros Hc. split; [intros d; by apply take_damage_in_range|].
  split; [intros a Ha; by apply heal_in_range|].
  split; [unfold Character.heal; cbn; lia|].
  split; [unfold in_range, Character.add_gold in *; cbn; lia|].
  split.
  { intros r c' H. unfold Character.equip_weapon in H.
    apply bind_Ok in H as (w & _ & H). apply bind_Ok in H as (a & _ & [= <-]).
    done. }
  split.
  { unfold Character.unequip_weapon.
    by destruct (Character.equipped_weapon c). }
  split.
  - intros target n c' target' h' dealt H.
    apply attack_target_Ok in H as (lo & hi & damage & _ & _ & Hw & Ht).
    split; [by eapply wear_in_range|].
    intros Htarget. replace target' with (Character.take_damage target damage).1
      by (by rewrite Ht).
    by apply take_damage_in_range.
  - intros xp c' Hxp H. by eapply gain_experience_in_range.
Qed.

Lemma ranges_kept_witness :
  in_range (Character.take_damage hero 1000).1
  ∧ in_range (Character.heal hero 30)
  ∧ Character.health (Character.heal hero (-101)) < 0.
Proof.
  assert (in_range hero) as Hc by (unfold in_range; cbn; lia).
  destruct (ranges_kept armory hero Hc) as (Hd & Hh & Hneg & _).
  split; [exact (Hd 1000)|]. split; [apply Hh; lia|]. apply Hneg. cbn. lia.
Defined.

(** ** How a battle ends *)








(** ** What a battle leaves alone *)

Lemma set_health_same c : Character.set_health (Character.health c) c = c.
Proof. by destruct c. Qed.

Lemma leaves_alone_refl s : leaves_alone s s.
Proof.
  unfold leaves_alone. split; [done|]. split; [apply same_definitions_refl|].
  split; [done|]. split; [done|]. split; [done|]. split; [by left|].
  split; [|lia]. rewrite set_health_same. by destruct (Battle.enemy s).
Qed.

Lemma leaves_alone_trans s1 s2 s3 :
  leaves_alone s1 s2 → leaves_alone s2 s3 → leaves_alone s1 s3.
Proof.
  intros (A1 & A2 & A3 & A4 & A5 & A6 & A7 & A8)
         (B1 & B2 & B3 & B4 & B5 & B6 & B7 & B8).
  unfold leaves_alone. split; [|split; [|split; [|split; [|split; [|split; [|split]]]]]].
  - intros r Hr. rewrite B1, A1; [done..|].
    destruct A6 as [-> | ->]; done.
  - intros r. by rewrite B2, A2.
  - by rewrite B3.
  - by rewrite B4.
  - by rewrite B5.
  - destruct B6 as [-> | ->]; [done|by right].
  - rewrite B7 at 1. rewrite A7 at 1 2. reflexivity.
  - lia.
Qed.

Lemma use_definition w :
  Weapon.set_durability 0 (Weapon.use w).1 = Weapon.set_durability 0 w.
Proof.
  unfold Weapon.use. destruct (0 <? Weapon.max_durability w); [|done].
  cbn. by destruct (Weapon.durability w - 1 <=? 0).
Qed.

Lemma wear_weapon_frame h c c' h' :
  Character.wear_weapon h c = Ok (c', h') →
  (∀ r, Character.equipped_weapon c ≠ Some r → h' !! r = h !! r)
  ∧ same_definitions h h'.
Proof.
  unfold Character.wear_weapon, deref.
  destruct (Character.equipped_weapon c) as [r|];
    [|intros [= <- <-]; split; [done|apply same_definitions_refl]].
  destruct (h !! r) as [w|] eqn:Hr; [|done]. cbn.
  pose proof (use_definition w) as Hdef.
  destruct (Weapon.use w) as [w' broke]. cbn in Hdef.
  assert (h' = <[r:=w']> h → (∀ r0, Some r ≠ Some r0 → h' !! r0 = h !! r0)
          ∧ same_definitions h h') as Hgen.
  { intros ->. split.
    - intros r0 Hne. rewrite lookup_insert_ne; [done|congruence].
    - intros r0. destruct (decide (r = r0)) as [<-|Hne].
      + by rewrite lookup_insert_eq, Hr; cbn; rewrite Hdef.
      + by rewrite lookup_insert_ne. }
  destruct broke; intros [= <- <-]; by apply Hgen.
Qed.

Lemma take_damage_only_health c d :
  (Character.take_damage c d).1
  = Character.set_health (Character.health (Character.take_damage c d).1) c
  ∧ Character.health (Character.take_damage c d).1
    ≤ Z.max 0 (Character.health c).
Proof. unfold Character.take_damage. cbn. split; [done|lia]. Qed.

Lemma wear_unarmed h c :
  Character.equipped_weapon c = None → Character.wear_weapon h c = Ok (c, h).
Proof. intros E. unfold Character.wear_weapon. by rewrite E. Qed.

Lemma player_turn_leaves_alone s i s1 fled :
  Battle.player_turn s i = Ok (s1, fled) → leaves_alone s s1.
Proof.
  unfold Battle.player_turn. intros H.
  destruct (String.eqb (Battle.choice i) "1").
  { apply bind_Ok in H as ([[[p e] h] d] & Ha & [= <- <-]).
    apply attack_target_Ok in Ha as (lo & hi & dmg & _ & _ & Hw & Ht).
    pose proof (wear_weapon_frame _ _ _ _ Hw) as [Hother Hdef].
    pose proof (take_damage_only_health (Enemy.char (Battle.enemy s)) dmg)
      as [Honly Hle].
    rewrite Ht in Honly, Hle. cbn in Honly, Hle.
    unfold leaves_alone. cbn.
    split; [done|]. split; [done|].
    apply wear_weapon_cases in Hw as [-> | ->]; cbn;
      repeat split; try done; try (by left); try (by right);
      by rewrite <- Honly. }
  assert (∀ p l, leaves_alone s
            (Battle.mk p (Battle.enemy s) (Battle.store s) (Battle.turn s) l)
          ↔ leaves_alone s
              (Battle.mk p (Battle.enemy s) (Battle.store s) (Battle.turn s)
                 (Battle.log s))) as Hlog by done.
  destruct (String.eqb (Battle.choice i) "2").
  { injection H as <- <-.
    pose proof (leaves_alone_refl s) as (A1 & A2 & A3 & A4 & A5 & A6 & A7 & A8).
    unfold leaves_alone. cbn. repeat split; try done; by left. }
  destruct (String.eqb (Battle.choice i) "3").
  { pose proof (leaves_alone_refl s) as (A1 & A2 & A3 & A4 & A5 & A6 & A7 & A8).
    destruct (Battle.Qltb _ _); injection H as <- <-;
      unfold leaves_alone; cbn; repeat split; try done; by left. }
  injection H as <- <-. apply leaves_alone_refl.
Qed.

Lemma enemy_turn_leaves_alone s i s' e :
  Character.equipped_weapon (Enemy.char (Battle.enemy s)) = None →
  Battle.enemy_turn s i = Ok (s', e) → leaves_alone s s'.
Proof.
  intros Hunarmed H.
  destruct (Character.attack_target (Battle.store s)
              (Enemy.char (Battle.enemy s)) (Battle.player s)
              (Battle.enemy_roll i)) as [[[[en p] h] d]|err] eqn:Ha;
    [|unfold Battle.enemy_turn in H; by rewrite Ha in H].
  rewrite (enemy_turn_Ok s i en p h d Ha) in H.
  apply attack_target_Ok in Ha as (lo & hi & dmg & _ & _ & Hw & Ht).
  rewrite wear_unarmed in Hw by done. injection Hw as <- <-.
  pose proof (take_damage_only_health (Battle.player s) dmg) as [Honly _].
  rewrite Ht in Honly. cbn in Honly.
  pose proof (leaves_alone_refl s) as (A1 & A2 & A3 & A4 & A5 & A6 & A7 & A8).
  destruct (Character.is_alive p); injection H as <- <-;
    unfold leaves_alone; cbn; rewrite Honly; cbn;
    repeat split; try done; try (by left);
    rewrite set_health_same; by destruct (Battle.enemy s).
Qed.

Lemma victory_leaves_alone s s' e :
  Battle.victory s = Ok (s', e) → leaves_alone s s'.
Proof.
  unfold Battle.victory. intros H.
  apply bind_Ok in H as (p & Hxp & [= <- <-]).
  unfold Character.gain_experience in Hxp.
  apply level_up_loop_rest in Hxp as (Hn & Hpos & Hinv & Heq & _).
  cbn in Hn, Hpos, Hinv, Heq.
  pose proof (leaves_alone_refl s) as (A1 & A2 & A3 & A4 & A5 & A6 & A7 & A8).
  unfold leaves_alone. cbn. repeat split; try done; by left.
Qed.

Lemma round_leaves_alone s i s' e :
  Character.equipped_weapon (Enemy.char (Battle.enemy s)) = None →
  Battle.round s i = Ok (s', e) → leaves_alone s s'.
Proof.
  unfold Battle.round. intros Hunarmed H.
  apply bind_Ok in H as ([s1 fled] & Hturn & H).
  apply player_turn_leaves_alone in Hturn.
  destruct fled; [by injection H as <- <-|].
  apply leaves_alone_trans with s1; [done|].
  destruct (negb _).
  - by eapply victory_leaves_alone.
  - eapply enemy_turn_leaves_alone; [|done].
    destruct Hturn as (_ & _ & _ & _ & _ & _ & -> & _). done.
Qed.

Lemma loop_leaves_alone inputs : ∀ s s' e,
  Character.equipped_weapon (Enemy.char (Battle.enemy s)) = None →
  Battle.loop inputs s = Ok (s', e) → leaves_alone s s'.
Proof.
  induction inputs as [|i inputs IH]; intros s s' e Hunarmed H; cbn in H.
  - destruct (Battle.guard s); injection H as <- <-; apply leaves_alone_refl.
  - destruct (Battle.guard s);
      [|injection H as <- <-; apply leaves_alone_refl].
    apply bind_Ok in H as ([s1 [e1|]] & Hr & H);
      apply round_leaves_alone in Hr; try done.
    + by injection H as <- <-.
    + apply leaves_alone_trans with s1; [done|]. eapply IH; [|done].
      destruct Hr as (_ & _ & _ & _ & _ & _ & -> & _). done.
Qed.

(** X6. A battle against an enemy that holds no weapon, as every [Enemy] is
    built, touches the store only at the weapon the player had equipped, and
    changes nothing of any weapon but its durability.  The player's
    inventory is as before, so a weapon that broke is still in it; the
    player holds the weapon it had or, once that broke, none.  The enemy
    changes in nothing but its health, which does not rise (a health below
    0 aside, which a hit sets to 0), and keeps its rewards. *)
Theorem battle_leaves_alone (h : heap) (player : Character.t) (enemy : Enemy.t)
  (inputs : list Battle.input) (s' : Battle.state) (e : option Battle.exit) :
  Character.equipped_weapon (Enemy.char enemy) = None →
  Battle.battle h player enemy inputs = Ok (s', e) →
  (∀ r, Character.equipped_weapon player ≠ Some r → Battle.store s' !! r = h !! r)
  ∧ same_definitions h (Battle.store s')
  ∧ Character.inventory (Battle.player s') = Character.inventory player
  ∧ (Character.equipped_weapon (Battle.player s')
       = Character.equipped_weapon player
     ∨ Character.equipped_weapon (Battle.player s') = None)
  ∧ Enemy.char (Battle.enemy s')
    = Character.set_health (Character.health (Enemy.char (Battle.enemy s')))
        (Enemy.char enemy)
  ∧ Character.health (Enemy.char (Battle.enemy s'))
    ≤ Z.max 0 (Character.health (Enemy.char enemy))
  ∧ Enemy.xp_reward (Battle.enemy s') = Enemy.xp_reward enemy
  ∧ Enemy.gold_reward (Battle.enemy s') = Enemy.gold_reward enemy.
Proof.
  intros Hunarmed H. unfold Battle.battle in H.
  apply loop_leaves_alone in H; [|done].
  destruct H as (A1 & A2 & A3 & _ & _ & A6 & A7 & A8). cbn in *.
  repeat split; try done; by rewrite A7.
Qed.

Lemma battle_leaves_alone_witness :
  ∃ s' e, Battle.battle armory (equipped_hero 1) goblin three_strikes
          = Ok (s', e)
          ∧ Battle.store s' !! 2%positive = Some oak_staff
          ∧ Character.inventory (Battle.player s') = [].
Proof.
  destruct (Battle.battle armory (equipped_hero 1) goblin three_strikes)
    as [[s' e]|err] eqn:H; [|by vm_compute in H].
  exists s', e. split; [done|].
  destruct (battle_leaves_alone armory (equipped_hero 1) goblin three_strikes
              s' e eq_refl H) as (Hother & _ & Hinv & _).
  split; [|exact Hinv]. by rewrite Hother.
Defined.

(** ** The damage of an attack *)

Lemma randint_total lo hi n :
  lo ≤ hi → ∃ damage, randint lo hi n = Ok damage ∧ lo ≤ damage ≤ hi.
Proof.
  intros Hle. unfold randint. destruct (Z.ltb_spec hi lo); [lia|].
  eexists. split; [done|]. pose proof (Z.mod_pos_bound n (hi - lo + 1)). lia.
Qed.

(** X7. An attacker whose [attack] gives [randint] the bounds [lo ≤ hi]
    ([attack - 2] and [attack + 5] for an integer attack) deals
    [max(0, damage - defense)] for a [damage] between the bounds, and leaves
    the target's health at [max(0, health - dealt)] with nothing else
    changed.  Every damage between the bounds is dealt for some draw.  When
    the upper bound does not exceed the target's defense, no attack changes
    the target. *)
Theorem damage_window (h : heap) (c target : Character.t) (lo hi : Z) :
  Character.damage_bounds (Character.attack c) = Ok (lo, hi) →
  lo ≤ hi →
  armed_ok h c →
  let f := Character.defense target in
  (∀ a, Character.attack c = PyInt a → lo = a - 2 ∧ hi = a + 5)
  ∧ (∀ n, ∃ c' h' damage,
       lo ≤ damage ≤ hi
       ∧ Character.attack_target h c target n
         = Ok (c',
               Character.set_health
                 (Z.max 0 (Character.health target - Z.max 0 (damage - f)))
                 target,
               h', Z.max 0 (damage - f)))
  ∧ (∀ damage, lo ≤ damage ≤ hi →
       ∃ n c' target' h',
         Character.attack_target h c target n
         = Ok (c', target', h', Z.max 0 (damage - f)))
  ∧ (hi ≤ f → 0 ≤ Character.health target →
       ∀ n c' target' h' dealt,
         Character.attack_target h c target n = Ok (c', target', h', dealt) →
         target' = target ∧ dealt = 0).
Proof.
  intros Hb Hle Harmed f.
  destruct (wear_weapon_returns h c Harmed) as (c' & h' & Hw & _);
    [by exists lo, hi|].
  split; [|split; [|split]].
  - intros a Ha. rewrite Ha in Hb. cbn in Hb. by injection Hb as <- <-.
  - intros n. destruct (randint_total lo hi n Hle) as (damage & Hr & Hd).
    exists c', h', damage. split; [done|].
    by rewrite (attack_target_steps h c target n lo hi damage c' h').
  - intros damage Hd. exists (damage - lo), c'. eexists _, h'.
    rewrite (attack_target_steps h c target _ lo hi damage c' h');
      [done..|by apply randint_onto|done].
  - intros Hhi Hhealth n c1 t1 h1 dealt Ha.
    apply attack_target_Ok in Ha as (lo' & hi' & damage & Hb' & Hr & _ & Ht).
    rewrite Hb in Hb'. injection Hb' as <- <-.
    apply randint_range in Hr. unfold Character.take_damage in Ht.
    injection Ht as <- <-. fold f.
    rewrite (Z.max_l 0 (damage - f)) by lia. split; [|done].
    cbn. rewrite Z.sub_0_r, Z.max_r by lia. by destruct target.
Qed.

Lemma damage_window_witness :
  ∃ c' h' damage,
    6 ≤ damage ≤ 13
    ∧ Character.attack_target armory (Enemy.char goblin) hero 3
      = Ok (c',
            Character.set_health (Z.max 0 (100 - Z.max 0 (damage - 5))) hero,
            h', Z.max 0 (damage - 5)).
Proof.
  assert (armed_ok armory (Enemy.char goblin)) as Harmed by (by intros r).
  destruct (damage_window armory (Enemy.char goblin) hero 6 13 eq_refl)
    as (_ & H & _); [lia|exact Harmed|].
  exact (H 3).
Defined.

(** ** Moving in the world *)

Lemma lookup_move_unit direction dx dy :
  GameWorld.lookup_move direction GameWorld.moves = Some (dx, dy) →
  Z.abs dx + Z.abs dy = 1.
Proof.
  unfold GameWorld.moves. cbn [GameWorld.lookup_move].
  repeat (destruct (String.eqb _ direction); [intros [= <- <-]; reflexivity|]).
  done.
Qed.

(** The two cases of a call of [move_character] that returns. *)
Lemma move_character_cases world c direction c' world' moved :
  GameWorld.move_character world c direction = Some (c', world', moved) →
  (moved = false ∧ c' = c ∧ world' = world)
  ∨ (moved = true
     ∧ ∃ x y dx dy,
         Character.position c !! 0%nat = Some x
         ∧ Character.position c !! 1%nat = Some y
         ∧ Z.abs dx + Z.abs dy = 1
         ∧ c' = Character.set_position [x + dx; y + dy] c
         ∧ 0 ≤ x + dx < World.width world
         ∧ 0 ≤ y + dy < World.height world
         ∧ world'
           = World.set_discovered
               ({[ [x + dx; y + dy] ]} ∪ World.discovered world) world).
Proof.
  unfold GameWorld.move_character. intros H.
  destruct (GameWorld.lookup_move direction GameWorld.moves) as [[dx dy]|] eqn:Hd;
    [|injection H as <- <- <-; by left].
  apply lookup_move_unit in Hd.
  destruct (Character.position c !! 0%nat) as [x|] eqn:Hx; [|done].
  destruct (Character.position c !! 1%nat) as [y|] eqn:Hy; [|done].
  cbn in H.
  destruct ((0 <=? x + dx) && (x + dx <? World.width world)
            && (0 <=? y + dy) && (y + dy <? World.height world)) eqn:Hin;
    injection H as <- <- <-; [|by left].
  apply andb_true_iff in Hin as [Hin Hy2].
  apply andb_true_iff in Hin as [Hin Hy1].
  apply andb_true_iff in Hin as [Hx1 Hx2].
  apply Z.leb_le in Hx1, Hy1. apply Z.ltb_lt in Hx2, Hy2.
  right. split; [done|]. exists x, y, dx, dy. done.
Qed.

Lemma move_character_total world c direction :
  (2 ≤ length (Character.position c))%nat →
  is_Some (GameWorld.move_character world c direction).
Proof.
  unfold GameWorld.move_character. intros Hlen.
  destruct (GameWorld.lookup_move _ _) as [[dx dy]|]; [|done].
  destruct (Character.position c) as [|x [|y l]]; cbn in Hlen; try lia.
  cbn. by destruct (_ && _).
Qed.

(** X8. [move_character] returns [False] and changes nothing for a word that
    is not one of up, down, left, right, and for a step that would leave the
    world.  When it returns [True] the position is the old one moved by one
    unit along one axis, it lies inside the world, it has been added to
    [discovered], and nothing else of the character has changed.  No call
    removes a discovered position or changes the size of the world.  The
    call raises only for a position with fewer than two coordinates. *)
Theorem move_character_step (world : World.t) (c : Character.t)
  (direction : string) :
  (GameWorld.lookup_move direction GameWorld.moves = None →
     GameWorld.move_character world c direction = Some (c, world, false))
  ∧ ((2 ≤ length (Character.position c))%nat →
       is_Some (GameWorld.move_character world c direction))
  ∧ ∀ c' world' moved,
      GameWorld.move_character world c direction = Some (c', world', moved) →
      World.width world' = World.width world
      ∧ World.height world' = World.height world
      ∧ World.discovered world ⊆ World.discovered world'
      ∧ (moved = false → c' = c ∧ world' = world)
      ∧ (moved = true →
           ∃ x y dx dy,
             Character.position c !! 0%nat = Some x
             ∧ Character.position c !! 1%nat = Some y
             ∧ Z.abs dx + Z.abs dy = 1
             ∧ c' = Character.set_position [x + dx; y + dy] c
             ∧ 0 ≤ x + dx < World.width world
             ∧ 0 ≤ y + dy < World.height world
             ∧ World.discovered world'
               = {[ [x + dx; y + dy] ]} ∪ World.discovered world)
      ∧ (inside world c → inside world' c').
Proof.
  split; [|split; [apply move_character_total|]].
  { intros Hd. unfold GameWorld.move_character. by rewrite Hd. }
  intros c' world' moved H.
  apply move_character_cases in H
    as [(-> & -> & ->)
       |(-> & x & y & dx & dy & Hx & Hy & Hunit & -> & Hnx & Hny & ->)].
  - repeat (split; [done|]). done.
  - cbn. split; [done|]. split; [done|]. split; [apply union_subseteq_r|].
    split; [done|]. split.
    + intros _. by exists x, y, dx, dy.
    + intros _. by exists (x + dx), (y + dy).
Qed.

Lemma move_character_inside world c direction :
  inside world c →
  ∃ c' world' moved,
    GameWorld.move_character world c direction = Some (c', world', moved)
    ∧ inside world' c'
    ∧ c' = Character.set_position (Character.position c') c
    ∧ World.discovered world ⊆ World.discovered world'
    ∧ (Character.position c ∈ World.discovered world →
       Character.position c' ∈ World.discovered world').
Proof.
  intros Hin.
  destruct (move_character_total world c direction) as [[[c' world'] moved] H].
  { destruct Hin as (x & y & -> & _). cbn. lia. }
  exists c', world', moved. split; [done|].
  apply move_character_cases in H
    as [(-> & -> & ->)
       |(-> & x & y & dx & dy & Hx & Hy & Hunit & -> & Hnx & Hny & ->)].
  - split; [done|]. split; [by destruct c|]. done.
  - cbn. split; [by exists (x + dx), (y + dy)|]. split; [done|].
    split; [apply union_subseteq_r|].
    intros _. by apply elem_of_union_l, elem_of_singleton.
Qed.

(** X9. A character that starts inside the world on a discovered position
    can walk along any list of directions: no move raises, the character
    stays inside the world and on a discovered position, differs from the one
    that set out only in its position, no discovered position is lost, and
    the count of moves grows by at most the number of directions. *)
Theorem walk_stays_inside (directions : list string) (world : World.t)
  (c : Character.t) (moves_count : Z) :
  inside world c →
  Character.position c ∈ World.discovered world →
  ∃ c' world' moves_count',
    walk world c directions moves_count = Some (c', world', moves_count')
    ∧ inside world' c'
    ∧ Character.position c' ∈ World.discovered world'
    ∧ c' = Character.set_position (Character.position c') c
    ∧ World.discovered world ⊆ World.discovered world'
    ∧ moves_count ≤ moves_count' ≤ moves_count + Z.of_nat (length directions).
Proof.
  revert world c moves_count.
  induction directions as [|direction directions IH];
    intros world c moves_count Hin Hpos.
  - exists c, world, moves_count. cbn. repeat split; try done; try lia.
    by destruct c.
  - destruct (move_character_inside world c direction Hin)
      as (c1 & world1 & moved & Hmove & Hin1 & Hc1 & Hsub1 & Hpos1).
    destruct (IH world1 c1 (if moved then moves_count + 1 else moves_count)
                Hin1 (Hpos1 Hpos))
      as (c' & world' & n' & Hwalk & Hin' & Hpos' & Hc' & Hsub' & Hn).
    exists c', world', n'. cbn [walk]. rewrite Hmove. cbn.
    split; [done|]. split; [done|]. split; [done|].
    split; [by rewrite Hc', Hc1|]. split; [by etrans|].
    cbn [length]. destruct moved; lia.
Qed.

Lemma walk_stays_inside_witness :
  ∃ c' world',
    walk (World.mk 10 10 {[ [0; 0] ]}) hero ["up"; "left"; "north"; "right"] 0
    = Some (c', world', 2)
    ∧ inside world' c'
    ∧ Character.position c' ∈ World.discovered world'.
Proof.
  assert (inside (World.mk 10 10 {[ [0; 0] ]}) hero) as Hin
    by (exists 0, 0; split; [reflexivity|cbn; lia]).
  assert (Character.position hero
            ∈ World.discovered (World.mk 10 10 {[ [0; 0] ]})) as Hpos
    by (change ([0; 0] ∈ ({[ [0; 0] ]} : gset (list Z)));
        by apply elem_of_singleton).
  destruct (walk_stays_inside ["up"; "left"; "north"; "right"] _ hero 0 Hin Hpos)
    as (c' & world' & n' & Hwalk & Hin' & Hpos' & _).
  assert (n' = 2) as -> by (vm_compute in Hwalk; by injection Hwalk as _ _ <-).
  by exists c', world'.
Defined.

(** ** Encounters and treasure *)

Lemma select_Ok p h weapons l :
  WeaponManager.select p h weapons = Ok l →
  live h weapons ∧ l = matching p h weapons.
Proof.
  revert l. induction weapons as [|r weapons IH]; intros l H.
  - injection H as <-. split; [|done]. intros r Hr. by apply elem_of_nil in Hr.
  - cbn in H. apply bind_Ok in H as (w & Hw & H).
    apply bind_Ok in H as (rest & Hrest & [= <-]).
    unfold deref in Hw. destruct (h !! r) as [w'|] eqn:Hr; [|done].
    injection Hw as ->. destruct (IH rest Hrest) as [Hlive ->]. split.
    + intros r' Hr'. apply elem_of_cons in Hr' as [->|Hr']; [by eexists|].
      by apply Hlive.
    + unfold matching. cbn [List.filter]. by rewrite Hr.
Qed.

Lemma select_live p h weapons :
  live h weapons → WeaponManager.select p h weapons = Ok (matching p h weapons).
Proof.
  induction weapons as [|r weapons IH]; intros Hlive; [done|].
  apply live_cons in Hlive as [[w Hw] Hlive]. cbn. unfold deref.
  rewrite Hw. cbn. rewrite IH by done. cbn. unfold matching.
  cbn [List.filter]. by rewrite ?Hw.
Qed.

Lemma matching_elem p h weapons r :
  r ∈ matching p h weapons ↔ r ∈ weapons ∧ ∃ w, h !! r = Some w ∧ p w = true.
Proof.
  unfold matching. rewrite !list_elem_of_In, filter_In. split.
  - intros [Hin Hp]. split; [done|]. destruct (h !! r) as [w|]; [|done].
    by exists w.
  - intros [Hin (w & -> & Hp)]. done.
Qed.

Lemma choice_elem {A : Type} (l : list A) n :
  l ≠ [] → ∃ k a, (k < length l)%nat ∧ l !! k = Some a ∧ choice l n = Some a.
Proof.
  intros Hne. assert (length l ≠ 0%nat) as Hlen by (by destruct l).
  pose proof (Nat.mod_upper_bound n (length l) Hlen) as Hk.
  destruct (lookup_lt_is_Some_2 l _ Hk) as [a Ha].
  exists (n mod length l)%nat, a. done.
Qed.

Lemma get_random_weapon_Some h weapons rarity n r :
  WeaponManager.get_random_weapon h weapons rarity n = Ok (Some r) → r ∈ weapons.
Proof.
  unfold WeaponManager.get_random_weapon. intros H.
  apply bind_Ok in H as (available & Ha & H).
  assert (r ∈ available) as Hr.
  { destruct available as [|r0 available]; [done|]. injection H as H.
    by apply list_elem_of_lookup_2 in H. }
  destruct rarity as [[|c s]|]; try (by injection Ha as ->).
  apply select_Ok in Ha as [_ ->]. by apply matching_elem in Hr as [Hr _].
Qed.

(** X10. [random_encounter] draws among the first [min(4, level) + 1] rows
    of the table of enemies, for a level that is not negative: a player of
    level 1 meets a Goblin or a Skeleton, and the Dragon needs level 4.
    Each of these rows is drawn for some value of the draw.  The enemy is
    built with full health, an integer attack, no weapon and rewards above 0.
    For level -1, and for levels below -5, the slice is empty and
    [random.choice] raises. *)
Theorem encounter_by_level (player : Character.t) (n : nat) :
  let level := Character.level player in
  (0 ≤ level →
     ∃ k data,
       GameWorld.enemy_types !! k = Some data
       ∧ Z.of_nat k ≤ Z.min 4 level
       ∧ GameWorld.random_encounter player n = Some (GameWorld.make_enemy data)
       ∧ fresh_enemy (GameWorld.make_enemy data))
  ∧ (∀ k data,
       GameWorld.enemy_types !! k = Some data → Z.of_nat k ≤ level →
       GameWorld.random_encounter player k = Some (GameWorld.make_enemy data))
  ∧ (level = -1 ∨ level < -5 → GameWorld.random_encounter player n = None).
Proof.
  cbv zeta.
  assert (Forall (λ data, fresh_enemy (GameWorld.make_enemy data))
            GameWorld.enemy_types) as Hfresh.
  { unfold GameWorld.enemy_types, fresh_enemy.
    repeat (constructor; [cbn; repeat split; try done; lia|]). constructor. }
  assert (∀ m, 1 ≤ m →
    slice_to GameWorld.enemy_types m = take (Z.to_nat m) GameWorld.enemy_types)
    as Hslice.
  { intros m Hm. unfold slice_to. by destruct (Z.ltb_spec m 0); [lia|]. }
  assert (length GameWorld.enemy_types = 5%nat) as Hlen by done.
  split; [|split].
  - intros Hlevel. unfold GameWorld.random_encounter. rewrite Hlen.
    change (Z.of_nat 5 - 1) with 4.
    set (top := Z.min 4 (Character.level player)).
    assert (0 ≤ top ≤ 4) as Htop by (unfold top; lia).
    rewrite Hslice by lia.
    assert (take (Z.to_nat (top + 1)) GameWorld.enemy_types ≠ []) as Hne.
    { intros E. apply (f_equal length) in E.
      rewrite length_take, Hlen in E. cbn in E. lia. }
    destruct (choice_elem _ n Hne) as (k & data & Hk & Hdata & Hchoice).
    rewrite length_take, Hlen in Hk.
    rewrite lookup_take_lt in Hdata by lia.
    exists k, data. split; [done|]. split; [lia|]. split.
    + destruct (take _ _) as [|c cs] eqn:E; [done|]. by rewrite Hchoice.
    + rewrite Forall_forall in Hfresh. apply Hfresh.
      by eapply list_elem_of_lookup_2.
  - intros k data Hdata Hk.
    pose proof (lookup_lt_Some _ _ _ Hdata) as Hlt. rewrite Hlen in Hlt.
    unfold GameWorld.random_encounter. rewrite Hlen.
    change (Z.of_nat 5 - 1) with 4.
    set (top := Z.min 4 (Character.level player)).
    assert (Z.of_nat k ≤ top ≤ 4) as Htop by (unfold top; lia).
    rewrite Hslice by lia.
    assert (choice (take (Z.to_nat (top + 1)) GameWorld.enemy_types) k
            = Some data) as Hchoice.
    { unfold choice. rewrite length_take, Hlen.
      rewrite Nat.mod_small by lia. rewrite lookup_take_lt by lia. done. }
    destruct (take _ _) as [|c cs] eqn:E; [done|]. by rewrite Hchoice.
  - intros Hlevel. unfold GameWorld.random_encounter. rewrite Hlen.
    change (Z.of_nat 5 - 1) with 4. unfold slice_to. rewrite Hlen.
    destruct (Z.ltb_spec (Z.min 4 (Character.level player) + 1) 0).
    + replace (Z.to_nat _) with 0%nat by lia. done.
    + replace (Z.to_nat _) with 0%nat by lia. done.
Qed.

(** The weighted draw returns on a catalogue whose weapons are in the
    store, and what it returns is a weapon of the catalogue. *)
Lemma get_weighted_random_weapon_live h weapons x n :
  live h weapons →
  ∃ found,
    WeaponManager.get_weighted_random_weapon h weapons x n = Ok found
    ∧ ∀ r, found = Some r → r ∈ weapons.
Proof.
  intros Hlive.
  destruct (choices_rarity x) as (chosen & Hc & _ & _ & _ & _ & _ & Hne).
  cbv zeta in Hc.
  assert (WeaponManager.get_weighted_random_weapon h weapons x n
          = WeaponManager.get_random_weapon h weapons (Some chosen) n) as Hw.
  { unfold WeaponManager.get_weighted_random_weapon. cbv zeta.
    by rewrite Hc. }
  rewrite Hw. rewrite (get_random_weapon_tier _ _ _ n Hlive Hne).
  eexists. split; [reflexivity|]. intros r Hr.
  apply (get_random_weapon_Some h weapons (Some chosen) n).
  rewrite (get_random_weapon_tier _ _ _ n Hlive Hne). by f_equal.
Qed.

(** X11. On a catalogue whose weapons are in the store, [find_treasure]
    returns and does one of three things, by the value of [random.random()].
    Below 0.3 it makes the weighted draw and appends the weapon drawn to the
    inventory, or changes nothing when the draw gives none; the weapon is an
    object of the catalogue, not a copy, and is not equipped.  From 0.3 and
    below 0.6 it adds the gold [randint(20, 100)] gives, between 20 and 100.
    From 0.6 it heals 30 health, up to [max_health].  Nothing else changes,
    and the ranges of the character are kept. *)
Theorem find_treasure_effect (h : heap) (weapons : WeaponManager.t)
  (player : Character.t) (treasure_roll x : Q) (n : nat) (gold_draw : Z) :
  live h weapons →
  ∃ found amount player',
    WeaponManager.get_weighted_random_weapon h weapons x n = Ok found
    ∧ (∀ r, found = Some r → r ∈ weapons)
    ∧ randint 20 100 gold_draw = Ok amount
    ∧ 20 ≤ amount ≤ 100
    ∧ GameWorld.find_treasure h weapons player treasure_roll x n gold_draw
      = Ok player'
    ∧ ((treasure_roll < double_0_3)%Q →
         player'
         = match found with
           | Some r =>
               Character.set_inventory
                 (Character.inventory player ++ [WeaponItem r]) player
           | None => player
           end)
    ∧ (¬ (treasure_roll < double_0_3)%Q → (treasure_roll < double_0_6)%Q →
         player' = Character.add_gold player amount)
    ∧ (¬ (treasure_roll < double_0_6)%Q →
         player' = Character.heal player 30)
    ∧ Character.equipped_weapon player' = Character.equipped_weapon player
    ∧ Character.attack player' = Character.attack player
    ∧ (in_range player → in_range player').
Proof.
  intros Hlive.
  destruct (get_weighted_random_weapon_live h weapons x n Hlive)
    as (found & Hdraw & Hin).
  destruct (randint_total 20 100 gold_draw) as (amount & Hr & Hrange); [lia|].
  exists found, amount.
  assert ((double_0_3 < double_0_6)%Q) as Hlt by done.
  unfold GameWorld.find_treasure. rewrite Hdraw, Hr.
  destruct (Battle.Qltb treasure_roll double_0_3) eqn:E3.
  - apply Qltb_lt in E3.
    assert ((treasure_roll < double_0_6)%Q) as E6
      by (by apply Qlt_trans with double_0_3).
    exists (match found with
            | Some r =>
                Character.set_inventory
                  (Character.inventory player ++ [WeaponItem r]) player
            | None => player
            end).
    split; [done|]. split; [done|]. split; [done|].
    split; [done|]. split; [by destruct found|]. split; [done|].
    split; [intros Hn; by destruct (Hn E3)|].
    split; [intros Hn; by destruct (Hn E6)|].
    by destruct found.
  - apply not_true_iff_false in E3. rewrite Qltb_lt in E3.
    destruct (Battle.Qltb treasure_roll double_0_6) eqn:E6.
    + apply Qltb_lt in E6.
      eexists. split; [done|]. split; [done|]. split; [done|].
      split; [done|]. split; [reflexivity|]. split; [done|].
      split; [done|]. split; [done|]. split; [done|]. split; [done|].
      unfold in_range, Character.add_gold. cbn. lia.
    + apply not_true_iff_false in E6. rewrite Qltb_lt in E6.
      eexists. split; [done|]. split; [done|]. split; [done|].
      split; [done|]. split; [reflexivity|]. split; [done|].
      split; [done|]. split; [done|]. split; [done|]. split; [done|].
      by apply heal_in_range.
Qed.

Lemma find_treasure_effect_witness :
  live armory catalogue
  ∧ WeaponManager.get_weighted_random_weapon armory catalogue 60 7
    = Ok (Some 2%positive)
  ∧ ∃ player',
      GameWorld.find_treasure armory catalogue hero (1 # 10) 60 7 0
      = Ok player'
      ∧ Character.attack player' = PyInt 15
      ∧ Character.inventory player' = [WeaponItem 2%positive].
Proof.
  assert (live armory catalogue) as Hlive.
  { refine (proj2 (catalogue_live armory) _).
    repeat split; eexists; reflexivity. }
  split; [exact Hlive|]. split; [reflexivity|].
  destruct (find_treasure_effect armory catalogue hero (1 # 10) 60 7 0 Hlive)
    as (found & amount & player' & Hdraw & _ & _ & _ & H & Hweapon & _ & _
        & _ & Hattack & _).
  exists player'. split; [exact H|]. split; [exact Hattack|].
  assert (found = Some 2%positive) as ->.
  { change (WeaponManager.get_weighted_random_weapon armory catalogue 60 7)
      with (@Ok (option loc) (Some 2%positive)) in Hdraw.
    by injection Hdraw as <-. }
  by rewrite Hweapon.
Defined.

(** ** The shop *)

Lemma shown_weapons_Ok h affordable rs shown :
  shown_weapons h affordable rs = Ok shown →
  shown
  = flat_map
      (λ rarity,
         take 5
           (matching (λ w, String.eqb (Weapon.rarity w) rarity) h affordable))
      rs.
Proof.
  revert shown. induction rs as [|rarity rs IH]; intros shown H.
  - by injection H as <-.
  - cbn in H. apply bind_Ok in H as (rarity_weapons & Hsel & H).
    apply bind_Ok in H as (rest & Hrest & [= <-]).
    apply select_Ok in Hsel as [_ ->]. by rewrite (IH rest Hrest).
Qed.

Lemma shown_weapons_live h affordable rs :
  live h affordable →
  shown_weapons h affordable rs
  = Ok (flat_map
          (λ rarity,
             take 5
               (matching (λ w, String.eqb (Weapon.rarity w) rarity) h
                  affordable))
          rs).
Proof.
  intros Hlive. induction rs as [|rarity rs IH]; [done|].
  cbn. rewrite select_live by done. cbn. by rewrite IH.
Qed.

Lemma matching_live p h weapons : live h (matching p h weapons).
Proof. intros r Hr. apply matching_elem in Hr as (_ & w & -> & _). by eexists. Qed.

Lemma on_offer_elem h weapons gold r :
  r ∈ on_offer h weapons gold →
  r ∈ weapons
  ∧ ∃ w, h !! r = Some w ∧ Weapon.cost w ≤ gold ∧ Weapon.rarity w ∈ rarities.
Proof.
  unfold on_offer. cbv zeta. rewrite list_elem_of_In, in_flat_map.
  intros (rarity & Hrarity & Hr). apply list_elem_of_In in Hr, Hrarity.
  apply elem_of_take in Hr as (i & Hr & _). apply list_elem_of_lookup_2 in Hr.
  apply matching_elem in Hr as (Hr & w & Hw & Hrar).
  apply matching_elem in Hr as (Hr & w' & Hw' & Hcost).
  rewrite Hw in Hw'. injection Hw' as <-.
  split; [done|]. exists w. split; [done|]. split; [by apply Z.leb_le|].
  apply String.eqb_eq in Hrar. by rewrite Hrar.
Qed.

Lemma on_offer_length h weapons gold :
  (length (on_offer h weapons gold) ≤ 25)%nat.
Proof.
  unfold on_offer, rarities. cbv zeta. cbn [flat_map].
  rewrite !length_app, !length_take. cbn [length]. lia.
Qed.

Lemma result_bind_Ok {A B : Type} (a : A) (k : A → result B) :
  Ok a ≫= k = k a.
Proof. reflexivity. Qed.

(** The shop, once the list of weapons on offer is known. *)
Lemma shop_menu_Ok h weapons player choice confirm player' :
  shop_menu h weapons player choice confirm = Ok player' →
  player' = player
  ∨ ∃ k r w,
      choice = Some (Z.of_nat k + 1)
      ∧ on_offer h weapons (Character.gold player) !! k = Some r
      ∧ h !! r = Some w
      ∧ says_yes confirm = true
      ∧ player' = bought player r w.
Proof.
  unfold shop_menu, WeaponManager.get_affordable_weapons. intros H.
  apply bind_Ok in H as (affordable & Ha & H).
  apply select_Ok in Ha as [_ Ha].
  destruct affordable as [|r0 affordable]; [injection H as <-; by left|].
  rewrite Ha in H. apply bind_Ok in H as (shown & Hshown & H).
  apply shown_weapons_Ok in Hshown.
  fold (on_offer h weapons (Character.gold player)) in Hshown. subst shown.
  destruct choice as [choice|]; [|injection H as <-; by left].
  destruct ((1 <=? choice) && (choice <=? _)) eqn:Hrange;
    [|injection H as <-; by left].
  apply andb_true_iff in Hrange as [H1 H2]. apply Z.leb_le in H1, H2.
  destruct (on_offer _ _ _ !! Z.to_nat (choice - 1)) as [r|] eqn:Hr;
    [|injection H as <-; by left].
  apply bind_Ok in H as (w & Hw & H).
  unfold deref in Hw. destruct (h !! r) as [w'|] eqn:Hhr; [|done].
  injection Hw as ->.
  destruct (says_yes confirm) eqn:Hyes; injection H as <-; [|by left].
  right. exists (Z.to_nat (choice - 1)), r, w.
  split; [f_equal; lia|]. done.
Qed.

(** X12. A visit to the shop leaves the player as it was, or takes the cost
    of one weapon from the gold and appends that weapon to the inventory.
    The weapon is an object of the catalogue, its cost is at most the gold
    the player had, so the gold left is not negative, and its rarity is one
    of the five the shop lists: a weapon of another rarity cannot be bought.
    Nothing is bought without a choice that is a number and an answer that
    is yes or y, whatever the case of its letters.  The weapon is not
    equipped by the purchase. *)
Theorem shop_purchase (h : heap) (weapons : WeaponManager.t)
  (player player' : Character.t) (choice : option Z) (confirm : string) :
  shop_menu h weapons player choice confirm = Ok player' →
  (player' = player
   ∨ ∃ r w,
       r ∈ weapons ∧ h !! r = Some w
       ∧ Weapon.cost w ≤ Character.gold player
       ∧ Weapon.rarity w ∈ rarities
       ∧ player' = bought player r w
       ∧ 0 ≤ Character.gold player')
  ∧ (choice = None ∨ says_yes confirm = false → player' = player)
  ∧ Character.equipped_weapon player' = Character.equipped_weapon player
  ∧ Character.attack player' = Character.attack player
  ∧ (in_range player → in_range player').
Proof.
  intros H. apply shop_menu_Ok in H as [->|(k & r & w & Hc & Hr & Hw & Hyes & ->)].
  { split; [by left|]. done. }
  apply list_elem_of_lookup_2, on_offer_elem in Hr as (Hr & w' & Hw' & Hcost & Hrar).
  rewrite Hw in Hw'. injection Hw' as <-.
  split; [|split; [|split; [done|split; [done|]]]].
  - right. exists r, w. repeat split; try done. cbn. lia.
  - intros [->|Hno]; [done|congruence].
  - unfold in_range, bought. cbn. lia.
Qed.

Lemma shop_purchase_witness :
  ∃ player',
    shop_menu armory catalogue hero (Some 2) "YES" = Ok player'
    ∧ Character.gold player' = 40
    ∧ Character.inventory player' = [WeaponItem 3%positive]
    ∧ Character.equipped_weapon player' = None.
Proof.
  destruct (shop_menu armory catalogue hero (Some 2) "YES")
    as [player'|err] eqn:H; [|by vm_compute in H].
  exists player'.
  destruct (shop_purchase armory catalogue hero player' (Some 2) "YES" H)
    as (_ & _ & Hequipped & _).
  split; [done|]. vm_compute in H. injection H as <-.
  split; [done|]. split; [done|]. exact Hequipped.
Defined.

(** X13. With every weapon of the catalogue in the store, the shop lists,
    for Common, Uncommon, Rare, Epic and Legendary in turn, the first five
    weapons of that rarity that cost no more than the player's gold, in
    catalogue order: 25 at most.  The choice [k] with the answer yes buys
    the [k]-th weapon of that list; every other number buys nothing. *)
Theorem shop_offer (h : heap) (weapons : WeaponManager.t) (player : Character.t) :
  live h weapons →
  let offer := on_offer h weapons (Character.gold player) in
  (length offer ≤ 25)%nat
  ∧ (∀ k r w confirm,
       offer !! k = Some r → h !! r = Some w → says_yes confirm = true →
       shop_menu h weapons player (Some (Z.of_nat k + 1)) confirm
       = Ok (bought player r w))
  ∧ (∀ choice confirm,
       ¬ (1 ≤ choice ≤ Z.of_nat (length offer)) →
       shop_menu h weapons player (Some choice) confirm = Ok player).
Proof.
  intros Hlive offer. split; [apply on_offer_length|].
  assert (∀ choice confirm,
    shop_menu h weapons player (Some choice) confirm
    = match matching (λ w, Weapon.cost w <=? Character.gold player) h weapons with
      | [] => Ok player
      | _ :: _ =>
          if (1 <=? choice) && (choice <=? Z.of_nat (length offer)) then
            match offer !! Z.to_nat (choice - 1) with
            | Some weapon =>
                w ← deref h weapon;
                if says_yes confirm then Ok (bought player weapon w)
                else Ok player
            | None => Ok player
            end
          else Ok player
      end) as Hshop.
  { intros choice confirm.
    unfold shop_menu, WeaponManager.get_affordable_weapons.
    rewrite select_live by done. rewrite result_bind_Ok.
    destruct (matching _ h weapons) as [|r0 affordable] eqn:Ha; [done|].
    rewrite shown_weapons_live by (rewrite <- Ha; apply matching_live).
    rewrite result_bind_Ok. unfold offer, on_offer. cbv zeta. by rewrite Ha. }
  split.
  - intros k r w confirm Hk Hw Hyes. rewrite Hshop.
    pose proof (lookup_lt_Some _ _ _ Hk) as Hlt.
    destruct (matching _ h weapons) as [|r0 affordable] eqn:Ha.
    { unfold offer, on_offer in Hk. cbv zeta in Hk. rewrite Ha in Hk.
      by cbn in Hk. }
    replace ((1 <=? Z.of_nat k + 1) && (Z.of_nat k + 1 <=? Z.of_nat (length offer)))
      with true by (symmetry; apply andb_true_iff; split; apply Z.leb_le; lia).
    replace (Z.to_nat (Z.of_nat k + 1 - 1)) with k by lia.
    rewrite Hk. unfold deref. rewrite Hw. cbn. by rewrite Hyes.
  - intros choice confirm Hout. rewrite Hshop.
    destruct (matching _ h weapons) as [|r0 affordable]; [done|].
    replace ((1 <=? choice) && (choice <=? Z.of_nat (length offer)))
      with false; [done|].
    symmetry. apply andb_false_iff.
    destruct (Z.leb_spec 1 choice); [right|by left]. apply Z.leb_gt. lia.
Qed.

Lemma shop_offer_witness :
  on_offer armory catalogue 100 = [1%positive; 3%positive; 2%positive]
  ∧ shop_menu armory catalogue hero (Some 3) "y" = Ok (bought hero 2 oak_staff)
  ∧ shop_menu armory catalogue hero (Some 4) "y" = Ok hero.
Proof.
  assert (live armory catalogue) as Hlive.
  { refine (proj2 (catalogue_live armory) _).
    repeat split; eexists; reflexivity. }
  destruct (shop_offer armory catalogue hero Hlive) as (_ & Hbuy & Hout).
  split; [reflexivity|]. split.
  - apply (Hbuy 2%nat 2%positive oak_staff "y"); reflexivity.
  - apply Hout. change (length _) with 3%nat. lia.
Defined.

(** ** The inventory menu *)

Lemma rearmed_refl h p : rearmed h p p.
Proof. split; [by destruct p|by left]. Qed.

Lemma rearmed_trans h p1 p2 p3 :
  rearmed h p1 p2 → rearmed h p2 p3 → rearmed h p1 p3.
Proof.
  intros [E12 H12] [E23 H23].
  assert (Character.inventory p2 = Character.inventory p1
          ∧ Character.base_attack p2 = Character.base_attack p1) as [Hinv Hbase]
    by (by rewrite E12).
  split.
  - rewrite E23, E12. done.
  - destruct H23 as [->|[[He Ha]|(r & w & He & Hin & Hw & Ha)]]; [done|..].
    + right. left. by rewrite <- Hbase.
    + right. right. exists r, w. by rewrite <- Hinv, <- Hbase.
Qed.

Lemma weapons_of_elem inventory r :
  r ∈ weapons_of inventory ↔ WeaponItem r ∈ inventory.
Proof.
  unfold weapons_of. rewrite list_elem_of_omap. split.
  - by intros ([r'|s] & Hin & [= ->]).
  - intros Hin. by exists (WeaponItem r).
Qed.

Lemma inventory_choice_rearmed h p choice p' leave :
  inventory_choice h p choice = Ok (p', leave) → rearmed h p p'.
Proof.
  unfold inventory_choice. intros H.
  destruct choice as [choice|]; [|injection H as <- <-; apply rearmed_refl].
  destruct ((1 <=? choice) && _).
  { destruct (weapons_of _ !! Z.to_nat (choice - 1)) as [r|] eqn:Hr;
      [|injection H as <- <-; apply rearmed_refl].
    apply bind_Ok in H as (p1 & He & [= <- <-]).
    apply list_elem_of_lookup_2, weapons_of_elem in Hr.
    unfold Character.equip_weapon, deref in He.
    destruct (h !! r) as [w|] eqn:Hw; [|done]. cbn in He.
    apply bind_Ok in He as (a & Ha & [= <-]).
    split; [done|]. right. right. by exists r, w. }
  destruct (choice =? _).
  { injection H as <- <-. unfold Character.unequip_weapon.
    destruct (Character.equipped_weapon p) as [r|] eqn:He; cbn.
    - split; [done|]. right. by left.
    - apply rearmed_refl. }
  destruct (choice =? _); injection H as <- <-; apply rearmed_refl.
Qed.

Lemma rearmed_derived h p p' :
  rearmed h p p' → attack_derived h p → attack_derived h p'.
Proof.
  intros [E [->|[[He Ha]|(r & w & He & _ & Hw & Ha)]]] Hd; [done|..];
    unfold attack_derived; rewrite He.
  - rewrite Ha. by rewrite E.
  - exists w. split; [done|]. rewrite <- Ha. by rewrite E.
Qed.

(** X14. Whatever is typed in the inventory menu, the player leaves it with
    the same inventory and the same stats but for the weapon in hand and
    [attack]: the player is as before, or holds nothing and attacks with
    [base_attack], or holds a weapon of the inventory and attacks with
    [base_attack] plus its bonus.  A weapon that is not in the inventory
    cannot be equipped, a broken one that is can be.  If [attack] was the
    base attack plus the bonus of the weapon in hand before, it is so
    after. *)
Theorem inventory_menu_rearms (h : heap) (player player' : Character.t)
  (choices : list (option Z)) :
  inventory_menu h player choices = Ok player' →
  rearmed h player player'
  ∧ Character.inventory player' = Character.inventory player
  ∧ Character.gold player' = Character.gold player
  ∧ Character.health player' = Character.health player
  ∧ (attack_derived h player → attack_derived h player').
Proof.
  intros H. assert (rearmed h player player') as Hre.
  { revert player H. induction choices as [|choice choices IH]; intros player H.
    - injection H as <-. apply rearmed_refl.
    - cbn in H. apply bind_Ok in H as ([p1 leave] & Hc & H).
      apply inventory_choice_rearmed in Hc.
      destruct leave; [by injection H as <-|].
      apply rearmed_trans with p1; [done|]. by apply IH. }
  split; [done|]. pose proof Hre as [E _].
  split; [by rewrite E|]. split; [by rewrite E|]. split; [by rewrite E|].
  by apply rearmed_derived.
Qed.

Lemma inventory_menu_rearms_witness :
  ∃ player',
    inventory_menu armory
      (Character.set_inventory [PlainItem "Potion"; WeaponItem 2%positive] hero)
      [Some 5; None; Some 1; Some 3; Some 1] = Ok player'
    ∧ Character.equipped_weapon player' = Some 2%positive
    ∧ attack_derived armory player'.
Proof.
  set (p := Character.set_inventory [PlainItem "Potion"; WeaponItem 2%positive]
              hero).
  destruct (inventory_menu armory p [Some 5; None; Some 1; Some 3; Some 1])
    as [player'|err] eqn:H; [|by vm_compute in H].
  exists player'.
  destruct (inventory_menu_rearms armory p player' _ H) as (_ & _ & _ & _ & Hd).
  split; [done|]. split; [|by apply Hd].
  vm_compute in H. by injection H as <-.
Defined.

(** ** Searching the catalogue *)

Lemma lower_ascii_idemp c : lower_ascii (lower_ascii c) = lower_ascii c.
Proof. by destruct c as [[] [] [] [] [] [] [] []]. Qed.

Lemma lower_idemp s : lower (lower s) = lower s.
Proof.
  induction s as [|c s IH]; [done|]. cbn. by rewrite lower_ascii_idemp, IH.
Qed.

Lemma get_weapon_by_name_lower h weapons name name' :
  lower name' = lower name →
  WeaponManager.get_weapon_by_name h weapons name'
  = WeaponManager.get_weapon_by_name h weapons name.
Proof.
  intros E. induction weapons as [|r weapons IH]; [done|].
  cbn. by rewrite E, IH.
Qed.

Lemma get_weapon_by_name_None h weapons name :
  live h weapons →
  (∀ r, r ∈ weapons → ¬ named h name r) →
  WeaponManager.get_weapon_by_name h weapons name = Ok None.
Proof.
  induction weapons as [|r weapons IH]; intros Hlive Hno; [done|].
  apply live_cons in Hlive as [[w Hw] Hlive]. cbn. unfold deref.
  rewrite Hw. cbn.
  destruct (String.eqb_spec (lower (Weapon.name w)) (lower name)) as [E|E].
  - destruct (Hno r); [left|]. by exists w.
  - apply IH; [done|]. intros r' Hr'. apply Hno. by right.
Qed.

Lemma armory_ascii : ascii_names armory catalogue.
Proof.
  intros r w Hr. apply list_elem_of_In in Hr.
  destruct Hr as [<-|[<-|[<-|[]]]]; intros [= <-]; reflexivity.
Qed.

(** X15. On ASCII names, those of the catalogue and the one asked for, the
    search by name returns the first weapon of the catalogue whose name is
    the one asked for, ignoring the case of the letters on both sides, and
    [None] when there is none: a later weapon of the same name is never
    returned.  The result is an object of the catalogue, and the same for
    the name in lower case. *)
Theorem get_weapon_by_name_first (h : heap) (weapons : WeaponManager.t)
  (name : string) :
  is_ascii name = true →
  ascii_names h weapons →
  live h weapons →
  (∀ pre r post,
     weapons = pre ++ r :: post → named h name r →
     (∀ r', r' ∈ pre → ¬ named h name r') →
     WeaponManager.get_weapon_by_name h weapons name = Ok (Some r))
  ∧ ((∀ r, r ∈ weapons → ¬ named h name r) →
       WeaponManager.get_weapon_by_name h weapons name = Ok None)
  ∧ (∃ found,
       WeaponManager.get_weapon_by_name h weapons name = Ok found
       ∧ ∀ r, found = Some r → r ∈ weapons ∧ named h name r)
  ∧ WeaponManager.get_weapon_by_name h weapons (lower name)
    = WeaponManager.get_weapon_by_name h weapons name.
Proof.
  intros _ _ Hlive.
  split; [|split; [by apply get_weapon_by_name_None|split]].
  - intros pre r post -> (w & Hw & Hname) Hpre.
    induction pre as [|r0 pre IH].
    + cbn. unfold deref. rewrite Hw. cbn.
      by rewrite (proj2 (String.eqb_eq _ _) Hname).
    + apply live_cons in Hlive as [[w0 Hw0] Hlive].
      cbn. unfold deref. rewrite Hw0. cbn.
      destruct (String.eqb_spec (lower (Weapon.name w0)) (lower name)) as [E|E].
      * destruct (Hpre r0); [left|]. by exists w0.
      * apply IH; [done|]. intros r' Hr'. apply Hpre. by right.
  - assert (∃ found, WeaponManager.get_weapon_by_name h weapons name = Ok found)
      as [found Hfound].
    { clear -Hlive. induction weapons as [|r weapons IH]; [by eexists|].
      apply live_cons in Hlive as [[w Hw] Hlive]. cbn. unfold deref.
      rewrite Hw. cbn. destruct (String.eqb _ _); [by eexists|by apply IH]. }
    exists found. split; [done|]. intros r ->.
    by apply get_weapon_by_name_Some in Hfound.
  - apply get_weapon_by_name_lower, lower_idemp.
Qed.

Lemma get_weapon_by_name_first_witness :
  is_ascii "IRON axe" = true
  ∧ ascii_names armory catalogue
  ∧ live armory catalogue
  ∧ WeaponManager.get_weapon_by_name armory catalogue "IRON axe"
    = Ok (Some 3%positive)
  ∧ WeaponManager.get_weapon_by_name armory catalogue "Excalibur" = Ok None.
Proof.
  assert (live armory catalogue) as Hlive.
  { refine (proj2 (catalogue_live armory) _).
    repeat split; eexists; reflexivity. }
  split; [reflexivity|]. split; [exact armory_ascii|]. split; [exact Hlive|].
  split.
  - destruct (get_weapon_by_name_first armory catalogue "IRON axe" eq_refl
                armory_ascii Hlive)
      as (Hfirst & _).
    apply (Hfirst [1%positive; 2%positive] 3%positive []); [done| |].
    + by exists iron_axe.
    + intros r' Hr' (w & Hw & Hname). apply list_elem_of_In in Hr'.
      destruct Hr' as [<-|[<-|[]]]; injection Hw as <-; by vm_compute in Hname.
  - destruct (get_weapon_by_name_first armory catalogue "Excalibur" eq_refl
                armory_ascii Hlive)
      as (_ & Hnone & _).
    apply Hnone. intros r' Hr' (w & Hw & Hname). apply list_elem_of_In in Hr'.
    destruct Hr' as [<-|[<-|[<-|[]]]]; injection Hw as <-;
      by vm_compute in Hname.
Defined.

Lemma matching_sublist p h weapons : matching p h weapons `sublist_of` weapons.
Proof.
  unfold matching. induction weapons as [|r weapons IH]; [done|].
  cbn [List.filter]. destruct (match h !! r with Some w => p w | None => false end).
  - by apply sublist_skip.
  - by apply sublist_cons.
Qed.

Lemma matching_mono (p q : Weapon.t → bool) h weapons :
  (∀ w, p w = true → q w = true) →
  matching p h weapons `sublist_of` matching q h weapons.
Proof.
  intros Hpq. unfold matching. induction weapons as [|r weapons IH]; [done|].
  cbn [List.filter]. destruct (h !! r) as [w|]; [|done].
  destruct (p w) eqn:Hp.
  - rewrite (Hpq w Hp). by apply sublist_skip.
  - destruct (q w); [by apply sublist_cons|done].
Qed.

(** X16. With every weapon of the catalogue in the store,
    [get_affordable_weapons(gold)] returns the weapons of the catalogue that
    cost at most [gold], and [get_weapons_by_type] those of the given type:
    each one once for each place it has in the catalogue, in catalogue order,
    as objects of the catalogue.  With more gold, the list only gains
    weapons.  With less gold than every cost, it is empty. *)
Theorem affordable_weapons (h : heap) (weapons : WeaponManager.t) (gold : Z) :
  live h weapons →
  ∃ affordable,
    WeaponManager.get_affordable_weapons h weapons gold = Ok affordable
    ∧ affordable `sublist_of` weapons
    ∧ (∀ r, r ∈ affordable ↔
            r ∈ weapons ∧ ∃ w, h !! r = Some w ∧ Weapon.cost w ≤ gold)
    ∧ (∀ gold' affordable', gold ≤ gold' →
         WeaponManager.get_affordable_weapons h weapons gold' = Ok affordable' →
         affordable `sublist_of` affordable')
    ∧ ((∀ r w, r ∈ weapons → h !! r = Some w → gold < Weapon.cost w) →
         affordable = [])
    ∧ (∀ weapon_type, ∃ of_type,
         WeaponManager.get_weapons_by_type h weapons weapon_type = Ok of_type
         ∧ of_type `sublist_of` weapons
         ∧ ∀ r, r ∈ of_type ↔
                r ∈ weapons
                ∧ ∃ w, h !! r = Some w ∧ Weapon.weapon_type w = weapon_type).
Proof.
  intros Hlive. eexists. split; [by apply select_live|].
  split; [apply matching_sublist|]. split; [|split; [|split]].
  - intros r. rewrite matching_elem.
    split; intros [Hr (w & Hw & Hc)]; (split; [done|]); exists w;
      (split; [done|]); by apply Z.leb_le.
  - intros gold' affordable' Hle Ha.
    unfold WeaponManager.get_affordable_weapons in Ha.
    rewrite select_live in Ha by done. injection Ha as <-.
    apply matching_mono. intros w Hw. apply Z.leb_le in Hw. apply Z.leb_le. lia.
  - intros Hcost.
    destruct (matching _ h weapons) as [|r l] eqn:E; [done|].
    assert (r ∈ matching (λ w, Weapon.cost w <=? gold) h weapons) as Hr
      by (rewrite E; left).
    apply matching_elem in Hr as (Hr & w & Hw & Hc). apply Z.leb_le in Hc.
    specialize (Hcost r w Hr Hw). lia.
  - intros weapon_type. eexists. split; [by apply select_live|].
    split; [apply matching_sublist|].
    intros r. rewrite matching_elem.
    split; intros [Hr (w & Hw & Hc)]; (split; [done|]); exists w;
      (split; [done|]); by apply String.eqb_eq.
Qed.

Lemma affordable_weapons_witness :
  WeaponManager.get_affordable_weapons armory catalogue 40
  = Ok [1%positive; 2%positive]
  ∧ [1%positive; 2%positive] `sublist_of` catalogue.
Proof.
  assert (live armory catalogue) as Hlive.
  { refine (proj2 (catalogue_live armory) _).
    repeat split; eexists; reflexivity. }
  destruct (affordable_weapons armory catalogue 40 Hlive)
    as (affordable & Ha & Hsub & _).
  assert (affordable = [1%positive; 2%positive]) as ->
    by (vm_compute in Ha; by injection Ha as <-).
  split; [reflexivity|exact Hsub].
Defined.

(** ** Saving, deleting and looking for the save file *)

Lemma save_game_written s moves :
  (∀ r, carried (SaveManager.player s) r → is_Some (SaveManager.store s !! r)) →
  SaveManager.save_game moves None s
  = (Ok true,
     SaveManager.mk (SaveManager.player s) (SaveManager.world s)
       (SaveManager.store s)
       (SaveManager.Holds
          (saved_record (SaveManager.store s) (SaveManager.player s)
             (SaveManager.world s) moves))
       (SaveManager.out s ++ [SaveManager.SavedMsg])).
Proof.
  intros Hlive. unfold SaveManager.save_game. run_M.
  by rewrite build_save_data_carried.
Qed.

(** X17. A save whose write succeeds returns [True], leaves a file that
    [save_exists] finds, and changes nothing of the player, the world and the
    weapons; a save whose write fails returns [False] and changes nothing of
    them either.  [delete_save] then returns [True] and removes the file:
    after it [save_exists] is [False], a second [delete_save] returns [False],
    and [load_game] returns [None] with the message that there is no save
    file, leaving the player, the world and the weapons as they are.  When
    the removal fails, [delete_save] returns [False] and the file stays. *)
Theorem save_then_delete (weapons : WeaponManager.t) (s : SaveManager.session)
  (moves : Z) :
  (∀ r, carried (SaveManager.player s) r → is_Some (SaveManager.store s !! r)) →
  let saved := SaveManager.save_game moves None s in
  let deleted := SaveManager.delete_save false saved.2 in
  saved.1 = Ok true
  ∧ SaveManager.player saved.2 = SaveManager.player s
  ∧ SaveManager.world saved.2 = SaveManager.world s
  ∧ SaveManager.store saved.2 = SaveManager.store s
  ∧ (SaveManager.save_exists saved.2).1 = Ok true
  ∧ (∀ remains,
       let failed := SaveManager.save_game moves (Some remains) s in
       failed.1 = Ok false
       ∧ SaveManager.player failed.2 = SaveManager.player s
       ∧ SaveManager.world failed.2 = SaveManager.world s
       ∧ SaveManager.store failed.2 = SaveManager.store s)
  ∧ SaveManager.delete_save true saved.2 = (Ok false, saved.2)
  ∧ deleted.1 = Ok true
  ∧ (SaveManager.save_exists deleted.2).1 = Ok false
  ∧ SaveManager.delete_save false deleted.2 = (Ok false, deleted.2)
  ∧ SaveManager.load_game weapons deleted.2
    = (Ok None,
       SaveManager.mk (SaveManager.player s) (SaveManager.world s)
         (SaveManager.store s) SaveManager.Absent
         (SaveManager.out s
            ++ [SaveManager.SavedMsg; SaveManager.NoSaveFileMsg])).
Proof.
  intros Hlive. cbv zeta. rewrite save_game_written by done. cbn.
  repeat (split; [done|]). split.
  { intros remains. unfold SaveManager.save_game. run_M.
    by rewrite build_save_data_carried. }
  repeat (split; [done|]).
  unfold SaveManager.load_game, SaveManager.delete_save, SaveManager.write_file.
  run_M. by rewrite <- ?app_assoc.
Qed.

Lemma save_then_delete_witness :
  let s := SaveManager.mk (equipped_hero 1) empty_world armory
             SaveManager.Absent [] in
  let saved := SaveManager.save_game 3 None s in
  let deleted := SaveManager.delete_save false saved.2 in
  (SaveManager.save_exists saved.2).1 = Ok true
  ∧ deleted.1 = Ok true
  ∧ (SaveManager.save_exists deleted.2).1 = Ok false
  ∧ (SaveManager.load_game catalogue deleted.2).1 = Ok None.
Proof.
  intros s saved deleted.
  assert (∀ r, carried (SaveManager.player s) r
               → is_Some (SaveManager.store s !! r)) as Hlive.
  { intros r [Hr|Hr]; [injection Hr as <-; by eexists|].
    by apply elem_of_nil in Hr. }
  destruct (save_then_delete catalogue s 3 Hlive)
    as (_ & _ & _ & _ & Hexists & _ & _ & Hdel & Hgone & _ & Hload).
  split; [exact Hexists|]. split; [exact Hdel|]. split; [exact Hgone|].
  fold saved deleted in Hload. by rewrite Hload.
Defined.

(** ** Loading weapons the catalogue does not have *)

Lemma load_equipped_unknown h weapons p moves inventory_data s :
  (∀ r, Character.equipped_weapon p = Some r →
        unknown h weapons (SaveManager.store s) r) →
  SaveManager.load_equipped
    (SaveManager.player_data p moves (equipped_json h p) inventory_data)
    weapons s
  = (Ok (),
     SaveManager.mk
       (match Character.equipped_weapon p with
        | Some _ => SaveManager.player s
        | None => Character.set_equipped_weapon None (SaveManager.player s)
        end)
       (SaveManager.world s) (SaveManager.store s) (SaveManager.disk s)
       (SaveManager.out s
          ++ match Character.equipped_weapon p with
             | Some r =>
                 match h !! r with
                 | Some w => [SaveManager.WeaponNotFoundMsg (Weapon.name w)]
                 | None => []
                 end
             | None => []
             end)).
Proof.
  intros Hun. unfold equipped_json.
  destruct (Character.equipped_weapon p) as [r|] eqn:E.
  - destruct (Hun r eq_refl) as (w & Hw & Hfind). rewrite Hw.
    unfold SaveManager.load_equipped. run_M. rewrite Hfind. reflexivity.
  - unfold SaveManager.load_equipped. run_M. by rewrite app_nil_r.
Qed.

Lemma load_items_unknown h weapons inventory : ∀ s,
  (∀ r, WeaponItem r ∈ inventory → unknown h weapons (SaveManager.store s) r) →
  SaveManager.load_items (item_json h <$> inventory) weapons s
  = (Ok (),
     SaveManager.mk
       (Character.set_inventory
          (Character.inventory (SaveManager.player s) ++ plain_items inventory)
          (SaveManager.player s))
       (SaveManager.world s) (SaveManager.store s) (SaveManager.disk s)
       (SaveManager.out s)).
Proof.
  induction inventory as [|i inventory IH]; intros s Hun.
  - cbn. rewrite app_nil_r. by destruct s as [[] ? ? ? ?].
  - assert (∀ s', SaveManager.store s' = SaveManager.store s →
      ∀ r, WeaponItem r ∈ inventory
           → unknown h weapons (SaveManager.store s') r) as Hun'
      by (intros s' -> r Hr; apply Hun; by right).
    cbn [fmap list_fmap SaveManager.load_items].
    destruct i as [r|str].
    + destruct (Hun r) as (w & Hw & Hfind); [left|].
      erewrite M_bind_step; cycle 1.
      { cbn. rewrite Hw. unfold SaveManager.load_item. run_M.
        rewrite Hfind. reflexivity. }
      rewrite IH by (by apply Hun'). cbn. by destruct s as [[] ? ? ? ?].
    + erewrite M_bind_step; cycle 1.
      { cbn. unfold SaveManager.load_item. run_M. reflexivity. }
      rewrite IH by (by apply Hun'). cbn. by rewrite <- app_assoc.
Qed.

Lemma load_body_unknown h weapons p w moves s :
  (∀ r, carried p r → unknown h weapons (SaveManager.store s) r) →
  SaveManager.disk s = SaveManager.Holds (saved_record h p w moves) →
  SaveManager.load_body weapons s
  = (Ok (Some (JInt moves)),
     SaveManager.mk
       (Character.set_inventory (plain_items (Character.inventory p))
          (Character.set_equipped_weapon
             (match Character.equipped_weapon p with
              | Some _ => Character.equipped_weapon (SaveManager.player s)
              | None => None
              end) p))
       (World.set_discovered (World.discovered w) (SaveManager.world s))
       (SaveManager.store s) (SaveManager.disk s)
       ((SaveManager.out s
           ++ match Character.equipped_weapon p with
              | Some r =>
                  match h !! r with
                  | Some w => [SaveManager.WeaponNotFoundMsg (Weapon.name w)]
                  | None => []
                  end
              | None => []
              end)
          ++ [SaveManager.LoadedMsg])).
Proof.
  intros Hun Hdisk. unfold SaveManager.load_body.
  rewrite (M_bind_step _ _ s s s) by done.
  rewrite (M_bind_step _ _ s (saved_record h p w moves) s)
    by (unfold SaveManager.lift; by rewrite Hdisk).
  erewrite M_bind_step by reflexivity.
  erewrite M_bind_step by apply load_scalars_saved.
  erewrite M_bind_step;
    [|apply (load_equipped_unknown h); intros r Hr; apply Hun; by left].
  erewrite M_bind_step; cycle 1.
  { unfold SaveManager.load_inventory.
    erewrite M_bind_step by reflexivity.
    erewrite M_bind_step by reflexivity.
    apply (load_items_unknown h). intros r Hr. apply Hun. by right. }
  erewrite M_bind_step by apply load_world_saved.
  erewrite M_bind_step by reflexivity.
  run_M. rewrite Hdisk.
  destruct p; cbn; by destruct equipped_weapon.
Qed.

(** X18. A save is loaded against a catalogue that has none of the names of
    the weapons the saved character held, as when the list of weapons could
    not be read.  The load succeeds and returns the saved move count.  The
    weapons of the inventory are dropped without a message and the plain
    items are kept in order.  For the equipped weapon a warning is printed
    and [equipped_weapon] is left as it was in the character loaded into,
    while [attack] is the saved value: loaded into a new character, the
    result holds no weapon but attacks with the bonus of the lost one.  No
    weapon of the store is changed. *)
Theorem load_unknown_weapons (weapons : WeaponManager.t)
  (s : SaveManager.session) (h : heap) (p : Character.t) (w : World.t)
  (moves : Z) :
  (∀ r, carried p r → unknown h weapons (SaveManager.store s) r) →
  SaveManager.disk s = SaveManager.Holds (saved_record h p w moves) →
  ∃ s',
    SaveManager.load_game weapons s = (Ok (Some (JInt moves)), s')
    ∧ SaveManager.player s'
      = Character.set_inventory (plain_items (Character.inventory p))
          (Character.set_equipped_weapon
             (match Character.equipped_weapon p with
              | Some _ => Character.equipped_weapon (SaveManager.player s)
              | None => None
              end) p)
    ∧ SaveManager.store s' = SaveManager.store s
    ∧ World.discovered (SaveManager.world s') = World.discovered w
    ∧ (∀ r w0, Character.equipped_weapon p = Some r → h !! r = Some w0 →
         SaveManager.out s'
         = SaveManager.out s
             ++ [SaveManager.WeaponNotFoundMsg (Weapon.name w0);
                 SaveManager.LoadedMsg])
    ∧ (Character.equipped_weapon p = None →
         SaveManager.out s' = SaveManager.out s ++ [SaveManager.LoadedMsg])
    ∧ (∀ r, Character.equipped_weapon p = Some r → attack_derived h p →
         Character.equipped_weapon (SaveManager.player s) = None →
         Character.attack (SaveManager.player s') = Character.attack p
         ∧ ¬ attack_derived (SaveManager.store s') (SaveManager.player s')).
Proof.
  intros Hun Hdisk.
  pose proof (load_body_unknown h weapons p w moves s Hun Hdisk) as Hbody.
  eexists. split.
  { unfold SaveManager.load_game. rewrite (M_bind_step _ _ s s s) by done.
    rewrite Hdisk. unfold SaveManager.try_except.
    rewrite Hbody. reflexivity. }
  cbn. split; [done|]. split; [done|]. split; [done|].
  split; [|split].
  - intros r w0 Hr Hw0. rewrite Hr, Hw0. by rewrite <- app_assoc.
  - intros Hr. rewrite Hr. by rewrite app_nil_r.
  - intros r Hr Hd Hnone. split; [done|].
    unfold attack_derived in *. cbn. rewrite Hr in Hd |- *. rewrite Hnone.
    destruct Hd as (w0 & _ & Hadd). intros Hbase. rewrite Hbase in Hadd.
    cbn in Hadd. by destruct (float_of_int _).
Qed.

Lemma load_unknown_weapons_witness :
  ∃ s',
    SaveManager.load_game []
      (SaveManager.mk (Character.init "Temp" 100 15 5) empty_world ∅
         (SaveManager.Holds (saved_record armory sword_owner empty_world 7)) [])
    = (Ok (Some (JInt 7)), s')
    ∧ Character.inventory (SaveManager.player s') = [PlainItem "Potion"]
    ∧ Character.equipped_weapon (SaveManager.player s') = None
    ∧ Character.base_attack (SaveManager.player s') = 15
    ∧ Character.attack (SaveManager.player s')
      = PyFloat (S754_finite false 5629499534213120 (-48))
    ∧ SaveManager.out s'
      = [SaveManager.WeaponNotFoundMsg "Rusty Sword"; SaveManager.LoadedMsg].
Proof.
  destruct (load_unknown_weapons []
              (SaveManager.mk (Character.init "Temp" 100 15 5) empty_world ∅
                 (SaveManager.Holds
                    (saved_record armory sword_owner empty_world 7)) [])
              armory sword_owner empty_world 7)
    as (s' & Hload & Hp & _ & _ & Hout & _).
  - intros r Hr. exists rusty_sword. split; [|done].
    destruct Hr as [Hr|Hr]; [by injection Hr as <-|].
    apply list_elem_of_In in Hr. by destruct Hr as [[= <-]|[[=]|[]]].
  - reflexivity.
  - exists s'. split; [exact Hload|]. rewrite Hp.
    repeat (split; [reflexivity|]).
    exact (Hout 1%positive rusty_sword eq_refl eq_refl).
Defined.

(** ** A load that fails half-way *)

Lemma M_bind_raise {A B : Type} (m : SaveManager.M A) (k : A → SaveManager.M B)
  s e s1 :
  m s = (Raise e, s1) → (m ≫= k) s = (Raise e, s1).
Proof. intros H. unfold mbind, SaveManager.M_bind. by rewrite H. Qed.

(** X19. [load_game] is not undone when it fails.  Take a record that
    holds the player as [save_game] writes it but has no key [world], saved
    from a store with the weapons of the store loaded into, up to their
    durability; the names of the catalogue are ASCII, and each weapon the
    saved player holds is the weapon the catalogue returns for its name, as
    it is when no two weapons of the catalogue share a name.  The load
    returns [None] and prints the error, yet the character loaded into has
    already become the saved one, and the weapons of the catalogue it holds
    have already been given their saved durability; only the world is as
    before. *)
Theorem failed_load_keeps_changes (weapons : WeaponManager.t)
  (s : SaveManager.session) (h : heap) (p : Character.t) (moves : Z)
  (fields : list (string * json)) :
  ascii_names h weapons →
  same_definitions h (SaveManager.store s) →
  (∀ r, carried p r → own_entry h weapons r) →
  lookup_key "player" fields
    = Some (SaveManager.player_data p moves (equipped_json h p)
              (item_json h <$> Character.inventory p)) →
  lookup_key "world" fields = None →
  SaveManager.disk s = SaveManager.Holds (JObj fields) →
  ∃ s',
    SaveManager.load_game weapons s = (Ok None, s')
    ∧ SaveManager.player s' = p
    ∧ (∀ r, carried p r → SaveManager.store s' !! r = h !! r)
    ∧ SaveManager.world s' = SaveManager.world s
    ∧ SaveManager.out s'
      = SaveManager.out s ++ [SaveManager.LoadErrorMsg (KeyError "world")].
Proof.
  intros _ Hs Hin Hplayer Hworld Hdisk.
  assert (SaveManager.load_body weapons s
          = (Raise (KeyError "world"),
             SaveManager.mk p (SaveManager.world s)
               (SaveManager.store (loaded h p (SaveManager.world s) s))
               (SaveManager.disk s) (SaveManager.out s))) as Hbody.
  { unfold SaveManager.load_body.
    rewrite (M_bind_step _ _ s s s) by done.
    rewrite (M_bind_step _ _ s (JObj fields) s)
      by (unfold SaveManager.lift; by rewrite Hdisk).
    erewrite M_bind_step
      by (unfold SaveManager.lift, subscript; by rewrite Hplayer).
    erewrite M_bind_step by apply load_scalars_saved.
    erewrite M_bind_step;
      [|apply (load_equipped_saved h); [done|intros r Hr; apply Hin; by left]].
    erewrite M_bind_step; cycle 1.
    { unfold SaveManager.load_inventory.
      erewrite M_bind_step by reflexivity.
      erewrite M_bind_step by reflexivity.
      apply (load_items_saved h); [|intros r Hr; apply Hin; by right].
      by apply same_definitions_assigns. }
    erewrite M_bind_raise; cycle 1.
    { unfold SaveManager.load_world.
      apply M_bind_raise. unfold SaveManager.lift, subscript.
      by rewrite Hworld. }
    cbn. by destruct p. }
  eexists. split.
  { unfold SaveManager.load_game. rewrite (M_bind_step _ _ s s s) by done.
    rewrite Hdisk. unfold SaveManager.try_except.
    rewrite Hbody. run_M. reflexivity. }
  cbn. split; [done|]. split; [|done].
  intros r Hr. by apply (loaded_carried h weapons p (SaveManager.world s) s).
Qed.

Lemma failed_load_keeps_changes_witness :
  let record :=
    [("player",
      SaveManager.player_data sword_owner 7 (equipped_json worn_armory sword_owner)
        (item_json worn_armory <$> Character.inventory sword_owner))] in
  ∃ s',
    SaveManager.load_game catalogue
      (SaveManager.mk (Character.init "Temp" 100 15 5) empty_world armory
         (SaveManager.Holds (JObj record)) [])
    = (Ok None, s')
    ∧ SaveManager.player s' = sword_owner
    ∧ Weapon.durability <$> armory !! 1%positive = Some 2
    ∧ Weapon.durability <$> SaveManager.store s' !! 1%positive = Some 1.
Proof.
  intros record.
  destruct (failed_load_keeps_changes catalogue
              (SaveManager.mk (Character.init "Temp" 100 15 5) empty_world armory
                 (SaveManager.Holds (JObj record)) [])
              worn_armory sword_owner 7 record)
    as (s' & Hload & Hp & Hstore & _).
  - exact worn_armory_ascii.
  - exact worn_armory_definitions.
  - intros r Hr. apply catalogue_own; [exact worn_armory_ok|].
    destruct Hr as [Hr|Hr].
    + injection Hr as <-. repeat constructor.
    + apply list_elem_of_In in Hr.
      destruct Hr as [[= <-]|[[=]|[]]]. repeat constructor.
  - reflexivity.
  - reflexivity.
  - reflexivity.
  - exists s'. split; [exact Hload|]. split; [exact Hp|].
    split; [reflexivity|]. rewrite Hstore; [reflexivity|]. by left.
Defined.

(** ** Reading the list of weapons *)

Section LoadWeaponsProperties.

Variable float_str : string → option spec_float.
Variable int_str : string → option Z.

Lemma read_lines_app lines1 lines2 weapons h :
  read_lines float_str int_str (lines1 ++ lines2) weapons h
  = match read_lines float_str int_str lines1 weapons h with
    | (weapons1, h1, None) => read_lines float_str int_str lines2 weapons1 h1
    | stopped => stopped
    end.
Proof.
  revert weapons h. induction lines1 as [|line lines1 IH]; intros weapons h.
  - reflexivity.
  - cbn [app read_lines].
    destruct (read_line float_str int_str line weapons h) as [[weapons1 h1]|e];
      [apply IH|reflexivity].
Qed.

Lemma read_line_skipped line weapons h :
  skipped line → read_line float_str int_str line weapons h = Ok (weapons, h).
Proof.
  unfold skipped, read_line. cbv zeta. intros [E|[E|E]].
  - by rewrite E.
  - rewrite E. by rewrite orb_true_r.
  - apply Nat.eqb_neq in E. rewrite E. by destruct (_ || _).
Qed.

Lemma new_weapon_full parts w :
  new_weapon float_str int_str parts = Ok w →
  Weapon.durability w = Weapon.max_durability w.
Proof.
  unfold new_weapon.
  destruct (strip <$> parts) as [|? [|? [|? [|? [|? [|? [|? [|? [|? ?]]]]]]]]];
    try done.
  intros H. apply bind_Ok in H as (a & _ & H). apply bind_Ok in H as (d & _ & H).
  apply bind_Ok in H as (c & _ & [= <-]). done.
Qed.

Lemma grown_refl weapons h : grown weapons h weapons h 0.
Proof.
  exists []. rewrite app_nil_r. split; [done|]. split; [constructor|].
  split; [done|]. split; [|done]. intros r Hr. by apply elem_of_nil in Hr.
Qed.

Lemma grown_mono weapons h weapons' h' n m :
  grown weapons h weapons' h' n → (n ≤ m)%nat → grown weapons h weapons' h' m.
Proof.
  intros (new & E & Hdup & Hlen & Hnew & Hsub) Hle. exists new.
  split; [done|]. split; [done|]. split; [lia|]. by split.
Qed.

Lemma grown_trans weapons h weapons1 h1 weapons2 h2 n1 n2 :
  grown weapons h weapons1 h1 n1 → grown weapons1 h1 weapons2 h2 n2 →
  grown weapons h weapons2 h2 (n1 + n2).
Proof.
  intros (new1 & -> & Hdup1 & Hlen1 & Hnew1 & Hsub1)
         (new2 & -> & Hdup2 & Hlen2 & Hnew2 & Hsub2).
  exists (new1 ++ new2). split; [by rewrite app_assoc|]. split.
  { apply NoDup_app. split; [done|]. split; [|done].
    intros r Hr1 Hr2. destruct (Hnew1 r Hr1) as (_ & w & Hw & _).
    destruct (Hnew2 r Hr2) as (Hnone & _). congruence. }
  split; [rewrite length_app; lia|]. split; [|by etrans].
  intros r Hr. apply elem_of_app in Hr as [Hr|Hr].
  - destruct (Hnew1 r Hr) as (Hnone & w & Hw & Hfull). split; [done|].
    exists w. split; [|done]. by eapply lookup_weaken.
  - destruct (Hnew2 r Hr) as (Hnone & Hw). split; [|done].
    by eapply lookup_weaken_None.
Qed.

Lemma read_line_grown line weapons h weapons' h' :
  read_line float_str int_str line weapons h = Ok (weapons', h') →
  grown weapons h weapons' h' 1.
Proof.
  assert (grown weapons h weapons h 1) as Hsame
    by (apply grown_mono with 0%nat; [apply grown_refl|lia]).
  unfold read_line. cbv zeta.
  destruct (_ || _); [by intros [= <- <-]|].
  destruct (_ =? _)%nat; [|by intros [= <- <-]].
  intros H. apply bind_Ok in H as (w & Hw & [= <- <-]).
  apply new_weapon_full in Hw.
  assert (h !! fresh (dom h) = None) as Hfresh
    by (apply not_elem_of_dom, is_fresh).
  exists [fresh (dom h)]. split; [done|]. split; [apply NoDup_singleton|].
  split; [done|]. split; [|by apply insert_subseteq].
  intros r Hr. apply list_elem_of_singleton in Hr as ->. split; [done|].
  exists w. by rewrite lookup_insert_eq.
Qed.

Lemma read_lines_grown lines : ∀ weapons h weapons' h' e,
  read_lines float_str int_str lines weapons h = (weapons', h', e) →
  grown weapons h weapons' h' (length lines).
Proof.
  induction lines as [|line lines IH]; intros weapons h weapons' h' e H.
  - injection H as <- <- <-. apply grown_refl.
  - cbn [read_lines] in H.
    destruct (read_line float_str int_str line weapons h)
      as [[weapons1 h1]|e1] eqn:Hline.
    + apply (grown_trans _ _ weapons1 h1 _ _ 1 (length lines));
        [by eapply read_line_grown|by eapply IH].
    + injection H as <- <- <-.
      apply grown_mono with 0%nat; [apply grown_refl|lia].
Qed.

(** X20. [load_weapons] only appends to the catalogue, at most one weapon
    for each line of the file, never raises, and prints the number of
    weapons or an error.  Each weapon it appends is a new object, distinct
    from the others and from every object there was before, with
    [durability] equal to [max_durability].  The objects there were before
    are unchanged. *)
Theorem load_weapons_objects (lines : list string) (weapons weapons' : list loc)
  (h h' : heap) (message : weapons_message) :
  load_weapons float_str int_str (Text lines) weapons h
    = (weapons', h', message) →
  grown weapons h weapons' h' (length lines)
  ∧ (live h weapons → live h' weapons')
  ∧ (message = LoadedWeapons (length weapons') ∨ ∃ e, message = WeaponsError e).
Proof.
  unfold load_weapons. intros H.
  destruct (read_lines float_str int_str lines weapons h)
    as [[weapons1 h1] e] eqn:Hlines.
  injection H as <- <- <-.
  pose proof (read_lines_grown _ _ _ _ _ _ Hlines) as Hgrown.
  split; [done|]. split; [|destruct e; eauto].
  destruct Hgrown as (new & -> & _ & _ & Hnew & Hsub).
  intros Hlive r Hr. apply elem_of_app in Hr as [Hr|Hr].
  - destruct (Hlive r Hr) as [w Hw]. exists w. by eapply lookup_weaken.
  - destruct (Hnew r Hr) as (_ & w & Hw & _). by exists w.
Qed.

(** X21. A line that is blank, that starts with [#], or that does not have
    eight fields between its bars is passed over: the file without it loads
    the same.  A line of eight fields whose attack is not a float, or whose
    durability or cost is not an integer, ends the loading with an error:
    the weapons of the lines before it stay in the catalogue and the lines
    after it are not read. *)
Theorem load_weapons_lines (pre post : list string) (line : string)
  (weapons : list loc) (h : heap) :
  (skipped line →
     load_weapons float_str int_str (Text (pre ++ line :: post)) weapons h
     = load_weapons float_str int_str (Text (pre ++ post)) weapons h)
  ∧ (¬ skipped line →
     float_str (field line 1) = None ∨ int_str (field line 3) = None
     ∨ int_str (field line 4) = None →
     ∀ weapons1 h1 message,
       load_weapons float_str int_str (Text pre) weapons h
         = (weapons1, h1, message) →
       (message = LoadedWeapons (length weapons1) →
          load_weapons float_str int_str (Text (pre ++ line :: post)) weapons h
          = (weapons1, h1, WeaponsError ValueError))
       ∧ ((∃ e, message = WeaponsError e) →
            load_weapons float_str int_str (Text (pre ++ line :: post))
              weapons h
            = (weapons1, h1, message))).
Proof.
  split.
  - intros Hskip. unfold load_weapons. rewrite !read_lines_app.
    destruct (read_lines float_str int_str pre weapons h)
      as [[weapons1 h1] [e|]]; [done|].
    cbn [read_lines]. by rewrite read_line_skipped.
  - intros Hread Hbad weapons1 h1 message Hpre.
    assert (∀ ws hs, read_line float_str int_str line ws hs = Raise ValueError)
      as Hline.
    { intros ws hs. unfold skipped in Hread. unfold read_line. cbv zeta.
      destruct (String.eqb_spec (strip line) "") as [E|E];
        [destruct Hread; by left|].
      destruct (String.prefix "#" (strip line)) eqn:Ehash;
        [destruct Hread; right; by left|].
      destruct (Nat.eqb_spec (length (split "|" (strip line))) 8) as [E8|E8];
        [|destruct Hread; right; by right].
      cbn [orb]. unfold new_weapon, field in *.
      destruct (strip <$> split "|" (strip line))
        as [|f0 [|f1 [|f2 [|f3 [|f4 [|f5 [|f6 [|f7 [|f8 fs]]]]]]]]] eqn:Ef;
        try (apply (f_equal length) in Ef; rewrite length_fmap, E8 in Ef;
             by cbn in Ef).
      cbn in Hbad. destruct Hbad as [->|[Hd|Hc]]; [done| |].
      - destruct (float_str f1); [|done]. cbn. by rewrite Hd.
      - destruct (float_str f1); [|done]. cbn.
        destruct (int_str f3); [|done]. cbn. by rewrite Hc. }
    unfold load_weapons in *. rewrite read_lines_app.
    destruct (read_lines float_str int_str pre weapons h)
      as [[weapons0 h0] [e|]]; injection Hpre as <- <- <-.
    + split; [done|]. by intros _.
    + split; [|by intros [e [=]]]. intros _. cbn [read_lines].
      by rewrite Hline.
Qed.

(** X22. When the file of weapons cannot be opened, a new [WeaponManager]
    has an empty catalogue, and the game goes on without weapons: no name is
    found, no draw gives a weapon, a treasure never holds one, and the shop
    sells nothing. *)
Theorem game_without_weapons (file : text_file) (h : heap) :
  file = NoFile ∨ file = NoAccess →
  ∃ message,
    new_manager float_str int_str file h = ([], h, message)
    ∧ (∀ n, message ≠ LoadedWeapons n)
    ∧ (∀ name, WeaponManager.get_weapon_by_name h [] name = Ok None)
    ∧ (∀ rarity n, WeaponManager.get_random_weapon h [] rarity n = Ok None)
    ∧ (∀ x n, WeaponManager.get_weighted_random_weapon h [] x n = Ok None)
    ∧ (∀ player treasure_roll x n gold_draw player',
         GameWorld.find_treasure h [] player treasure_roll x n gold_draw
           = Ok player' →
         Character.inventory player' = Character.inventory player)
    ∧ (∀ player choice confirm, shop_menu h [] player choice confirm = Ok player).
Proof.
  intros Hfile.
  assert (∀ rarity n, WeaponManager.get_random_weapon h [] rarity n = Ok None)
    as Hrandom by (by intros [[|c s]|] n).
  assert (∀ x n, WeaponManager.get_weighted_random_weapon h [] x n = Ok None)
    as Hdraw.
  { intros x n. unfold WeaponManager.get_weighted_random_weapon.
    destruct (choices_rarity x) as (chosen & -> & _). apply Hrandom. }
  exists (match file with NoFile => WeaponsNotFound | _ => WeaponsError OSError end).
  split; [by destruct Hfile as [-> | ->]|].
  split; [by destruct Hfile as [-> | ->]|].
  split; [done|]. split; [done|]. split; [done|]. split; [|done].
  intros player treasure_roll x n gold_draw player'.
  unfold GameWorld.find_treasure. rewrite Hdraw.
  destruct (Battle.Qltb _ _); [by intros [= <-]|].
  destruct (Battle.Qltb _ _); [|by intros [= <-]].
  intros H. by apply bind_Ok in H as (amount & _ & [= <-]).
Qed.

End LoadWeaponsProperties.

Lemma load_weapons_objects_witness :
  ∃ h' r1 r2,
    load_weapons sample_float sample_int (Text (take 5 sample_lines)) [] ∅
    = ([r1; r2], h', LoadedWeapons 2)
    ∧ r1 ≠ r2
    ∧ Weapon.durability <$> h' !! r1 = Weapon.max_durability <$> h' !! r1.
Proof.
  destruct (load_weapons sample_float sample_int (Text (take 5 sample_lines)) [] ∅)
    as [[weapons' h'] message] eqn:H.
  destruct (load_weapons_objects sample_float sample_int _ _ _ _ _ _ H)
    as ((new & -> & Hdup & _ & Hnew & _) & _ & _).
  assert (∃ r1 r2, new = [r1; r2] ∧ message = LoadedWeapons 2)
    as (r1 & r2 & -> & ->).
  { vm_compute in H. injection H as <- _ <-. by eexists _, _. }
  exists h', r1, r2. split; [done|]. split.
  - apply NoDup_cons in Hdup as [Hne _]. intros ->. apply Hne. by left.
  - destruct (Hnew r1) as (_ & w & -> & Hfull); [by left|]. cbn. by rewrite Hfull.
Defined.

Lemma load_weapons_lines_witness :
  ∃ weapons1 h1,
    load_weapons sample_float sample_int (Text (take 5 sample_lines)) [] ∅
    = (weapons1, h1, LoadedWeapons 2)
    ∧ load_weapons sample_float sample_int (Text sample_lines) [] ∅
      = (weapons1, h1, WeaponsError ValueError).
Proof.
  destruct (load_weapons sample_float sample_int (Text (take 5 sample_lines)) [] ∅)
    as [[weapons1 h1] message] eqn:H.
  assert (message = LoadedWeapons 2 ∧ length weapons1 = 2%nat) as [-> Hlen]
    by (vm_compute in H; by injection H as <- _ <-).
  exists weapons1, h1. split; [done|].
  destruct (load_weapons_lines sample_float sample_int (take 5 sample_lines)
              (drop 6 sample_lines)
              (String.append "Glass Dagger|sharp|Rare|2|10|Dagger|None|Brittle"
                 line_end) [] ∅) as (_ & Hbad).
  apply (Hbad ltac:(by intros [E|[E|E]]; vm_compute in E) ltac:(by left)
           weapons1 h1 (LoadedWeapons 2) H).
  by rewrite Hlen.
Defined.

Lemma game_without_weapons_witness :
  new_manager sample_float sample_int NoFile armory
  = ([], armory, WeaponsNotFound)
  ∧ shop_menu armory [] hero (Some 1) "yes" = Ok hero.
Proof.
  destruct (game_without_weapons sample_float sample_int NoFile armory)
    as (message & _ & _ & _ & _ & _ & _ & Hshop); [by left|].
  split; [reflexivity|apply Hshop].
Defined.

(** ** The loop of the game *)

Lemma attack_derived_fields h c c' :
  Character.equipped_weapon c' = Character.equipped_weapon c →
  Character.attack c' = Character.attack c →
  Character.base_attack c' = Character.base_attack c →
  attack_derived h c → attack_derived h c'.
Proof. unfold attack_derived. by intros -> -> ->. Qed.

Lemma same_definitions_live h h' weapons :
  same_definitions h h' → live h weapons → live h' weapons.
Proof.
  intros Hs Hlive r Hr. destruct (Hlive r Hr) as [w Hw].
  specialize (Hs r). rewrite Hw in Hs. by destruct (h' !! r); [eexists|].
Qed.

Lemma same_definitions_trans h1 h2 h3 :
  same_definitions h1 h2 → same_definitions h2 h3 → same_definitions h1 h3.
Proof. intros H12 H23 r. by rewrite H23, H12. Qed.

Lemma player_turn_in_order s i s1 fled :
  Battle.player_turn s i = Ok (s1, fled) → in_order s → in_order s1.
Proof.
  unfold Battle.player_turn, in_order. intros H (Hr & Hd & He & Hxp & Hg).
  destruct (String.eqb (Battle.choice i) "1").
  { apply bind_Ok in H as ([[[p e] h] d] & Ha & [= <- <-]).
    apply attack_target_Ok in Ha as (lo & hi & dmg & _ & _ & Hw & Ht).
    pose proof (take_damage_only_health (Enemy.char (Battle.enemy s)) dmg)
      as [Honly _].
    rewrite Ht in Honly. cbn in Honly. cbn.
    split; [by eapply wear_in_range|]. split; [by eapply wear_derived|].
    split; [by rewrite Honly|]. done. }
  destruct (String.eqb (Battle.choice i) "2").
  { injection H as <- <-. cbn. split; [by apply heal_in_range|]. done. }
  destruct (String.eqb (Battle.choice i) "3").
  { by destruct (Battle.Qltb _ _); injection H as <- <-. }
  by injection H as <- <-.
Qed.

Lemma enemy_turn_in_order s i s' e :
  Battle.enemy_turn s i = Ok (s', e) → in_order s → in_order s'.
Proof.
  unfold in_order. intros H (Hr & Hd & He & Hxp & Hg).
  destruct (Character.attack_target (Battle.store s)
              (Enemy.char (Battle.enemy s)) (Battle.player s)
              (Battle.enemy_roll i)) as [[[[en p] h] d]|err] eqn:Ha;
    [|unfold Battle.enemy_turn in H; by rewrite Ha in H].
  rewrite (enemy_turn_Ok s i en p h d Ha) in H.
  apply attack_target_Ok in Ha as (lo & hi & dmg & _ & _ & Hw & Ht).
  rewrite wear_unarmed in Hw by done. injection Hw as <- <-.
  assert (p = (Character.take_damage (Battle.player s) dmg).1) as ->
    by (by rewrite Ht).
  assert (in_range (Character.take_damage (Battle.player s) dmg).1)
    by (by apply take_damage_in_range).
  destruct (Character.is_alive _); injection H as <- <-; cbn; done.
Qed.

Lemma victory_in_order s s' e :
  Battle.victory s = Ok (s', e) → in_order s → in_order s'.
Proof.
  unfold Battle.victory, in_order. intros H (Hr & Hd & He & Hxp & Hg).
  apply bind_Ok in H as (p & Hgain & [= <- <-]). cbn.
  pose proof (gain_experience_in_range _ _ _ _ Hxp Hgain Hr) as Hp.
  unfold Character.gain_experience in Hgain.
  apply level_up_loop_derived in Hgain; [|done].
  split; [|done]. unfold in_range, Character.add_gold in *. cbn. lia.
Qed.

Lemma round_in_order s i s' e :
  Battle.round s i = Ok (s', e) → in_order s → in_order s'.
Proof.
  unfold Battle.round. intros H Hs.
  apply bind_Ok in H as ([s1 fled] & Hturn & H).
  apply player_turn_in_order in Hturn; [|done].
  destruct fled; [by injection H as <- <-|].
  destruct (negb _); [by eapply victory_in_order|by eapply enemy_turn_in_order].
Qed.

Lemma loop_in_order inputs : ∀ s s' e,
  Battle.loop inputs s = Ok (s', e) → in_order s → in_order s'.
Proof.
  induction inputs as [|i inputs IH]; intros s s' e H Hs; cbn in H.
  - by destruct (Battle.guard s); injection H as <- <-.
  - destruct (Battle.guard s); [|by injection H as <- <-].
    apply bind_Ok in H as ([s1 [e1|]] & Hr & H);
      apply round_in_order in Hr; try done.
    + by injection H as <- <-.
    + by eapply IH.
Qed.

Lemma enemy_types_fresh :
  Forall (λ data, fresh_enemy (GameWorld.make_enemy data)) GameWorld.enemy_types.
Proof.
  unfold GameWorld.enemy_types, fresh_enemy.
  repeat (constructor; [cbn; repeat split; try done; lia|]). constructor.
Qed.

Lemma random_encounter_fresh player n enemy :
  GameWorld.random_encounter player n = Some enemy → fresh_enemy enemy.
Proof.
  unfold GameWorld.random_encounter. intros H.
  assert (∀ stop, Forall (λ data, fresh_enemy (GameWorld.make_enemy data))
                    (slice_to GameWorld.enemy_types stop)) as Hall.
  { intros stop. unfold slice_to.
    destruct (stop <? 0); apply Forall_take, enemy_types_fresh. }
  specialize (Hall (Z.min (Z.of_nat (length GameWorld.enemy_types) - 1)
                      (Character.level player) + 1)).
  destruct (slice_to _ _) as [|c cs]; [done|].
  destruct (choice (c :: cs) n) as [data|] eqn:Hc; [|done].
  injection H as <-. rewrite Forall_forall in Hall. apply Hall.
  by eapply list_elem_of_lookup_2.
Qed.

(** The four things [find_treasure] can do. *)
Lemma find_treasure_Ok h weapons player treasure_roll x n gold_draw player' :
  GameWorld.find_treasure h weapons player treasure_roll x n gold_draw
    = Ok player' →
  player' = player
  ∨ (∃ r, r ∈ weapons
          ∧ player'
            = Character.set_inventory
                (Character.inventory player ++ [WeaponItem r]) player)
  ∨ (∃ amount, 20 ≤ amount ≤ 100 ∧ player' = Character.add_gold player amount)
  ∨ player' = Character.heal player 30.
Proof.
  unfold GameWorld.find_treasure. intros H.
  destruct (Battle.Qltb treasure_roll double_0_3).
  - apply bind_Ok in H as (weapon & Hdraw & H).
    destruct weapon as [r|]; injection H as <-; [|by left].
    right. left. exists r. split; [|done].
    unfold WeaponManager.get_weighted_random_weapon in Hdraw.
    apply bind_Ok in Hdraw as (chosen & _ & Hdraw).
    by apply get_random_weapon_Some in Hdraw.
  - destruct (Battle.Qltb treasure_roll double_0_6).
    + apply bind_Ok in H as (amount & Hr & [= <-]).
      apply randint_range in Hr. right. right. left. by exists amount.
    + injection H as <-. by repeat right.
Qed.

(** What the player may become in a pass of the loop, the position
    aside. *)
Lemma sound_player weapons s p :
  sound weapons s →
  in_range p →
  attack_derived (Game.store s) p →
  Character.position p = Character.position (Game.player s) →
  (∀ r, carried p r → r ∈ weapons) →
  sound weapons (Game.set_player p s).
Proof.
  intros (_ & _ & (x & y & Hpos & Hx & Hy) & Hdisc & _ & Hlive) Hr Hd Hp Hc.
  unfold sound. cbn. rewrite Hp.
  split; [done|]. split; [done|]. split; [|done].
  exists x, y. by rewrite Hp.
Qed.

Lemma find_treasure_sound weapons s t s' stop :
  Game.find_treasure weapons s t = Game.Returns (s', stop) →
  sound weapons s →
  sound weapons s' ∧ stop = false
  ∧ Game.store s' = Game.store s ∧ Game.moves_count s' = Game.moves_count s
  ∧ Game.world s' = Game.world s
  ∧ Character.health (Game.player s) ≤ Character.health (Game.player s').
Proof.
  unfold Game.find_treasure. intros H Hs.
  destruct (GameWorld.find_treasure _ _ _ _ _ _ _) as [p|e] eqn:Hfind; [|done].
  injection H as <- <-. pose proof Hs as (Hr & Hd & _ & _ & Hc & _).
  split; [|split; [done|split; [done|split; [done|split; [done|]]]]].
  - apply find_treasure_Ok in Hfind
      as [-> | [(r & Hin & ->) | [(amount & Ha & ->) | ->]]].
    + by destruct s.
    + apply sound_player; try done.
      intros r' [Hr'|Hr']; [apply Hc; by left|].
      cbn in Hr'. apply elem_of_app in Hr' as [Hr'|Hr']; [apply Hc; by right|].
      apply list_elem_of_singleton in Hr'. by injection Hr' as ->.
    + apply sound_player; try done.
      unfold in_range, Character.add_gold in *. cbn. lia.
    + apply sound_player; try done. by apply heal_in_range.
  - apply find_treasure_Ok in Hfind
      as [-> | [(r & Hin & ->) | [(amount & Ha & ->) | ->]]]; cbn; try lia.
    destruct Hr as (Hh & _). lia.
Qed.

Lemma encounter_sound weapons s i chance s' stop :
  Game.encounter weapons s i chance = Game.Returns (s', stop) →
  sound weapons s →
  sound weapons s'
  ∧ same_definitions (Game.store s) (Game.store s')
  ∧ Game.moves_count s' = Game.moves_count s
  ∧ Game.world s' = Game.world s
  ∧ (Character.is_alive (Game.player s') = false → stop = true).
Proof.
  unfold Game.encounter. intros H Hs.
  destruct (GameWorld.random_encounter _ _) as [enemy|] eqn:Henemy; [|done].
  apply random_encounter_fresh in Henemy
    as (_ & _ & Hunarmed & _ & _ & Hxp & Hgold).
  destruct (Battle.battle _ _ _ _) as [[b [exit|]]|e] eqn:Hbattle; try done.
  unfold Battle.battle in Hbattle.
  pose proof Hs as (Hr & Hd & (x & y & Hpos & Hx & Hy) & Hdisc & Hc & Hlive).
  pose proof (loop_leaves_alone _
                (Battle.mk (Game.player s) enemy (Game.store s) 1 []) _ _
                Hunarmed Hbattle)
    as (_ & Hdef & Hinv & _ & Hposition & Hequipped & _).
  cbn in Hdef, Hinv, Hposition, Hequipped.
  apply loop_in_order in Hbattle as (Hr' & Hd' & _);
    [|split; [exact Hr|]; split; [exact Hd|]; split; [exact Hunarmed|];
      cbn; lia].
  set (s1 := Game.mk (Battle.player b) (Game.world s) (Battle.store b)
               (Game.disk s) (Game.moves_count s)) in *.
  assert (sound weapons s1) as Hs1.
  { unfold sound, s1. cbn. rewrite Hposition.
    split; [done|]. split; [done|].
    split; [exists x, y; by rewrite Hposition|]. split; [done|].
    split; [|by eapply same_definitions_live].
    intros r [Hr1|Hr1]; apply Hc.
    - destruct Hequipped as [E|E]; rewrite E in Hr1; [by left|done].
    - right. by rewrite <- Hinv. }
  cbv zeta in H. fold s1 in H.
  change (Game.player s1) with (Battle.player b) in H.
  destruct (Character.is_alive (Battle.player b)) eqn:Halive; cbn [negb] in H.
  - destruct (_ && _).
    + apply find_treasure_sound in H
        as (Hs' & -> & Hstore & Hmoves & Hworld & Hhealth); [|done].
      split; [done|]. split; [by rewrite Hstore|]. split; [done|].
      split; [done|]. intros Hdead.
      exfalso. unfold Character.is_alive in *.
      apply Z.ltb_lt in Halive. apply Z.ltb_ge in Hdead. cbn in Hhealth. lia.
    + injection H as <- <-.
      split; [exact Hs1|]. split; [exact Hdef|]. split; [done|]. split; [done|].
      intros Hdead. change (Game.player s1) with (Battle.player b) in Hdead.
      congruence.
  - injection H as <- <-.
    split; [exact Hs1|]. split; [exact Hdef|]. by split.
Qed.

Lemma inventory_loop_rearmed h choices : ∀ p p' left,
  inventory_loop h p choices = Ok (p', left) → rearmed h p p'.
Proof.
  induction choices as [|choice choices IH]; intros p p' left H.
  - injection H as <- <-. apply rearmed_refl.
  - cbn in H. apply bind_Ok in H as ([p1 leave] & Hc & H).
    apply inventory_choice_rearmed in Hc.
    destruct leave; [by injection H as <- <-|].
    apply rearmed_trans with p1; [done|]. by eapply IH.
Qed.

Lemma rearmed_sound weapons s p :
  rearmed (Game.store s) (Game.player s) p → sound weapons s →
  sound weapons (Game.set_player p s).
Proof.
  intros Hre Hs. pose proof Hs as (Hr & Hd & _ & _ & Hc & _).
  pose proof Hre as [E Hcases].
  apply sound_player; [done|by rewrite E|by eapply rearmed_derived|by rewrite E|].
  intros r [Hr1|Hr1]; apply Hc.
  - destruct Hcases as [->|[[He _]|(r' & w & He & Hin & _)]].
    + by left.
    + congruence.
    + rewrite He in Hr1. injection Hr1 as <-. by right.
  - right. by rewrite E in Hr1.
Qed.

Lemma new_game_sound weapons h disk typed_name s :
  live h weapons →
  Game.new_game weapons h disk typed_name = Ok s →
  sound weapons s ∧ Game.store s = h ∧ Game.moves_count s = 0
  ∧ Character.is_alive (Game.player s) = true.
Proof.
  unfold Game.new_game. cbv zeta. intros Hlive H.
  apply bind_Ok in H as (starting_weapon & Hfind & H).
  apply bind_Ok in H as (p & Hp & [= <-]).
  set (name := if String.eqb (strip typed_name) "" then "Hero"
               else strip typed_name) in *.
  assert (inside (World.mk 10 10 {[ [0; 0] ]}) (Character.init name 100 15 5))
    as Hinside by (exists 0, 0; split; [done|]; cbn; lia).
  assert ([0; 0] ∈ ({[ [0; 0] ]} : gset (list Z))) as Hdisc
    by (by apply elem_of_singleton).
  destruct starting_weapon as [r|].
  - apply get_weapon_by_name_Some in Hfind as [Hr _].
    pose proof (equip_derived _ _ _ _ Hp) as Hd.
    unfold Character.equip_weapon in Hp.
    apply bind_Ok in Hp as (w & _ & Hp). apply bind_Ok in Hp as (a & _ & [= <-]).
    split; [|done]. unfold sound. cbn.
    split; [unfold in_range; cbn; lia|]. split; [done|]. split; [done|].
    split; [done|]. split; [|done].
    intros r' [Hr'|Hr']; cbn in Hr'.
    + by injection Hr' as <-.
    + apply list_elem_of_singleton in Hr'. by injection Hr' as ->.
  - injection Hp as <-. split; [|done]. unfold sound. cbn.
    split; [unfold in_range; cbn; lia|]. split; [done|]. split; [done|].
    split; [done|]. split; [|done].
    intros r' [Hr'|Hr']; cbn in Hr'; [done|]. by apply elem_of_nil in Hr'.
Qed.

Lemma turn_sound weapons s i s' stop :
  Game.turn weapons s i = Game.Returns (s', stop) →
  sound weapons s →
  sound weapons s'
  ∧ same_definitions (Game.store s) (Game.store s')
  ∧ Game.moves_count s ≤ Game.moves_count s' ≤ Game.moves_count s + 1
  ∧ World.discovered (Game.world s) ⊆ World.discovered (Game.world s')
  ∧ (Character.is_alive (Game.player s) = true →
     Character.is_alive (Game.player s') = false → stop = true).
Proof.
  intros H Hs.
  assert (sound weapons s
          ∧ same_definitions (Game.store s) (Game.store s)
          ∧ Game.moves_count s ≤ Game.moves_count s ≤ Game.moves_count s + 1
          ∧ World.discovered (Game.world s) ⊆ World.discovered (Game.world s)
          ∧ (Character.is_alive (Game.player s) = true →
             Character.is_alive (Game.player s) = false → stop = true))
    as Hsame.
  { split; [done|]. split; [apply same_definitions_refl|]. split; [lia|].
    split; [done|]. congruence. }
  pose proof Hs as (Hr & Hd & Hin & Hdisc & Hc & Hlive).
  unfold Game.turn in H. cbv zeta in H.
  destruct (String.eqb (strip (Game.choice i)) "1").
  { destruct (Game.display_stats _); [|done]. by injection H as <- <-. }
  destruct (String.eqb (strip (Game.choice i)) "2"); [by injection H as <- <-|].
  destruct (String.eqb (strip (Game.choice i)) "3").
  { destruct (move_character_inside (Game.world s) (Game.player s)
                (lower (strip (Game.direction i))) Hin)
      as (p & w & moved & Hmove & Hin' & Hp & Hsub & Hpos).
    rewrite Hmove in H. cbn [Game.player Game.world Game.store Game.disk
                              Game.moves_count] in H.
    assert (∀ n, sound weapons (Game.mk p w (Game.store s) (Game.disk s) n))
      as Hs1.
    { intros n. unfold sound. cbn. rewrite Hp. cbn.
      split; [done|]. split; [done|].
      split; [by rewrite Hp in Hin'|].
      split; [|done]. specialize (Hpos Hdisc). by rewrite Hp in Hpos. }
    assert (Character.is_alive p = Character.is_alive (Game.player s)) as Hlife
      by (by rewrite Hp).
    destruct moved.
    - destruct (Battle.Qltb _ _).
      + apply encounter_sound in H as (Hs' & Hdef & Hmoves & Hworld & Hdead);
          [|apply Hs1].
        cbn in Hdef, Hmoves, Hworld. rewrite Hmoves, Hworld.
        split; [done|]. split; [done|]. split; [lia|]. by split.
      + injection H as <- <-. cbn. rewrite Hlife.
        split; [apply Hs1|]. split; [apply same_definitions_refl|].
        split; [lia|]. split; [done|]. congruence.
    - injection H as <- <-. cbn. rewrite Hlife.
      split; [apply Hs1|]. split; [apply same_definitions_refl|].
      split; [lia|]. split; [done|]. congruence. }
  destruct (String.eqb (strip (Game.choice i)) "4").
  { destruct (Battle.Qltb _ _).
    - apply encounter_sound in H as (Hs' & Hdef & Hmoves & Hworld & Hdead);
        [|done].
      rewrite Hmoves, Hworld. split; [done|]. split; [done|]. split; [lia|].
      by split.
    - destruct (Battle.Qltb _ _); [|by injection H as <- <-].
      apply find_treasure_sound in H
        as (Hs' & -> & Hstore & Hmoves & Hworld & Hhealth); [|done].
      rewrite Hstore, Hmoves, Hworld.
      split; [done|]. split; [apply same_definitions_refl|]. split; [lia|].
      split; [done|]. unfold Character.is_alive.
      intros Ha Hb. apply Z.ltb_lt in Ha. apply Z.ltb_ge in Hb. lia. }
  destruct (String.eqb (strip (Game.choice i)) "5").
  { injection H as <- <-. cbn.
    split; [apply sound_player; try done; by apply heal_in_range|].
    split; [apply same_definitions_refl|]. split; [lia|]. split; [done|].
    unfold Character.is_alive, Character.heal. cbn.
    destruct Hr as (Hh & _).
    intros Ha Hb. apply Z.ltb_lt in Ha. apply Z.ltb_ge in Hb. lia. }
  destruct (String.eqb (strip (Game.choice i)) "6").
  { destruct (inventory_loop _ _ _) as [[p [|]]|e] eqn:Hmenu; try done.
    injection H as <- <-. apply inventory_loop_rearmed in Hmenu.
    pose proof Hmenu as [E _]. cbn.
    split; [by apply rearmed_sound|].
    split; [apply same_definitions_refl|]. split; [lia|]. split; [done|].
    assert (Character.is_alive p = Character.is_alive (Game.player s)) as ->
      by (by rewrite E).
    congruence. }
  destruct (String.eqb (strip (Game.choice i)) "7").
  { destruct (shop_menu _ _ _ _ _) as [p|e] eqn:Hshop; [|done].
    injection H as <- <-.
    apply shop_menu_Ok in Hshop as [->|(k & r & w & _ & Hk & Hw & _ & ->)].
    { by destruct s. }
    apply list_elem_of_lookup_2, on_offer_elem in Hk
      as (Hin_r & w' & Hw' & Hcost & _).
    rewrite Hw in Hw'. injection Hw' as <-. cbn.
    split; [|split; [apply same_definitions_refl|split; [lia|split; [done|]]]];
      [|unfold Character.is_alive; cbn; congruence].
    apply sound_player; try done.
    - unfold in_range, bought in *. cbn. lia.
    - intros r' [Hr'|Hr']; [apply Hc; by left|].
      cbn in Hr'. apply elem_of_app in Hr' as [Hr'|Hr']; [apply Hc; by right|].
      apply list_elem_of_singleton in Hr'. by injection Hr' as ->. }
  destruct (String.eqb (strip (Game.choice i)) "8").
  { destruct (SaveManager.save_game _ _ _) as [[saved|e] session]; [|done].
    injection H as <- <-. cbn.
    split; [done|]. split; [apply same_definitions_refl|]. split; [lia|].
    split; [done|]. congruence. }
  destruct (String.eqb (strip (Game.choice i)) "9"); by injection H as <- <-.
Qed.

Lemma loop_sound weapons inputs : ∀ s s',
  Game.loop weapons s inputs = Game.Returns s' →
  sound weapons s →
  sound weapons s'
  ∧ same_definitions (Game.store s) (Game.store s')
  ∧ Game.moves_count s ≤ Game.moves_count s'
    ≤ Game.moves_count s + Z.of_nat (length inputs).
Proof.
  induction inputs as [|i inputs IH]; intros s s' H Hs; cbn [Game.loop] in H.
  - destruct (Character.is_alive _); [done|]. injection H as <-.
    split; [done|]. split; [apply same_definitions_refl|]. cbn. lia.
  - destruct (Character.is_alive _);
      [|injection H as <-; split; [done|];
        split; [apply same_definitions_refl|lia]].
    destruct (Game.turn weapons s i) as [[s1 stop]| | |] eqn:Hturn; try done.
    apply turn_sound in Hturn as (Hs1 & Hdef1 & Hmoves1 & _); [|done].
    cbn [length]. destruct stop.
    + injection H as <-. split; [done|]. split; [done|]. lia.
    + apply IH in H as (Hs' & Hdef' & Hmoves'); [|done].
      split; [done|]. split; [by eapply same_definitions_trans|]. lia.
Qed.

(** X23. A game in order is one where the player's health, level,
    experience and gold are in their ranges, [attack] is the base attack plus
    the bonus of the weapon in hand, the player stands inside the world on a
    discovered position, and holds only weapons of the catalogue.  A new game
    starts in order, with the hero alive, no move counted and, when the
    catalogue has a Rusty Sword, that sword in the inventory and in hand.
    One pass of the loop of [main], whatever is typed and drawn, takes a game
    in order to a game in order; it changes nothing of a weapon but its
    durability, counts at most one move, loses no discovered position, and
    when it leaves the player dead it leaves the loop.  So when the loop is
    left the game is in order, and the moves counted are at most the passes
    of the loop. *)
Theorem game_stays_sound (weapons : WeaponManager.t) (h : heap)
  (disk : SaveManager.file) (typed_name : string) (s0 : Game.state) :
  live h weapons →
  Game.new_game weapons h disk typed_name = Ok s0 →
  sound weapons s0
  ∧ Character.is_alive (Game.player s0) = true
  ∧ Game.moves_count s0 = 0
  ∧ (∀ r, WeaponManager.get_weapon_by_name h weapons "Rusty Sword"
          = Ok (Some r) →
       Character.equipped_weapon (Game.player s0) = Some r
       ∧ Character.inventory (Game.player s0) = [WeaponItem r])
  ∧ (∀ s i s' stop,
       sound weapons s →
       Game.turn weapons s i = Game.Returns (s', stop) →
       sound weapons s'
       ∧ same_definitions (Game.store s) (Game.store s')
       ∧ Game.moves_count s ≤ Game.moves_count s' ≤ Game.moves_count s + 1
       ∧ World.discovered (Game.world s) ⊆ World.discovered (Game.world s')
       ∧ (Character.is_alive (Game.player s) = true →
          Character.is_alive (Game.player s') = false → stop = true))
  ∧ ∀ inputs s',
      Game.loop weapons s0 inputs = Game.Returns s' →
      sound weapons s'
      ∧ same_definitions h (Game.store s')
      ∧ 0 ≤ Game.moves_count s' ≤ Z.of_nat (length inputs).
Proof.
  intros Hlive Hnew.
  pose proof (new_game_sound _ _ _ _ _ Hlive Hnew) as (Hs0 & Hstore & Hmoves & Ha).
  split; [done|]. split; [done|]. split; [done|]. split; [|split].
  - intros r Hr. unfold Game.new_game in Hnew. cbv zeta in Hnew.
    rewrite Hr in Hnew. cbn in Hnew.
    apply bind_Ok in Hnew as (p & Hp & [= <-]). cbn.
    unfold Character.equip_weapon in Hp.
    apply bind_Ok in Hp as (w & _ & Hp). by apply bind_Ok in Hp as (a & _ & [= <-]).
  - intros s i s' stop Hs Hturn. by apply (turn_sound weapons s i).
  - intros inputs s' Hloop.
    apply loop_sound in Hloop as (Hs' & Hdef & Hm); [|done].
    rewrite Hstore in Hdef. rewrite Hmoves in Hm. split; [done|]. by split.
Qed.

Lemma game_stays_sound_witness :
  ∃ s0 s',
    Game.new_game catalogue armory SaveManager.Absent "  " = Ok s0
    ∧ Character.name (Game.player s0) = "Hero"
    ∧ Character.equipped_weapon (Game.player s0) = Some 1%positive
    ∧ Game.turn catalogue s0 fight_up = Game.Returns (s', false)
    ∧ sound catalogue s'
    ∧ Character.position (Game.player s') = [0; 1]
    ∧ Game.moves_count s' = 1
    ∧ Character.gold (Game.player s') = 115.
Proof.
  assert (live armory catalogue) as Hlive.
  { refine (proj2 (catalogue_live armory) _).
    repeat split; eexists; reflexivity. }
  destruct (Game.new_game catalogue armory SaveManager.Absent "  ")
    as [s0|e] eqn:Hnew; [|by vm_compute in Hnew].
  destruct (game_stays_sound catalogue armory SaveManager.Absent "  " s0
              Hlive Hnew) as (Hs0 & _ & _ & Hsword & Hpass & _).
  destruct (Game.turn catalogue s0 fight_up) as [[s' stop]| | |] eqn:Hturn;
    try (by vm_compute in Hnew; injection Hnew as <-; vm_compute in Hturn).
  exists s0, s'.
  destruct (Hpass s0 fight_up s' stop Hs0 Hturn) as (Hs' & _).
  destruct (Hsword 1%positive) as (Hequipped & _);
    [by vm_compute in Hnew; injection Hnew as <-|].
  vm_compute in Hnew. injection Hnew as <-.
  vm_compute in Hturn. injection Hturn as <- <-.
  split; [done|]. split; [done|]. split; [exact Hequipped|].
  split; [done|]. split; [exact Hs'|]. done.
Defined.

(** ** Instances *)

Lemma repair_restores_witness :
  Weapon.repair (Weapon.use rusty_sword).1 (Some 1) = rusty_sword
  ∧ Weapon.durability (Weapon.repair (Weapon.set_durability (-3) rusty_sword) None)
    = 2.
Proof.
  destruct (repair_restores rusty_sword) as (_ & _ & _ & _ & Hundo).
  split; [apply Hundo; cbn; lia|].
  exact (proj1 (repair_restores (Weapon.set_durability (-3) rusty_sword))).
Defined.

Lemma move_character_step_witness :
  GameWorld.move_character empty_world hero "north"
  = Some (hero, empty_world, false).
Proof. apply (proj1 (move_character_step empty_world hero "north")). reflexivity. Defined.

Lemma encounter_by_level_witness :
  GameWorld.random_encounter hero 1 = Some (Enemy.init "Skeleton" 40 10 3 35 25)
  ∧ GameWorld.random_encounter (Character.set_level (-1) hero) 1 = None.
Proof.
  split.
  - apply (proj1 (proj2 (encounter_by_level hero 0))
             1%nat ("Skeleton", 40, 10, 3, 35, 25)); [reflexivity|cbn; lia].
  - apply (proj2 (proj2 (encounter_by_level (Character.set_level (-1) hero) 1))).
    by left.
Defined.
